(** * Verification of [embeddings/data_io.py]

    A shallow embedding of the data-shaping functions of the acoustic
    embedding pipeline: [load_data_from_npz], [filter_data] and
    [pad_sequences], together with the Python and NumPy primitives they
    rely on (list indexing, slicing, [str.split], [sorted], [Counter],
    [np.round], slice assignment with broadcasting).

    Conventions.
    - Python integers are [Z]; list positions produced by [range] are [nat].
    - A raised exception is a value [Raise e] of the [result] type; the
      binding notation of the error monad sequences statements.
    - Strings are byte strings (the UTF-8 encoding of the Python [str]);
      byte-wise lexicographic order coincides with code-point order, and
      splitting on the byte ["_"] coincides with splitting on the character.
    - Dictionaries iterate in insertion order (CPython 3.7 and later). *)

From Stdlib Require Import QArith Qround Ascii String.
From stdpp Require Import base option list sorting gmap strings.

Local Open Scope Z_scope.

(** ** Exceptions and the error monad *)

Inductive exn : Set :=
  | IndexError   (* sequence index out of range *)
  | KeyError     (* missing mapping key *)
  | ValueError.  (* NumPy shape errors *)

Inductive result (T : Type) : Type :=
  | Ok (v : T)
  | Raise (e : exn).
Arguments Ok {T} v.
Arguments Raise {T} e.

Global Instance result_ret : MRet result := λ T v, Ok v.
Global Instance result_bind : MBind result := λ T U f m,
  match m with
  | Ok v => f v
  | Raise e => Raise e
  end.

(** ** Python sequence primitives *)

Section python_lists.
Context {T : Type}.

(** [l[i]] for a Python integer [i]: negative positions count from the
    end, anything outside the list raises [IndexError]. *)
Definition getitem (l : list T) (i : Z) : result T :=
  let n := Z.of_nat (length l) in
  let j := if bool_decide (i < 0) then i + n else i in
  if bool_decide (0 ≤ j < n) then
    match l !! Z.to_nat j with
    | Some v => Ok v
    | None => Raise IndexError
    end
  else Raise IndexError.

(** Start or stop of a slice [l[a:b]] over a sequence of [n] items:
    negative values count from the end, the result is clamped to
    [0..n]. *)
Definition slice_bound (n : nat) (i : Z) : nat :=
  let m := Z.of_nat n in
  Z.to_nat (Z.min m (Z.max 0 (if bool_decide (i < 0) then i + m else i))).

(** [l[a:b]] *)
Definition slice (l : list T) (a b : Z) : list T :=
  let lo := slice_bound (length l) a in
  let hi := slice_bound (length l) b in
  take (hi - lo)%nat (drop lo l).

(** [l[:b]] *)
Definition slice_to (l : list T) (b : Z) : list T := slice l 0 b.
End python_lists.

(** [s.split("_")]: the segments between the separator bytes; never empty. *)
Fixpoint split (sep : ascii) (s : string) : list string :=
  match s with
  | EmptyString => [EmptyString]
  | String c s' =>
      if Ascii.eqb c sep then EmptyString :: split sep s'
      else match split sep s' with
           | seg :: segs => String c seg :: segs
           | [] => [String c EmptyString]
           end
  end.

Definition underscore : ascii := "_"%char.

(** The order of [sorted] on strings. *)
Definition string_le (s1 s2 : string) : Prop := String.leb s1 s2 = true.
Definition string_lt (s1 s2 : string) : Prop := String.ltb s1 s2 = true.

Global Instance string_le_dec s1 s2 : Decision (string_le s1 s2).
Proof. unfold string_le. apply _. Defined.

(** [sorted(keys)] *)
Definition sorted (l : list string) : list string := merge_sort string_le l.

(** ** Arrays *)

Section arrays.
Context {A : Type}.

(** A two-dimensional NumPy array: [shape = (len(rows), ncols)]. The column
    count is kept apart from the rows because an array without rows still
    has one. *)
Record array2 : Type := Array2 {
  ncols : nat;
  rows : list (list A)
}.

(** Every row has [ncols] entries. *)
Definition array2_wf (a : array2) : Prop :=
  Forall (λ r, length r = ncols a) (rows a).

(** [len(a)], also [a.shape[0]] *)
Definition len (a : array2) : Z := Z.of_nat (length (rows a)).
End arrays.
Arguments array2 A : clear implicits.

(** ** The five parallel lists *)

Section lists5.
Context {X : Type}.

(** [(data, labels, lengths, keys, speakers)] *)
Record lists5 : Type := Lists5 {
  data : list X;
  labels : list string;
  lengths : list Z;
  keys : list string;
  speakers : list string
}.

Definition empty5 : lists5 := Lists5 [] [] [] [] [].
End lists5.
Arguments lists5 X : clear implicits.

(** ** [load_data_from_npz] *)

Section load.
Context {A : Type}.

(** The lists built up by the loop, named as in the source. *)
Record load_acc : Type := LoadAcc {
  acc_x : list (array2 A);
  acc_labels : list string;
  acc_speakers : list string;
  acc_lengths : list Z;
  acc_keys : list string
}.

(** [npz[utt_key]] *)
Definition npz_getitem (npz : gmap string (array2 A)) (k : string)
  : result (array2 A) :=
  match npz !! k with
  | Some a => Ok a
  | None => Raise KeyError
  end.

(** [min_length is not None and len(cur_x) <= min_length] *)
Definition too_short (min_length : option Z) (cur_x : array2 A) : bool :=
  match min_length with
  | Some m => bool_decide (len cur_x ≤ m)
  | None => false
  end.

(** The body of [for utt_key in sorted(npz)], over the keys still to be
    visited. *)
Fixpoint load_loop (npz : gmap string (array2 A)) (min_length : option Z)
    (todo : list string) (acc : load_acc) : result load_acc :=
  match todo with
  | [] => Ok acc
  | utt_key :: todo' =>
      cur_x ← npz_getitem npz utt_key;
      if too_short min_length cur_x then
        load_loop npz min_length todo' acc
      else
        let keys1 := acc_keys acc ++ [utt_key] in
        let x1 := acc_x acc ++ [cur_x] in
        let utt_key_split := split underscore utt_key in
        word ← getitem utt_key_split 0;
        speaker ← getitem utt_key_split 1;
        load_loop npz min_length todo'
          {| acc_x := x1;
             acc_labels := acc_labels acc ++ [word];
             acc_speakers := acc_speakers acc ++ [speaker];
             acc_lengths := acc_lengths acc ++ [len cur_x];
             acc_keys := keys1 |}
  end.

Definition load_data_from_npz (npz : gmap string (array2 A))
    (min_length : option Z) : result (lists5 (array2 A)) :=
  acc ← load_loop npz min_length (sorted (map_to_list npz).*1)
           (LoadAcc [] [] [] [] []);
  _ ← getitem (acc_x acc) 0;   (* x[0].shape *)
  Ok (Lists5 (acc_x acc) (acc_labels acc) (acc_lengths acc)
             (acc_keys acc) (acc_speakers acc)).
End load.

(** ** [collections.Counter] *)

(** A counter is kept as the list of its items in insertion order, which is
    the order in which [Counter.items()] and iteration over the counter
    present them. *)
Fixpoint counter_incr (l : string) (c : list (string * Z)) : list (string * Z) :=
  match c with
  | [] => [(l, 1)]
  | (k, n) :: c' =>
      if decide (k = l) then (k, n + 1) :: c' else (k, n) :: counter_incr l c'
  end.

(** [Counter(labels)] *)
Definition Counter (ls : list string) : list (string * Z) :=
  foldl (λ c l, counter_incr l c) [] ls.

(** [sorted(items, key=itemgetter(1), reverse=True)]: stable, so items with
    equal counts stay in insertion order. *)
Fixpoint insert_by_count (x : string * Z) (l : list (string * Z))
    : list (string * Z) :=
  match l with
  | [] => [x]
  | y :: l' =>
      if bool_decide (x.2 < y.2) then y :: insert_by_count x l'
      else x :: y :: l'
  end.

Definition sort_by_count (l : list (string * Z)) : list (string * Z) :=
  foldr insert_by_count [] l.

(** [c.most_common(n)], which is [heapq.nlargest(n, c.items(), key=count)]:
    the first [n] items of the stable decreasing sort, none when [n ≤ 0]. *)
Definition most_common (c : list (string * Z)) (n : Z) : list (string * Z) :=
  take (Z.to_nat n) (sort_by_count c).

(** ** [filter_data] *)

Section filter.
Context {X : Type}.

(** The generator of the [random] module: its states, the state that
    [random.seed(a)] installs and [random.shuffle] on a list of indices,
    which returns the reordered list and the state it leaves behind. *)
Context {rng : Type} (seed : Z → rng)
        (shuffle : rng → list nat → list nat * rng).

(** The five [append] calls for position [i] of the current lists. *)
Definition append_row (src : lists5 X) (i : nat) (out : lists5 X)
  : result (lists5 X) :=
  d ← getitem (data src) (Z.of_nat i);
  l ← getitem (labels src) (Z.of_nat i);
  n ← getitem (lengths src) (Z.of_nat i);
  k ← getitem (keys src) (Z.of_nat i);
  s ← getitem (speakers src) (Z.of_nat i);
  Ok {| data := data out ++ [d];
        labels := labels out ++ [l];
        lengths := lengths out ++ [n];
        keys := keys out ++ [k];
        speakers := speakers out ++ [s] |}.

(** [for i in idx: if labels[i] in types: <append row i>] *)
Fixpoint keep_types (types : list string) (src : lists5 X) (idx : list nat)
    (out : lists5 X) : result (lists5 X) :=
  match idx with
  | [] => Ok out
  | i :: idx' =>
      l ← getitem (labels src) (Z.of_nat i);
      if bool_decide (l ∈ types) then
        out' ← append_row src i out;
        keep_types types src idx' out'
      else keep_types types src idx' out
  end.

(** [for i in idx: <append row i>] *)
Fixpoint keep_rows (src : lists5 X) (idx : list nat) (out : lists5 X)
    : result (lists5 X) :=
  match idx with
  | [] => Ok out
  | i :: idx' =>
      out' ← append_row src i out;
      keep_rows src idx' out'
  end.

(** [tokens_per_type[l]] on a [Counter]: a missing label counts 0. *)
Definition count_of (tokens_per_type : gmap string Z) (l : string) : Z :=
  default 0 (tokens_per_type !! l).

(** [for i in idx: if tokens_per_type[labels[i]] < n: <append row i>;
    tokens_per_type[labels[i]] += 1] *)
Fixpoint keep_capped (n : Z) (src : lists5 X) (idx : list nat)
    (tokens_per_type : gmap string Z) (out : lists5 X)
    : result (lists5 X) :=
  match idx with
  | [] => Ok out
  | i :: idx' =>
      l ← getitem (labels src) (Z.of_nat i);
      if bool_decide (count_of tokens_per_type l < n) then
        out' ← append_row src i out;
        l' ← getitem (labels src) (Z.of_nat i);
        keep_capped n src idx'
          (<[l' := count_of tokens_per_type l' + 1]> tokens_per_type) out'
      else keep_capped n src idx' tokens_per_type out
  end.

(** [range(len(data))] *)
Definition positions (d : lists5 X) : list nat := seq 0 (length (data d)).

(** Stage [n_max_types]. *)
Definition max_types_stage (n_max_types : Z) (d : lists5 X)
  : result (lists5 X) :=
  let types := (most_common (Counter (labels d)) n_max_types).*1 in
  keep_types types d (positions d) empty5.

(** Stage [n_max_tokens]. *)
Definition max_tokens_stage (n_max_tokens : Z) (d : lists5 X) (g : rng)
  : result (lists5 X * rng) :=
  let '(indices, g') := shuffle g (positions d) in
  d' ← keep_rows d (slice_to indices n_max_tokens) empty5;
  Ok (d', g').

(** Stage [n_min_tokens_per_type]. *)
Definition min_tokens_per_type_stage (n_min_tokens_per_type : Z)
    (d : lists5 X) : result (lists5 X) :=
  let counts := Counter (labels d) in
  let types :=
    (filter (λ kv, n_min_tokens_per_type ≤ kv.2) counts).*1 in
  keep_types types d (positions d) empty5.

(** Stage [n_max_tokens_per_type]. *)
Definition max_tokens_per_type_stage (n_max_tokens_per_type : Z)
    (d : lists5 X) (g : rng) : result (lists5 X * rng) :=
  let '(indices, g') := shuffle g (positions d) in
  d' ← keep_capped n_max_tokens_per_type d indices ∅ empty5;
  Ok (d', g').

(** The keyword arguments; [None] switches a stage off. *)
Record constraints : Type := Constraints {
  n_min_tokens_per_type : option Z;
  n_max_types : option Z;
  n_max_tokens : option Z;
  n_max_tokens_per_type : option Z
}.

(** The four stages, in the order of the source, from generator state
    [g]. *)
Definition filter_stages (g : rng) (d : lists5 X) (c : constraints)
  : result (lists5 X) :=
  d1 ← match n_max_types c with
       | Some k => max_types_stage k d
       | None => Ok d
       end;
  '(d2, g2) ← match n_max_tokens c with
              | Some n => max_tokens_stage n d1 g
              | None => Ok (d1, g)
              end;
  d3 ← match n_min_tokens_per_type c with
       | Some n => min_tokens_per_type_stage n d2
       | None => Ok d2
       end;
  '(d4, _) ← match n_max_tokens_per_type c with
             | Some n => max_tokens_per_type_stage n d3 g2
             | None => Ok (d3, g2)
             end;
  Ok d4.

(** [filter_data], called while the generator of the [random] module is in
    state [g0]; [random.seed(1)] replaces that state before any stage
    runs. *)
Definition filter_data (g0 : rng) (d : lists5 X) (c : constraints)
  : result (lists5 X) :=
  let g := seed 1 in
  filter_stages g d c.
End filter.

(** ** NumPy primitives used by [pad_sequences] *)

(** [np.round] on an exact real: the nearest integer, a midpoint going to
    the even neighbour. *)
Definition np_round (q : Q) : Z :=
  let f := Qfloor q in
  match (q - inject_Z f ?= 1 # 2)%Q with
  | Lt => f
  | Gt => f + 1
  | Eq => if Z.even f then f else f + 1
  end.

(** [int(np.round((n_padded - length) / 2.))]; halving an integer is exact in
    binary floating point, so the quotient is taken in [Q]. *)
Definition padding_of (n_padded length : Z) : Z :=
  np_round (inject_Z (n_padded - length) / 2)%Q.

Section numpy.
Context {A : Type}.

(** Broadcasting of one row of [w'] entries to [w] entries. *)
Definition broadcast_row (w : nat) (r : list A) : result (list A) :=
  if bool_decide (length r = w) then Ok r
  else match r with
       | [v] => Ok (replicate w v)
       | _ => Raise ValueError
       end.

(** Broadcasting of an array of shape [(h', w')] to shape [(h, w)]: each
    axis has to agree or to be 1 in the source, otherwise NumPy raises
    "could not broadcast input array". *)
Definition broadcast_to (h w : nat) (src : array2 A)
  : result (list (list A)) :=
  if bool_decide (ncols src = w ∨ ncols src = 1%nat) then
    if bool_decide (length (rows src) = h) then
      mapM (broadcast_row w) (rows src)
    else match rows src with
         | [r] => r' ← broadcast_row w r; Ok (replicate h r')
         | _ => Raise ValueError
         end
  else Raise ValueError.

(** [a[lo:hi]] on the rows of an array. *)
Definition array_slice (a : array2 A) (lo hi : Z) : array2 A :=
  {| ncols := ncols a; rows := slice (rows a) lo hi |}.
End numpy.

Section numpy_assign.
(** [A] are the entries of the source array, [B] the entries of the array
    assigned to; [astype] is the conversion NumPy applies to an entry when
    it is stored into an array of another dtype. Between numeric dtypes an
    assignment converts without complaint, so [astype] is total. *)
Context {A B : Type} (astype : A → B).

(** The rows of an array with every entry converted. *)
Definition astype_rows (rs : list (list A)) : list (list B) :=
  (λ r : list A, astype <$> r) <$> rs.

(** [item[lo:hi, :] = src] on one item of the batch tensor, the bounds
    already resolved against the item's row count: the source is broadcast
    to the shape of the target rows and its entries are converted to the
    dtype of the tensor. *)
Definition assign_rows (w : nat) (item : list (list B)) (lo hi : nat)
    (src : array2 A) : result (list (list B)) :=
  let h := (hi - lo)%nat in
  block ← broadcast_to h w src;
  Ok (take lo item ++ astype_rows block ++ drop (lo + h) item).
End numpy_assign.

(** The number of elements NumPy counts for a shape when it checks the size
    of a new array: the product of the dimensions, those that are 0 left
    out. *)
Definition np_size (shape : list Z) : Z :=
  foldr (λ n acc, (if bool_decide (n = 0) then 1 else n) * acc) 1 shape.

(** [mask_row[lo:hi] = 1] *)
Definition fill_ones (row : list Z) (lo hi : nat) : list Z :=
  take lo row ++ replicate (hi - lo) 1 ++ drop (lo + (hi - lo)) row.

(** ** [pad_sequences] *)

Section pad.
(** [NP_DTYPE] is defined in [tflego], outside this module, so what the
    code uses of it is taken as a parameter: [B] are its values and [zero]
    is its 0, [astype] is the conversion of an entry of a sequence (of type
    [A], the dtype of the archive) to it, and [np_max_size] is the largest
    number of elements NumPy accepts for an array of it (the index range of
    the platform divided by the size of one element). The mask entries are
    the numbers 0 and 1. *)
Context {A B : Type} (astype : A → B) (zero : B) (np_max_size : Z).

(** [padded_x], [mask_x] when requested, and [lengths]. *)
Record pad_state : Type := PadState {
  padded_x : list (list (list B));
  mask_x : option (list (list Z));
  out_lengths : list Z
}.

(** [np.zeros((n, n_padded, d), dtype=NP_DTYPE)] and
    [np.zeros((n, n_padded), dtype=NP_DTYPE)]: a negative dimension is
    refused, and so is a shape of more elements than [np_max_size], both
    with [ValueError]. An allocation that fails for lack of memory is not
    modelled. *)
Definition np_zeros3 (n : nat) (n_padded : Z) (d : nat)
  : result (list (list (list B))) :=
  if bool_decide (n_padded < 0) then Raise ValueError
  else if bool_decide
            (np_max_size < np_size [Z.of_nat n; n_padded; Z.of_nat d])
  then Raise ValueError
  else Ok (replicate n (replicate (Z.to_nat n_padded) (replicate d zero))).

Definition np_zeros2 (n : nat) (n_padded : Z) : result (list (list Z)) :=
  if bool_decide (n_padded < 0) then Raise ValueError
  else if bool_decide (np_max_size < np_size [Z.of_nat n; n_padded])
  then Raise ValueError
  else Ok (replicate n (replicate (Z.to_nat n_padded) 0)).

(** [padded_x[i_data, lo:hi, :] = src] *)
Definition set_item_rows (d : nat) (t : list (list (list B))) (i_data : nat)
    (lo hi : Z) (src : array2 A) : result (list (list (list B))) :=
  match t !! i_data with
  | None => Raise IndexError
  | Some item =>
      let n := length item in
      item' ← assign_rows astype d item (slice_bound n lo) (slice_bound n hi)
                 src;
      Ok (<[i_data := item']> t)
  end.

(** [padded_x[i_data, :, :] = src] *)
Definition set_item_all (d : nat) (t : list (list (list B))) (i_data : nat)
    (src : array2 A) : result (list (list (list B))) :=
  match t !! i_data with
  | None => Raise IndexError
  | Some item =>
      item' ← assign_rows astype d item 0 (length item) src;
      Ok (<[i_data := item']> t)
  end.

(** [mask_x[i_data, lo:hi] = 1], when a mask was requested. *)
Definition set_mask (m : option (list (list Z))) (i_data : nat) (lo hi : Z)
  : result (option (list (list Z))) :=
  match m with
  | None => Ok None
  | Some rows =>
      match rows !! i_data with
      | None => Raise IndexError
      | Some row =>
          let n := length row in
          Ok (Some (<[i_data :=
                fill_ones row (slice_bound n lo) (slice_bound n hi)]> rows))
      end
  end.

(** [mask_x[i_data, :] = 1], when a mask was requested. *)
Definition set_mask_all (m : option (list (list Z))) (i_data : nat)
  : result (option (list (list Z))) :=
  match m with
  | None => Ok None
  | Some rows =>
      match rows !! i_data with
      | None => Raise IndexError
      | Some row =>
          Ok (Some (<[i_data := fill_ones row 0 (length row)]> rows))
      end
  end.

(** One turn of [for i_data, cur_x in enumerate(x)]. *)
Definition pad_step (n_padded : Z) (center_padded : bool) (d : nat)
    (i_data : nat) (cur_x : array2 A) (st : pad_state) : result pad_state :=
  let length := len cur_x in
  if center_padded then
    let padding := padding_of n_padded length in
    if bool_decide (length ≤ n_padded) then
      t ← set_item_rows d (padded_x st) i_data padding (padding + length)
            cur_x;
      m ← set_mask (mask_x st) i_data padding (padding + length);
      Ok (PadState t m (out_lengths st ++ [Z.min length n_padded]))
    else
      (* Cut out snippet from sequence exceeding n_padded *)
      t ← set_item_all d (padded_x st) i_data
            (array_slice cur_x (- padding) (- padding + n_padded));
      m ← set_mask_all (mask_x st) i_data;
      Ok (PadState t m (out_lengths st ++ [Z.min length n_padded]))
  else
    let length := Z.min length n_padded in
    t ← set_item_rows d (padded_x st) i_data 0 length
          (array_slice cur_x 0 length);
    m ← set_mask (mask_x st) i_data 0 length;
    Ok (PadState t m (out_lengths st ++ [length])).

Fixpoint pad_loop (n_padded : Z) (center_padded : bool) (d : nat)
    (i_data : nat) (x : list (array2 A)) (st : pad_state)
    : result pad_state :=
  match x with
  | [] => Ok st
  | cur_x :: x' =>
      st' ← pad_step n_padded center_padded d i_data cur_x st;
      pad_loop n_padded center_padded d (S i_data) x' st'
  end.

(** The result is [(padded_x, lengths)], with [mask_x] as third component
    exactly when [return_mask] is set. *)
Definition pad_sequences (x : list (array2 A)) (n_padded : Z)
    (center_padded return_mask : bool) : result pad_state :=
  x0 ← getitem x 0;
  let d := ncols x0 in
  t ← np_zeros3 (length x) n_padded d;
  m ← (if return_mask then
         z ← np_zeros2 (length x) n_padded; Ok (Some z)
       else Ok None);
  pad_loop n_padded center_padded d 0 x (PadState t m []).
End pad.

(** ** [trunc_and_limit_dim] *)

Section trunc.
Context {A : Type}.

(** [a[:max_length, :d_frame]]: the rows up to [max_length], of each the
    entries up to [d_frame]; both bounds follow the slice rules, so a
    negative bound counts from the end. *)
Definition array_slice2 (a : array2 A) (max_length d_frame : Z) : array2 A :=
  {| ncols := (slice_bound (ncols a) d_frame - slice_bound (ncols a) 0)%nat;
     rows := (λ r, slice_to r d_frame) <$> slice_to (rows a) max_length |}.

(** The two lists the function updates in place, and the exception that
    ended the call, if any: what was written before stays written. *)
Record trunc_state : Type := TruncState {
  ts_x : list (array2 A);
  ts_lengths : list Z;
  ts_raised : option exn
}.

(** One turn of [for i, seq in enumerate(x)]:
    [x[i] = x[i][:max_length, :d_frame]] and then
    [lengths[i] = min(lengths[i], max_length)]. *)
Definition trunc_step (d_frame max_length : Z) (i : nat)
    (x : list (array2 A)) (lengths : list Z) : trunc_state :=
  match x !! i with
  | None => TruncState x lengths (Some IndexError)
  | Some xi =>
      let x' := <[i := array_slice2 xi max_length d_frame]> x in
      match getitem lengths (Z.of_nat i) with
      | Raise e => TruncState x' lengths (Some e)
      | Ok li => TruncState x' (<[i := Z.min li max_length]> lengths) None
      end
  end.

Fixpoint trunc_loop (d_frame max_length : Z) (todo : list nat)
    (x : list (array2 A)) (lengths : list Z) : trunc_state :=
  match todo with
  | [] => TruncState x lengths None
  | i :: todo' =>
      let st := trunc_step d_frame max_length i x lengths in
      match ts_raised st with
      | Some e => st
      | None => trunc_loop d_frame max_length todo' (ts_x st) (ts_lengths st)
      end
  end.

Definition trunc_and_limit_dim (x : list (array2 A)) (lengths : list Z)
    (d_frame max_length : Z) : trunc_state :=
  trunc_loop d_frame max_length (seq 0 (length x)) x lengths.
End trunc.

(** ** [apply_model]: keying the embeddings *)

Section embed_dict.
(** The rows of [np_z], one embedding per row; the model that computes them
    and the batch iterator whose [indices] say which utterance each row
    belongs to are outside this module, so both are arguments here. *)
Context {V : Type}.

(** [[keys[i] for i in batch_iterator.indices]] *)
Definition selected_keys (keys : list string) (indices : list Z)
  : result (list string) :=
  mapM (getitem keys) indices.

(** [for i, utt_key in enumerate(...): embed_dict[utt_key] = np_z[i]],
    from position [i] on. *)
Fixpoint fill_embed_dict (i : nat) (utt_keys : list string) (np_z : list V)
    (embed_dict : gmap string V) : result (gmap string V) :=
  match utt_keys with
  | [] => Ok embed_dict
  | utt_key :: utt_keys' =>
      z ← getitem np_z (Z.of_nat i);
      fill_embed_dict (S i) utt_keys' np_z (<[utt_key := z]> embed_dict)
  end.

(** The last loop of [apply_model] and its result. *)
Definition embed_dict_of (keys : list string) (indices : list Z)
    (np_z : list V) : result (gmap string V) :=
  utt_keys ← selected_keys keys indices;
  fill_embed_dict 0 utt_keys np_z ∅.
End embed_dict.

(** ** Vocabulary of the statements *)

Section load_vocabulary.
Context {A : Type}.

(** The entry under key [k] exists and passes the [min_length] test. *)
Definition retained (npz : gmap string (array2 A)) (min_length : option Z)
    (k : string) : Prop :=
  ∃ a, npz !! k = Some a ∧ too_short min_length a = false.

Global Instance retained_dec npz min_length k :
  Decision (retained npz min_length k).
Proof.
  unfold retained. destruct (npz !! k) as [a|] eqn:E.
  - destruct (too_short min_length a) eqn:E'.
    + right. intros (b & Hb & Hs). congruence.
    + left. eauto.
  - right. intros (b & Hb & _). congruence.
Defined.

(** The key splits into a label and a speaker segment at least. *)
Definition well_keyed (k : string) : Prop :=
  (2 ≤ length (split underscore k))%nat.

(** The accumulated lists describe exactly the keys [ks], position by
    position. *)
Definition describes (npz : gmap string (array2 A)) (ks : list string)
    (acc : load_acc) : Prop :=
  acc_keys acc = ks
  ∧ Forall2 (λ k a, npz !! k = Some a) ks (acc_x acc)
  ∧ Forall2 (λ k w, split underscore k !! 0%nat = Some w) ks (acc_labels acc)
  ∧ Forall2 (λ k s, split underscore k !! 1%nat = Some s) ks
      (acc_speakers acc)
  ∧ Forall2 (λ k n, ∃ a, npz !! k = Some a ∧ n = len a) ks (acc_lengths acc).
End load_vocabulary.

Section filter_vocabulary.
Context {X : Type}.

(** Five lists of one length. *)
Definition aligned (d : lists5 X) : Prop :=
  length (labels d) = length (data d)
  ∧ length (lengths d) = length (data d)
  ∧ length (keys d) = length (data d)
  ∧ length (speakers d) = length (data d).

(** [out] holds, position by position, the elements of [src] found at the
    positions [idx]. *)
Definition taken_at {T} (src : list T) (idx : list nat) (out : list T)
  : Prop :=
  Forall2 (λ i v, src !! i = Some v) idx out.

(** The five lists of [out] are taken from those of [src] at the same
    positions [idx]: entry [j] of each output list is entry [idx !! j] of
    the corresponding input list. *)
Definition rows_at (src : lists5 X) (idx : list nat) (out : lists5 X)
  : Prop :=
  taken_at (data src) idx (data out)
  ∧ taken_at (labels src) idx (labels out)
  ∧ taken_at (lengths src) idx (lengths out)
  ∧ taken_at (keys src) idx (keys out)
  ∧ taken_at (speakers src) idx (speakers out).

(** The label at position [i] belongs to [types]. *)
Definition label_in (src : lists5 X) (types : list string) (i : nat)
  : Prop :=
  ∃ l, labels src !! i = Some l ∧ l ∈ types.

Global Instance label_in_dec src types i : Decision (label_in src types i).
Proof.
  unfold label_in. destruct (labels src !! i) as [l|] eqn:E.
  - destruct (decide (l ∈ types)) as [H | H].
    + left. eauto.
    + right. intros (l' & Hl' & Hin). congruence.
  - right. intros (l' & Hl' & _). congruence.
Defined.
End filter_vocabulary.

(** How often [l] occurs in [ls], and how many different labels [ls] has. *)
Definition occurrences (l : string) (ls : list string) : nat :=
  length (filter (λ l', l' = l) ls).

Definition distinct (ls : list string) : nat := length (remove_dups ls).

(** The items of a counter are the labels seen, each with its number of
    occurrences. *)
Definition counts (c : list (string * Z)) (ls : list string) : Prop :=
  NoDup c.*1
  ∧ ∀ l n, (l, n) ∈ c ↔ l ∈ ls ∧ n = Z.of_nat (occurrences l ls).

(** The order of [most_common]: decreasing counts. *)
Definition by_count_desc (a b : string * Z) : Prop := b.2 ≤ a.2.

(** The labels [most_common] selects: the types kept by stage
    [n_max_types]. *)
Definition top_labels (ls : list string) (k : Z) : list string :=
  (most_common (Counter ls) k).*1.

Section pad_vocabulary.
Context {A : Type} (zero : A).

(** What centred padding makes of one sequence: the sequence between rows
    of zeros, or a window of [n_padded] rows cut out of it. *)
Definition centered_item (n_padded : Z) (d : nat) (s : array2 A)
  : list (list A) :=
  let p := padding_of n_padded (len s) in
  if bool_decide (len s ≤ n_padded) then
    replicate (Z.to_nat p) (replicate d zero) ++ rows s
      ++ replicate (Z.to_nat (n_padded - p - len s)) (replicate d zero)
  else take (Z.to_nat n_padded) (drop (Z.to_nat (- p)) (rows s)).

(** The mask row that goes with it. *)
Definition centered_mask (n_padded : Z) (s : array2 A) : list Z :=
  let p := padding_of n_padded (len s) in
  if bool_decide (len s ≤ n_padded) then
    replicate (Z.to_nat p) 0 ++ replicate (Z.to_nat (len s)) 1
      ++ replicate (Z.to_nat (n_padded - p - len s)) 0
  else replicate (Z.to_nat n_padded) 1.

(** The shape of the state while sequence [i_data] is being written:
    [n] items, [i_data] among them, a mask of [n] rows if there is one. *)
Definition pad_shape (n i_data : nat) (st : @pad_state A) : Prop :=
  length (padded_x st) = n ∧ (i_data < n)%nat
  ∧ ∀ m, mask_x st = Some m → length m = n.
(** The state between two turns: [n] items of [n_padded] rows each. *)
Definition pad_items_ok (n : nat) (n_padded : Z) (st : @pad_state A) : Prop :=
  length (padded_x st) = n
  ∧ Forall (λ item, length item = Z.to_nat n_padded) (padded_x st)
  ∧ ∀ m, mask_x st = Some m → length m = n.

End pad_vocabulary.

(** A sequence as the tensor stores it: every entry converted. *)
Definition astype_array {A B} (astype : A → B) (s : array2 A) : array2 B :=
  {| ncols := ncols s; rows := astype_rows astype (rows s) |}.

(** The sum of a mask row. *)
Definition sum_list (l : list Z) : Z := foldr Z.add 0 l.

(** ** Vocabulary of the further properties *)

(** [sep.join(segs)] *)
Fixpoint join (sep : ascii) (segs : list string) : string :=
  match segs with
  | [] => EmptyString
  | seg :: segs' =>
      match segs' with
      | [] => seg
      | _ :: _ => seg +:+ (String sep (join sep segs'))
      end
  end.

(** How many of the positions [idx] carry the label [l]. *)
Definition label_count {X} (src : lists5 X) (l : string) (idx : list nat)
  : nat :=
  length (filter (λ i, labels src !! i = Some l) idx).

Section pad_vocabulary_more.
Context {A : Type} (zero : A).

(** What left-aligned padding makes of one sequence: its first rows, at
    most [n_padded] of them, followed by rows of zeros. *)
Definition left_item (n_padded : Z) (d : nat) (s : array2 A)
  : list (list A) :=
  let length := Z.min (len s) n_padded in
  take (Z.to_nat length) (rows s)
    ++ replicate (Z.to_nat (n_padded - length)) (replicate d zero).

(** The mask row that goes with it. *)
Definition left_mask (n_padded : Z) (s : array2 A) : list Z :=
  let length := Z.min (len s) n_padded in
  replicate (Z.to_nat length) 1 ++ replicate (Z.to_nat (n_padded - length)) 0.

(** The item of a sequence in either mode. *)
Definition padded_item (center_padded : bool) (n_padded : Z) (d : nat)
    (s : array2 A) : list (list A) :=
  if center_padded then centered_item zero n_padded d s
  else left_item n_padded d s.
End pad_vocabulary_more.

Definition padded_mask {A} (center_padded : bool) (n_padded : Z)
    (s : array2 A) : list Z :=
  if center_padded then centered_mask n_padded s else left_mask n_padded s.

Section widen.
Context {A : Type}.

(** What NumPy's broadcasting makes of a row written into [w] columns: a
    row of one entry is repeated, a row of [w] entries is kept. *)
Definition widen_row (w : nat) (r : list A) : list A :=
  if bool_decide (length r = w) then r
  else match r with
       | [v] => replicate w v
       | _ => r
       end.

(** The array of width [w] that a sequence is broadcast to. *)
Definition widen (w : nat) (s : array2 A) : array2 A :=
  {| ncols := w; rows := widen_row w <$> rows s |}.
End widen.

(** ** Sample inputs *)

(** A batch with sequences of 2, 5 and 3 rows of two features each. *)
Definition demo_short : array2 Z := Array2 2 [[1; 2]; [3; 4]].
Definition demo_long : array2 Z :=
  Array2 2 [[1; 1]; [2; 2]; [3; 3]; [4; 4]; [5; 5]].
Definition demo_mid : array2 Z := Array2 2 [[5; 6]; [7; 8]; [9; 10]].
Definition demo_batch : list (array2 Z) := [demo_short; demo_long; demo_mid].

(** Sequences of another width. *)
Definition demo_narrow : array2 Z := Array2 1 [[7]].
Definition demo_wide : array2 Z := Array2 3 [[7; 8; 9]].

(** An archive; the key of its shortest entry has no speaker segment. *)
Definition demo_npz : gmap string (array2 Z) :=
  <["dog_s2_x" := demo_long]>
    (<["cat_s1" := demo_short]>
       (<["ant_s3" := demo_mid]> (<["bad" := demo_narrow]> ∅))).

(** Six labelled tokens. *)
Definition demo_data : lists5 nat :=
  Lists5 [10; 11; 12; 13; 14; 15]%nat
         ["a"; "b"; "a"; "c"; "b"; "a"]
         [1; 2; 3; 4; 5; 6]
         ["a_s"; "b_s"; "a_t"; "c_s"; "b_t"; "a_u"]
         ["s"; "s"; "t"; "s"; "t"; "u"].

(** A stand-in for the generator: the state counts the calls, a shuffle
    reverses the list. *)
Definition demo_seed (a : Z) : nat := Z.to_nat a.
Definition demo_shuffle (g : nat) (l : list nat) : list nat * nat :=
  (reverse l, S g).

(** Lists that are not parallel: one label for two tokens. *)
Definition demo_ragged : lists5 nat :=
  Lists5 [10; 11]%nat ["a"] [1; 2] ["a_s"; "b_s"] ["s"; "s"].

(** [NP_DTYPE] for the samples: [float32] on a platform with 64-bit
    indices. The entries of the sample arrays are whole numbers, and a
    [float32] is written as the whole number it denotes. *)

(** NumPy's conversion of a whole number (below [2^128] in size) to
    [float32]: the number itself if 24 significant bits hold it, otherwise
    the nearest number of 24 significant bits, the one with an even last bit
    at a midpoint. *)
Definition float32_of_Z (z : Z) : Z :=
  let a := Z.abs z in
  let e := Z.log2 a - 23 in
  if bool_decide (e ≤ 0) then z
  else
    let q := a `div` 2 ^ e in
    let r := a `mod` 2 ^ e in
    let half := 2 ^ (e - 1) in
    let q' := if bool_decide (r < half) then q
              else if bool_decide (half < r) then q + 1
              else if Z.even q then q else q + 1 in
    Z.sgn z * (q' * 2 ^ e).

(** The largest number of 4-byte elements of an array when indices have 63
    bits. *)
Definition demo_max_size : Z := (2 ^ 63 - 1) `div` 4.

(** Sequences with an entry that [float32] does not hold: [2^24 + 1]. *)
Definition demo_precise : array2 Z := Array2 1 [[16777217]].
Definition demo_precise_long : array2 Z := Array2 1 [[1]; [16777217]; [3]].

(** ** Facts about the primitives *)

Lemma bind_ok {T U} (f : T → result U) (v : T) : Ok v ≫= f = f v.
Proof. reflexivity. Qed.

Lemma bind_raise {T U} (f : T → result U) (e : exn) : Raise e ≫= f = Raise e.
Proof. reflexivity. Qed.

Lemma bind_ok_inv {T U} (f : T → result U) (m : result T) (u : U) :
  m ≫= f = Ok u → ∃ v, m = Ok v ∧ f v = Ok u.
Proof. destruct m as [v|e]; [eauto | discriminate]. Qed.

Section getitem_facts.
Context {T : Type}.
Implicit Types l : list T.

Lemma getitem_nat l (i : nat) :
  getitem l (Z.of_nat i)
  = match l !! i with Some v => Ok v | None => Raise IndexError end.
Proof.
  unfold getitem. rewrite (bool_decide_eq_false_2 (Z.of_nat i < 0)) by lia.
  rewrite Nat2Z.id. case_bool_decide as H.
  - reflexivity.
  - rewrite lookup_ge_None_2; [reflexivity | lia].
Qed.

Lemma getitem_lookup l (i : nat) v :
  l !! i = Some v → getitem l (Z.of_nat i) = Ok v.
Proof. intros H. by rewrite getitem_nat, H. Qed.

Lemma getitem_short l (i : nat) :
  (length l ≤ i)%nat → getitem l (Z.of_nat i) = Raise IndexError.
Proof. intros H. by rewrite getitem_nat, lookup_ge_None_2. Qed.

(** The literal positions of the source. *)
Lemma getitem_first l v : l !! 0%nat = Some v → getitem l 0 = Ok v.
Proof. apply (getitem_lookup l 0). Qed.

Lemma getitem_second l v : l !! 1%nat = Some v → getitem l 1 = Ok v.
Proof. apply (getitem_lookup l 1). Qed.

Lemma getitem_second_short l :
  (length l ≤ 1)%nat → getitem l 1 = Raise IndexError.
Proof. apply (getitem_short l 1). Qed.

End getitem_facts.

Lemma split_nonempty sep s : split sep s ≠ [].
Proof.
  destruct s as [|c s]; simpl; [done |].
  destruct (Ascii.eqb c sep); [done |]. by destruct (split sep s).
Qed.

Lemma split_head sep s : is_Some (split sep s !! 0%nat).
Proof.
  pose proof (split_nonempty sep s). destruct (split sep s); [done | eauto].
Qed.

(** *** The order of [sorted] *)

Lemma string_compare_refl s : String.compare s s = Eq.
Proof.
  induction s as [|c s IH]; simpl; [done |].
  unfold Ascii.compare. by rewrite N.compare_refl.
Qed.

Lemma string_compare_lt_trans a b c :
  String.compare a b = Lt → String.compare b c = Lt → String.compare a c = Lt.
Proof.
  revert b c. induction a as [|x a IH]; intros [|y b] [|z c]; simpl; try done.
  unfold Ascii.compare.
  destruct (N.compare_spec (N_of_ascii x) (N_of_ascii y)) as [E1|L1|G1];
    destruct (N.compare_spec (N_of_ascii y) (N_of_ascii z)) as [E2|L2|G2];
    try done; intros H1 H2.
  - rewrite E1, E2, N.compare_refl. eauto.
  - rewrite E1. by apply N.compare_lt_iff in L2 as ->.
  - rewrite <- E2. by apply N.compare_lt_iff in L1 as ->.
  - assert (N_of_ascii x < N_of_ascii z)%N as L by lia.
    by apply N.compare_lt_iff in L as ->.
Qed.

Lemma string_le_lt_eq a b : string_le a b ↔ string_lt a b ∨ a = b.
Proof.
  unfold string_le, string_lt, String.leb, String.ltb. split.
  - destruct (String.compare a b) eqn:E; try done; [|by left].
    right. by apply String.compare_eq_iff.
  - intros [H | ->]; [by destruct (String.compare a b) |].
    by rewrite string_compare_refl.
Qed.

Global Instance string_lt_trans : Transitive string_lt.
Proof.
  intros a b c. unfold string_lt, String.ltb.
  destruct (String.compare a b) eqn:E1; try done.
  destruct (String.compare b c) eqn:E2; try done.
  by rewrite (string_compare_lt_trans a b c).
Qed.

Global Instance string_le_trans : Transitive string_le.
Proof.
  intros a b c. rewrite !string_le_lt_eq.
  intros [H1 | ->] [H2 | ->]; auto. left. by trans b.
Qed.

Global Instance string_le_total : Total string_le.
Proof. intros a b. apply String.leb_total. Qed.

Global Instance string_le_antisym : AntiSymm (=) string_le.
Proof. intros a b. apply String.leb_antisym. Qed.

Lemma strictly_sorted_of_NoDup (l : list string) :
  NoDup l → StronglySorted string_le l → StronglySorted string_lt l.
Proof.
  induction 2 as [|x l Hs IH Hx]; [constructor |].
  inversion_clear H as [|? ? Hnin Hnd]. constructor; [by apply IH |].
  rewrite Forall_forall in Hx |- *. intros y Hy.
  destruct (proj1 (string_le_lt_eq x y) (Hx y Hy)) as [? | ->]; [done |].
  by destruct Hnin.
Qed.

Lemma StronglySorted_filter {T} (R : relation T) (P : T → Prop)
    `{!∀ x, Decision (P x)} (l : list T) :
  StronglySorted R l → StronglySorted R (filter P l).
Proof.
  induction 1 as [|x l Hs IH Hx]; [constructor |].
  rewrite filter_cons. case_decide; [|done].
  constructor; [done |]. rewrite Forall_forall in Hx |- *.
  intros y Hy. apply list_elem_of_filter in Hy as [_ Hy]. auto.
Qed.

(** [sorted(npz)] lists every key of the archive once, in strictly
    increasing order. *)
Lemma sorted_keys_spec {V} (npz : gmap string V) :
  let ks := sorted (map_to_list npz).*1 in
  StronglySorted string_lt ks ∧ ∀ k, k ∈ ks ↔ is_Some (npz !! k).
Proof.
  simpl. unfold sorted. split.
  - apply strictly_sorted_of_NoDup.
    + rewrite merge_sort_Permutation. apply NoDup_fst_map_to_list.
    + apply StronglySorted_merge_sort; apply _.
  - intros k. rewrite merge_sort_Permutation, list_elem_of_fmap. split.
    + intros ([k' a] & -> & H). apply elem_of_map_to_list in H. eauto.
    + intros [a H]. exists (k, a). split; [done |].
      by apply elem_of_map_to_list.
Qed.

(** ** [load_data_from_npz]: the loop *)

Section load_loop_facts.
Context {A : Type} (npz : gmap string (array2 A)) (min_length : option Z).

Lemma retained_lookup k a :
  npz !! k = Some a →
  retained npz min_length k ↔ too_short min_length a = false.
Proof.
  intros H. unfold retained. split.
  - intros (b & Hb & Hs). congruence.
  - eauto.
Qed.

Lemma describes_snoc ks acc k a w s :
  describes npz ks acc →
  npz !! k = Some a →
  split underscore k !! 0%nat = Some w →
  split underscore k !! 1%nat = Some s →
  describes npz (ks ++ [k])
    {| acc_x := acc_x acc ++ [a];
       acc_labels := acc_labels acc ++ [w];
       acc_speakers := acc_speakers acc ++ [s];
       acc_lengths := acc_lengths acc ++ [len a];
       acc_keys := acc_keys acc ++ [k] |}.
Proof.
  intros (Hk & Hx & Hl & Hs & Hn) Ha Hw Hsp. unfold describes; simpl.
  split_and!.
  - by rewrite Hk.
  - apply Forall2_app; [done | by repeat constructor].
  - apply Forall2_app; [done | by repeat constructor].
  - apply Forall2_app; [done | by repeat constructor].
  - apply Forall2_app; [done |]. repeat constructor. eauto.
Qed.

(** When every retained key is well formed the loop runs to its end and
    has appended the retained keys, in the order visited. *)
Lemma load_loop_ok todo : ∀ acc ks,
  (∀ k, k ∈ todo → is_Some (npz !! k)) →
  Forall well_keyed (filter (retained npz min_length) todo) →
  describes npz ks acc →
  ∃ acc', load_loop npz min_length todo acc = Ok acc'
          ∧ describes npz (ks ++ filter (retained npz min_length) todo) acc'.
Proof.
  induction todo as [|k todo IH]; intros acc ks Hin Hwk Hd; simpl.
  - exists acc. by rewrite app_nil_r.
  - destruct (Hin k) as [a Ha]; [by left |].
    unfold npz_getitem. rewrite Ha, bind_ok.
    assert (∀ k', k' ∈ todo → is_Some (npz !! k')) as Hin'
      by (intros; apply Hin; by right).
    rewrite filter_cons in Hwk |- *.
    destruct (too_short min_length a) eqn:Hs.
    + rewrite decide_False in Hwk |- *
        by (rewrite (retained_lookup k a Ha); congruence).
      by apply IH.
    + rewrite decide_True in Hwk |- * by by apply (retained_lookup k a Ha).
      apply Forall_cons in Hwk as [Hk Hwk].
      destruct (lookup_lt_is_Some_2 (split underscore k) 0) as [w Hw];
        [unfold well_keyed in Hk; lia |].
      destruct (lookup_lt_is_Some_2 (split underscore k) 1) as [s Hsp];
        [unfold well_keyed in Hk; lia |].
      rewrite (getitem_first _ w Hw), bind_ok.
      rewrite (getitem_second _ s Hsp), bind_ok.
      replace (ks ++ k :: filter (retained npz min_length) todo)
        with ((ks ++ [k]) ++ filter (retained npz min_length) todo)
        by (by rewrite <- app_assoc).
      apply IH; [done | done |].
      by apply describes_snoc.
Qed.

(** A retained key with fewer than two segments stops the loop with the
    [IndexError] of [utt_key_split[1]]. *)
Lemma load_loop_malformed todo : ∀ acc k,
  (∀ k', k' ∈ todo → is_Some (npz !! k')) →
  k ∈ todo → retained npz min_length k → ¬ well_keyed k →
  load_loop npz min_length todo acc = Raise IndexError.
Proof.
  induction todo as [|k0 todo IH]; intros acc k Hin Hk Hr Hbad; simpl.
  - by apply elem_of_nil in Hk.
  - destruct (Hin k0) as [a Ha]; [by left |].
    unfold npz_getitem. rewrite Ha, bind_ok.
    assert (∀ k', k' ∈ todo → is_Some (npz !! k')) as Hin'
      by (intros; apply Hin; by right).
    destruct (too_short min_length a) eqn:Hs.
    + apply elem_of_cons in Hk as [-> | Hk]; [|by eapply IH].
      apply (retained_lookup k0 a Ha) in Hr. congruence.
    + destruct (split_head underscore k0) as [w Hw].
      rewrite (getitem_first _ w Hw), bind_ok.
      destruct (decide (well_keyed k0)) as [Hwk | Hwk].
      * destruct (lookup_lt_is_Some_2 (split underscore k0) 1) as [s Hsp];
          [unfold well_keyed in Hwk; lia |].
        rewrite (getitem_second _ s Hsp), bind_ok.
        apply elem_of_cons in Hk as [-> | Hk]; [done | by eapply IH].
      * rewrite getitem_second_short; [done |].
        unfold well_keyed in Hwk. lia.
Qed.

Lemma describes_lengths ks acc :
  describes npz ks acc →
  length (acc_x acc) = length ks ∧ length (acc_labels acc) = length ks
  ∧ length (acc_speakers acc) = length ks
  ∧ length (acc_lengths acc) = length ks
  ∧ length (acc_keys acc) = length ks.
Proof.
  intros (Hk & Hx & Hl & Hs & Hn).
  apply Forall2_length in Hx, Hl, Hs, Hn. rewrite Hk. by split_and!.
Qed.

(** The keys the whole call retains: the retained keys of the archive in
    increasing order. *)
Lemma retained_keys_spec :
  let ks := filter (retained npz min_length) (sorted (map_to_list npz).*1) in
  StronglySorted string_lt ks ∧ ∀ k, k ∈ ks ↔ retained npz min_length k.
Proof.
  destruct (sorted_keys_spec npz) as [Hs Hin]. simpl. split.
  - by apply StronglySorted_filter.
  - intros k. rewrite list_elem_of_filter, Hin. split; [tauto |].
    intros Hr. split; [done |]. destruct Hr as (a & -> & _). eauto.
Qed.

(** Whatever the keys, a loop that ends has appended the retained keys,
    and a loop that stops does so with an [IndexError]. *)
Lemma load_loop_cases :
  let ks := filter (retained npz min_length) (sorted (map_to_list npz).*1) in
  (∃ acc, load_loop npz min_length (sorted (map_to_list npz).*1)
            (LoadAcc [] [] [] [] []) = Ok acc
          ∧ describes npz ks acc)
  ∨ load_loop npz min_length (sorted (map_to_list npz).*1)
      (LoadAcc [] [] [] [] []) = Raise IndexError.
Proof.
  simpl. destruct (sorted_keys_spec npz) as [_ Hall].
  destruct (decide (Forall well_keyed
    (filter (retained npz min_length) (sorted (map_to_list npz).*1))))
    as [Hwk | Hwk].
  - left.
    destruct (load_loop_ok (sorted (map_to_list npz).*1)
                (LoadAcc [] [] [] [] []) []) as (acc & Hrun & Hd);
      [intros k; apply Hall | done
      | unfold describes; simpl; split_and!; [done | constructor ..] |].
    eauto.
  - right. apply not_Forall_Exists in Hwk; [|apply _].
    apply Exists_exists in Hwk as (k & Hk & Hbad).
    apply list_elem_of_filter in Hk as [Hr Hk].
    apply (load_loop_malformed _ _ k); [intros k'; apply Hall | done ..].
Qed.

Lemma load_loop_Ok_describes acc :
  load_loop npz min_length (sorted (map_to_list npz).*1)
    (LoadAcc [] [] [] [] []) = Ok acc →
  describes npz
    (filter (retained npz min_length) (sorted (map_to_list npz).*1)) acc.
Proof.
  intros Hrun. destruct load_loop_cases as [(acc' & Hrun' & Hd) | Hrun'].
  - by replace acc with acc' by congruence.
  - congruence.
Qed.

Lemma load_loop_raises_IndexError e :
  load_loop npz min_length (sorted (map_to_list npz).*1)
    (LoadAcc [] [] [] [] []) = Raise e →
  e = IndexError.
Proof.
  intros Hrun. destruct load_loop_cases as [(acc' & Hrun' & Hd) | Hrun'];
    congruence.
Qed.

(** The whole call: it returns exactly when every retained key is well
    formed and some key is retained, and then the loop's lists. *)
Lemma load_data_from_npz_ok :
  (∀ k, retained npz min_length k → well_keyed k) →
  (∃ k, retained npz min_length k) →
  ∃ acc,
    load_data_from_npz npz min_length
    = Ok (Lists5 (acc_x acc) (acc_labels acc) (acc_lengths acc)
                 (acc_keys acc) (acc_speakers acc))
    ∧ describes npz
        (filter (retained npz min_length) (sorted (map_to_list npz).*1)) acc.
Proof.
  intros Hwk [k0 Hk0].
  destruct retained_keys_spec as [_ Hin].
  destruct (sorted_keys_spec npz) as [_ Hall].
  destruct (load_loop_ok (sorted (map_to_list npz).*1)
              (LoadAcc [] [] [] [] []) []) as (acc & Hrun & Hd).
  - intros k. apply Hall.
  - apply Forall_forall. intros k Hk. apply Hwk. by apply Hin.
  - unfold describes; simpl. split_and!; [done | constructor ..].
  - exists acc. split; [|done].
    unfold load_data_from_npz. rewrite Hrun, bind_ok.
    apply describes_lengths in Hd as Hlen. destruct Hlen as (Hx & _).
    apply Hin in Hk0. simpl in Hx.
    destruct (acc_x acc) as [|a0 x'] eqn:Ex.
    + apply list_elem_of_In in Hk0.
      destruct (filter _ _); [done | discriminate].
    + by rewrite (getitem_first _ a0).
Qed.

Lemma load_data_from_npz_Ok_inv out :
  load_data_from_npz npz min_length = Ok out →
  ∃ acc,
    load_loop npz min_length (sorted (map_to_list npz).*1)
      (LoadAcc [] [] [] [] []) = Ok acc
    ∧ acc_x acc ≠ []
    ∧ out = Lists5 (acc_x acc) (acc_labels acc) (acc_lengths acc)
                   (acc_keys acc) (acc_speakers acc).
Proof.
  unfold load_data_from_npz. intros H.
  apply bind_ok_inv in H as (acc & Hrun & H).
  apply bind_ok_inv in H as (a0 & Ha0 & H).
  exists acc. split_and!; [done | | congruence].
  intros E. rewrite E in Ha0. discriminate.
Qed.
End load_loop_facts.

(** *** Keys and their segments *)

Lemma split_length sep s :
  length (split sep s)
  = S (length (filter (λ c, c = sep) (list_ascii_of_string s))).
Proof.
  induction s as [|c s IH]; simpl; [done |].
  rewrite filter_cons. destruct (Ascii.eqb_spec c sep) as [-> | Hne].
  - rewrite decide_True by done. simpl. by rewrite IH.
  - rewrite decide_False by done. rewrite <- IH.
    pose proof (split_nonempty sep s). by destruct (split sep s).
Qed.

(** A key has a speaker segment exactly when it contains an underscore. *)
Lemma well_keyed_underscore k :
  well_keyed k ↔ underscore ∈ list_ascii_of_string k.
Proof.
  unfold well_keyed. rewrite split_length. split.
  - intros H.
    destruct (filter (λ c, c = underscore) (list_ascii_of_string k))
      as [|c l] eqn:E; [simpl in H; lia |].
    assert (c ∈ filter (λ c, c = underscore) (list_ascii_of_string k)) as Hc
      by (rewrite E; by left).
    apply list_elem_of_filter in Hc as [-> Hc]. done.
  - intros H.
    assert (underscore
              ∈ filter (λ c, c = underscore) (list_ascii_of_string k)) as Hc
      by by apply list_elem_of_filter.
    destruct (filter _ _); [by apply elem_of_nil in Hc | simpl; lia].
Qed.

Lemma retained_Some {A} (npz : gmap string (array2 A)) (m : Z) k :
  retained npz (Some m) k ↔ ∃ a, npz !! k = Some a ∧ m < len a.
Proof.
  unfold retained, too_short. split; intros (a & Ha & H); exists a;
    (split; [done |]).
  - apply bool_decide_eq_false in H. lia.
  - apply bool_decide_eq_false. lia.
Qed.


(** ** [filter_data]: rows move together *)

Section taken_at_facts.
Context {T : Type}.
Implicit Types src out : list T.

Lemma taken_at_snoc src idx out i v :
  taken_at src idx out → src !! i = Some v →
  taken_at src (idx ++ [i]) (out ++ [v]).
Proof. intros H Hi. apply Forall2_app; [done | by repeat constructor]. Qed.

Lemma taken_at_length src idx out :
  taken_at src idx out → length out = length idx.
Proof. intros H. symmetry. by eapply Forall2_length. Qed.

Lemma taken_at_all src : taken_at src (seq 0 (length src)) src.
Proof.
  apply Forall2_same_length_lookup_2.
  - by rewrite length_seq.
  - intros j i v Hi Hv. apply lookup_seq in Hi as [-> _]. done.
Qed.

Lemma taken_at_elem_of src idx out v :
  taken_at src idx out → v ∈ out → ∃ i, i ∈ idx ∧ src !! i = Some v.
Proof.
  intros H Hv. apply list_elem_of_lookup in Hv as [j Hj].
  destruct (Forall2_lookup_r _ _ _ _ _ H Hj) as (i & Hi & Hsrc).
  exists i. split; [|done]. apply list_elem_of_lookup. eauto.
Qed.

(** Taking from a list that was itself taken is taking from the
    original. *)
Lemma taken_at_compose src mid out idx idx' :
  taken_at src idx mid → taken_at mid idx' out →
  taken_at src (omap (λ j, idx !! j) idx') out.
Proof.
  intros Hmid. induction 1 as [|j v idx' out Hj Hrest IH]; [constructor |].
  destruct (Forall2_lookup_r _ _ _ _ _ Hmid Hj) as (i & Hi & Hsrc).
  simpl. rewrite Hi. by constructor.
Qed.
End taken_at_facts.

Section rows_at_facts.
Context {X : Type}.
Implicit Types src out d : lists5 X.

Lemma rows_at_empty src : rows_at src [] empty5.
Proof. unfold rows_at; simpl. split_and!; constructor. Qed.

Lemma rows_at_aligned src idx out :
  rows_at src idx out → aligned out ∧ length (data out) = length idx.
Proof.
  intros (Hd & Hl & Hn & Hk & Hs).
  apply taken_at_length in Hd, Hl, Hn, Hk, Hs.
  unfold aligned. split_and!; congruence.
Qed.

Lemma rows_at_self d : aligned d → rows_at d (positions d) d.
Proof.
  intros (Hl & Hn & Hk & Hs). unfold rows_at, positions.
  split_and!; [| rewrite <- Hl | rewrite <- Hn | rewrite <- Hk
               | rewrite <- Hs]; apply taken_at_all.
Qed.

Lemma rows_at_compose src mid out idx idx' :
  rows_at src idx mid → rows_at mid idx' out →
  rows_at src (omap (λ j, idx !! j) idx') out.
Proof.
  intros (Hd & Hl & Hn & Hk & Hs) (Hd' & Hl' & Hn' & Hk' & Hs').
  unfold rows_at. split_and!; by eapply taken_at_compose.
Qed.

Lemma rows_at_labels src idx out l :
  rows_at src idx out → l ∈ labels out → l ∈ labels src.
Proof.
  intros (_ & Hl & _) Hin.
  destruct (taken_at_elem_of _ _ _ _ Hl Hin) as (i & _ & Hi).
  apply list_elem_of_lookup. eauto.
Qed.

(** One row appended: all five lists grow by the elements at position
    [i]. *)
Lemma append_row_ok src i idx out :
  aligned src → (i < length (data src))%nat → rows_at src idx out →
  ∃ out' l,
    append_row src i out = Ok out'
    ∧ labels src !! i = Some l
    ∧ labels out' = labels out ++ [l]
    ∧ rows_at src (idx ++ [i]) out'.
Proof.
  intros (Hl & Hn & Hk & Hs) Hi (Rd & Rl & Rn & Rk & Rs).
  destruct (lookup_lt_is_Some_2 (data src) i) as [d Ed]; [done |].
  destruct (lookup_lt_is_Some_2 (labels src) i) as [l El]; [lia |].
  destruct (lookup_lt_is_Some_2 (lengths src) i) as [n En]; [lia |].
  destruct (lookup_lt_is_Some_2 (keys src) i) as [k Ek]; [lia |].
  destruct (lookup_lt_is_Some_2 (speakers src) i) as [s Es]; [lia |].
  unfold append_row.
  rewrite (getitem_lookup _ _ _ Ed), bind_ok, (getitem_lookup _ _ _ El),
    bind_ok, (getitem_lookup _ _ _ En), bind_ok, (getitem_lookup _ _ _ Ek),
    bind_ok, (getitem_lookup _ _ _ Es), bind_ok.
  eexists _, l. split_and!; [done | done | done |].
  unfold rows_at; simpl. split_and!; by apply taken_at_snoc.
Qed.

Lemma keep_rows_ok src idx : ∀ pre out,
  aligned src → Forall (λ i, (i < length (data src))%nat) idx →
  rows_at src pre out →
  ∃ out', keep_rows src idx out = Ok out' ∧ rows_at src (pre ++ idx) out'.
Proof.
  induction idx as [|i idx IH]; intros pre out Ha Hidx Hr; simpl.
  - exists out. by rewrite app_nil_r.
  - apply Forall_cons in Hidx as [Hi Hidx].
    destruct (append_row_ok src i pre out) as (out1 & l & -> & _ & _ & Hr1);
      [done ..|].
    rewrite bind_ok.
    replace (pre ++ i :: idx) with ((pre ++ [i]) ++ idx)
      by (by rewrite <- app_assoc).
    by apply IH.
Qed.

Lemma keep_types_ok types src idx : ∀ pre out,
  aligned src → Forall (λ i, (i < length (data src))%nat) idx →
  rows_at src pre out →
  ∃ out', keep_types types src idx out = Ok out'
          ∧ rows_at src (pre ++ filter (label_in src types) idx) out'.
Proof.
  induction idx as [|i idx IH]; intros pre out Ha Hidx Hr; simpl.
  - exists out. by rewrite app_nil_r.
  - apply Forall_cons in Hidx as [Hi Hidx].
    destruct (append_row_ok src i pre out) as (out1 & l & Hrun & El & _ & Hr1);
      [done ..|].
    rewrite (getitem_lookup _ _ _ El), bind_ok, filter_cons.
    case_bool_decide as Hin.
    + rewrite decide_True by (exists l; done).
      rewrite Hrun, bind_ok.
      replace (pre ++ i :: filter (label_in src types) idx)
        with ((pre ++ [i]) ++ filter (label_in src types) idx)
        by (by rewrite <- app_assoc).
      by apply IH.
    + rewrite decide_False; [by apply IH |].
      intros (l' & El' & Hin'). congruence.
Qed.
End rows_at_facts.

(** ** Counting labels *)

Lemma occurrences_snoc l l' ls :
  occurrences l (ls ++ [l'])
  = (occurrences l ls + if decide (l' = l) then 1 else 0)%nat.
Proof.
  unfold occurrences. rewrite filter_app, length_app. f_equal.
  rewrite filter_cons, filter_nil. by case_decide.
Qed.

Lemma occurrences_pos l ls : l ∈ ls ↔ (0 < occurrences l ls)%nat.
Proof.
  unfold occurrences. split.
  - intros H.
    assert (l ∈ filter (λ l', l' = l) ls) as Hin
      by by apply list_elem_of_filter.
    destruct (filter _ ls); [by apply elem_of_nil in Hin | simpl; lia].
  - intros H. destruct (filter (λ l', l' = l) ls) as [|x xs] eqn:E;
      [simpl in H; lia |].
    assert (x ∈ filter (λ l', l' = l) ls) as Hin by (rewrite E; by left).
    by apply list_elem_of_filter in Hin as [-> ?].
Qed.

Lemma counter_incr_fresh l c :
  l ∉ c.*1 → counter_incr l c = c ++ [(l, 1)].
Proof.
  induction c as [|[k n] c IH]; simpl; [done |].
  intros H. apply not_elem_of_cons in H as [Hne Hnin].
  rewrite decide_False by done. by rewrite IH.
Qed.

Lemma counter_incr_present l c :
  l ∈ c.*1 → NoDup c.*1 →
  ∃ c1 n c2, c = c1 ++ (l, n) :: c2
             ∧ counter_incr l c = c1 ++ (l, n + 1) :: c2.
Proof.
  induction c as [|[k n] c IH]; simpl; [by intros ?%elem_of_nil |].
  intros Hin Hnd. apply NoDup_cons in Hnd as [Hk Hnd].
  destruct (decide (k = l)) as [-> | Hne].
  - by exists [], n, c.
  - apply elem_of_cons in Hin as [-> | Hin]; [done |].
    destruct (IH Hin Hnd) as (c1 & m & c2 & -> & ->).
    by exists ((k, n) :: c1), m, c2.
Qed.

Lemma counts_nil : counts [] [].
Proof.
  split; [constructor |]. intros l n. split.
  - by intros ?%elem_of_nil.
  - by intros [?%elem_of_nil _].
Qed.

Lemma counts_snoc c ls l :
  counts c ls → counts (counter_incr l c) (ls ++ [l]).
Proof.
  intros [Hnd Hc]. destruct (decide (l ∈ c.*1)) as [Hin | Hnin].
  - destruct (counter_incr_present l c Hin Hnd) as (c1 & n & c2 & E & ->).
    assert ((l, n) ∈ c) as Hln by (rewrite E, elem_of_app; right; by left).
    apply Hc in Hln as [Hl ->].
    split.
    + rewrite E in Hnd. by rewrite fmap_app, fmap_cons in Hnd |- *.
    + intros l' n'. rewrite occurrences_snoc, elem_of_app, elem_of_cons.
      rewrite elem_of_app, list_elem_of_singleton.
      case_decide as Hd.
      * subst l'. split.
        -- intros [H | [H | H]].
           ++ exfalso. rewrite E, fmap_app, fmap_cons in Hnd.
              apply NoDup_app in Hnd as (_ & Hdisj & _).
              apply (Hdisj l); [|by left].
              apply list_elem_of_fmap. by exists (l, n').
           ++ injection H as ->. split; [by left |]. lia.
           ++ exfalso. rewrite E, fmap_app, fmap_cons in Hnd.
              apply NoDup_app in Hnd as (_ & _ & Hnd).
              apply NoDup_cons in Hnd as [Hnd _]. apply Hnd.
              apply list_elem_of_fmap. by exists (l, n').
        -- intros [_ ->]. right. left. f_equal. lia.
      * rewrite Nat.add_0_r. split.
        -- intros H.
           assert ((l', n') ∈ c) as Hc'.
           { rewrite E, elem_of_app, elem_of_cons.
             destruct H as [H | [H | H]]; [by left | | by right; right].
             injection H as -> _. done. }
           apply Hc in Hc' as [? ->]. split; [by left | done].
        -- intros [[Hl' | Hl'] ->]; [|done].
           assert ((l', Z.of_nat (occurrences l' ls)) ∈ c) as Hc'
             by by apply Hc.
           rewrite E, elem_of_app, elem_of_cons in Hc'.
           destruct Hc' as [H | [H | H]]; [by left | | by right; right].
           injection H as -> _. done.
  - rewrite counter_incr_fresh by done.
    assert (l ∉ ls) as Hl.
    { intros Hl. apply Hnin, list_elem_of_fmap.
      exists (l, Z.of_nat (occurrences l ls)). split; [done |]. by apply Hc. }
    split.
    + rewrite fmap_app. apply NoDup_app. split_and!; [done | | ].
      * intros x Hx Hx'. apply list_elem_of_singleton in Hx' as ->. done.
      * apply NoDup_singleton.
    + intros l' n'. rewrite occurrences_snoc, !elem_of_app,
        !list_elem_of_singleton. case_decide as Hd.
      * subst l'. split.
        -- intros [H | H].
           ++ apply Hc in H as [? _]. done.
           ++ injection H as ->. split; [by right |].
              apply (not_iff_compat (occurrences_pos l ls)) in Hl. lia.
        -- intros [_ ->]. right. f_equal.
           apply (not_iff_compat (occurrences_pos l ls)) in Hl. lia.
      * rewrite Nat.add_0_r. split.
        -- intros [H | H]; [|by injection H as -> _].
           apply Hc in H as [? ->]. split; [by left | done].
        -- intros [[Hl' | Hl'] ->]; [|done]. left. by apply Hc.
Qed.

Lemma Counter_counts ls : counts (Counter ls) ls.
Proof.
  unfold Counter. induction ls as [|l ls IH] using rev_ind.
  - apply counts_nil.
  - rewrite foldl_app. simpl. by apply counts_snoc.
Qed.

(** *** The decreasing sort *)

Lemma insert_by_count_Permutation x l : insert_by_count x l ≡ₚ x :: l.
Proof.
  induction l as [|y l IH]; simpl; [done |].
  case_bool_decide; [|done]. rewrite IH. apply Permutation_swap.
Qed.

Lemma sort_by_count_Permutation l : sort_by_count l ≡ₚ l.
Proof.
  induction l as [|x l IH]; simpl; [done |].
  unfold sort_by_count in IH |- *. simpl.
  by rewrite insert_by_count_Permutation, IH.
Qed.

Lemma insert_by_count_sorted x l :
  StronglySorted by_count_desc l →
  StronglySorted by_count_desc (insert_by_count x l).
Proof.
  induction 1 as [|y l Hs IH Hy]; simpl.
  - repeat constructor.
  - case_bool_decide as Hlt.
    + constructor; [done |].
      rewrite insert_by_count_Permutation. constructor; [|done].
      unfold by_count_desc. lia.
    + constructor; [by constructor |]. constructor.
      * unfold by_count_desc. lia.
      * eapply Forall_impl; [exact Hy |]. unfold by_count_desc.
        intros z Hz. lia.
Qed.

Lemma sort_by_count_sorted l : StronglySorted by_count_desc (sort_by_count l).
Proof.
  induction l as [|x l IH]; [constructor |].
  by apply insert_by_count_sorted.
Qed.

(** The labels chosen by [most_common]: at most [k] of them, labels of the
    input, and none of the labels left out occurs more often than a chosen
    one. *)
Lemma top_labels_spec ls k :
  0 ≤ k →
  Z.of_nat (length (top_labels ls k)) ≤ k
  ∧ (∀ l, l ∈ top_labels ls k → l ∈ ls)
  ∧ (∀ l l', l ∈ top_labels ls k → l' ∈ ls → l' ∉ top_labels ls k →
       (occurrences l' ls ≤ occurrences l ls)%nat).
Proof.
  intros Hk. unfold top_labels, most_common.
  destruct (Counter_counts ls) as [Hnd Hc].
  pose proof (sort_by_count_Permutation (Counter ls)) as Hperm.
  pose proof (sort_by_count_sorted (Counter ls)) as Hsorted.
  set (S := sort_by_count (Counter ls)) in *.
  assert (∀ l n, (l, n) ∈ S ↔ l ∈ ls ∧ n = Z.of_nat (occurrences l ls))
    as HS by (intros l n; by rewrite Hperm).
  split_and!.
  - rewrite length_fmap, length_take. lia.
  - intros l Hl. apply list_elem_of_fmap in Hl as ([l0 n] & -> & Hl).
    apply subseteq_take in Hl. by apply HS in Hl as [? _].
  - intros l l' Hl Hl' Hout.
    apply list_elem_of_fmap in Hl as ([l0 n] & -> & Hl). simpl.
    assert ((l0, n) ∈ S) as Hn by by apply (subseteq_take (Z.to_nat k)).
    apply HS in Hn as [_ ->].
    assert ((l', Z.of_nat (occurrences l' ls)) ∈ S) as Hl'S by by apply HS.
    rewrite <- (take_drop (Z.to_nat k) S) in Hl'S, Hsorted.
    apply elem_of_app in Hl'S as [Hin | Hin].
    + destruct Hout. apply list_elem_of_fmap. by eexists (_, _).
    + pose proof (StronglySorted_app_1_elem_of _ _ _ _ _ Hsorted Hl Hin) as H.
      unfold by_count_desc in H. simpl in H. lia.
Qed.

(** ** [filter_data]: the stages *)

Section stage_facts.
Context {X : Type}.
Implicit Types src out d : lists5 X.

(** The capped loop: the counter tracks the labels admitted so far, and no
    label is admitted more than [n] times. *)
Lemma keep_capped_ok n src idx : ∀ pre tokens_per_type out,
  aligned src → Forall (λ i, (i < length (data src))%nat) idx →
  rows_at src pre out →
  (∀ l, count_of tokens_per_type l
        = Z.of_nat (occurrences l (labels out))) →
  (∀ l, l ∈ labels out → Z.of_nat (occurrences l (labels out)) ≤ n) →
  ∃ out' sel,
    keep_capped n src idx tokens_per_type out = Ok out'
    ∧ rows_at src (pre ++ sel) out'
    ∧ ∀ l, l ∈ labels out' → Z.of_nat (occurrences l (labels out')) ≤ n.
Proof.
  induction idx as [|i idx IH]; intros pre tpt out Ha Hidx Hr Hcnt Hcap;
    simpl.
  - exists out, []. by rewrite app_nil_r.
  - apply Forall_cons in Hidx as [Hi Hidx].
    destruct (append_row_ok src i pre out)
      as (out1 & l & Hrun & El & Hl1 & Hr1); [done ..|].
    destruct (decide (count_of tpt l < n)) as [Hlt | Hge].
    + destruct (IH (pre ++ [i]) (<[l := count_of tpt l + 1]> tpt) out1)
        as (out' & sel & Hrun' & Hr' & Hcap'); [done | done | done | | |].
      * intros l'. rewrite Hl1, occurrences_snoc. unfold count_of.
        case_decide as Hd.
        -- subst l'. rewrite lookup_insert_eq. simpl.
           fold (count_of tpt l). rewrite Hcnt. lia.
        -- rewrite lookup_insert_ne by done. fold (count_of tpt l').
           rewrite Hcnt. lia.
      * intros l'. rewrite Hl1, occurrences_snoc, elem_of_app,
          list_elem_of_singleton.
        case_decide as Hd.
        -- subst l'. intros _. rewrite Hcnt in Hlt. lia.
        -- intros [Hin | ->]; [|done]. specialize (Hcap l' Hin). lia.
      * exists out', (i :: sel). split_and!; [| | done].
        -- rewrite (getitem_lookup _ _ _ El), bind_ok.
           rewrite bool_decide_eq_true_2 by done.
           by rewrite Hrun, !bind_ok.
        -- by rewrite cons_middle, app_assoc.
    + destruct (IH pre tpt out) as (out' & sel & Hrun' & Hr' & Hcap');
        [done ..|].
      exists out', sel. split_and!; [| done | done].
      rewrite (getitem_lookup _ _ _ El), bind_ok.
      by rewrite bool_decide_eq_false_2 by done.
Qed.

Lemma positions_in_range d :
  Forall (λ i, (i < length (data d))%nat) (positions d).
Proof. unfold positions. apply Forall_seq. intros j Hj. lia. Qed.

Lemma slice_subseteq {T} (l : list T) a b : slice l a b ⊆ l.
Proof.
  unfold slice. intros x Hx. apply subseteq_take in Hx.
  by apply subseteq_drop in Hx.
Qed.

Lemma keep_types_stage_ok types d :
  aligned d →
  ∃ out idx,
    keep_types types d (positions d) empty5 = Ok out
    ∧ rows_at d idx out
    ∧ ∀ l, l ∈ labels out → l ∈ types.
Proof.
  intros Ha.
  destruct (keep_types_ok types d (positions d) [] empty5)
    as (out & Hrun & Hr);
    [done | apply positions_in_range | apply rows_at_empty |].
  simpl in Hr. eexists out, _. split_and!; [done | done |].
  intros l Hl. destruct Hr as (_ & Hlab & _).
  destruct (taken_at_elem_of _ _ _ _ Hlab Hl) as (i & Hi & Hsrc).
  apply list_elem_of_filter in Hi as [(l' & Hl' & Hin) _]. congruence.
Qed.

Lemma max_types_stage_ok k d :
  aligned d →
  ∃ out idx,
    max_types_stage k d = Ok out
    ∧ rows_at d idx out
    ∧ ∀ l, l ∈ labels out → l ∈ top_labels (labels d) k.
Proof. apply keep_types_stage_ok. Qed.

Lemma min_tokens_per_type_stage_ok n d :
  aligned d →
  ∃ out idx, min_tokens_per_type_stage n d = Ok out ∧ rows_at d idx out.
Proof.
  intros Ha. unfold min_tokens_per_type_stage.
  destruct (keep_types_stage_ok
              (filter (λ kv, n ≤ kv.2) (Counter (labels d))).*1 d Ha)
    as (out & idx & Hrun & Hr & _).
  eauto.
Qed.

Context {rng : Type} (shuffle : rng → list nat → list nat * rng).

(** [random.shuffle] reorders the list it is given. *)
Hypothesis shuffle_perm : ∀ g l, (shuffle g l).1 ≡ₚ l.

Lemma shuffled_in_range g d :
  Forall (λ i, (i < length (data d))%nat) (shuffle g (positions d)).1.
Proof. rewrite shuffle_perm. apply positions_in_range. Qed.

Lemma max_tokens_stage_ok n d g :
  aligned d →
  ∃ out idx g',
    max_tokens_stage shuffle n d g = Ok (out, g') ∧ rows_at d idx out.
Proof.
  intros Ha. unfold max_tokens_stage.
  pose proof (shuffled_in_range g d) as Hrange.
  destruct (shuffle g (positions d)) as [indices g'] eqn:E. simpl in Hrange.
  destruct (keep_rows_ok d (slice_to indices n) [] empty5)
    as (out & Hrun & Hr); [done | | apply rows_at_empty |].
  - rewrite Forall_forall in Hrange |- *. intros i Hi.
    apply Hrange. by apply slice_subseteq in Hi.
  - rewrite Hrun, bind_ok. eauto.
Qed.

Lemma max_tokens_per_type_stage_ok m d g :
  aligned d →
  ∃ out idx g',
    max_tokens_per_type_stage shuffle m d g = Ok (out, g')
    ∧ rows_at d idx out
    ∧ ∀ l, l ∈ labels out → Z.of_nat (occurrences l (labels out)) ≤ m.
Proof.
  intros Ha. unfold max_tokens_per_type_stage.
  pose proof (shuffled_in_range g d) as Hrange.
  destruct (shuffle g (positions d)) as [indices g'] eqn:E. simpl in Hrange.
  destruct (keep_capped_ok m d indices [] ∅ empty5)
    as (out & sel & Hrun & Hr & Hcap);
    [done | done | apply rows_at_empty | | |].
  - intros l. unfold count_of. by rewrite lookup_empty.
  - intros l Hl. by apply elem_of_nil in Hl.
  - rewrite Hrun, bind_ok. eauto 10.
Qed.

(** All stages together: on five lists of one length [filter_stages]
    returns, its rows are rows of the input, and the bounds of the stages
    [n_max_types] and [n_max_tokens_per_type] hold for the result. *)
Lemma filter_stages_ok g d c :
  aligned d →
  ∃ out idx,
    filter_stages shuffle g d c = Ok out
    ∧ rows_at d idx out
    ∧ (∀ k, n_max_types c = Some k →
         ∀ l, l ∈ labels out → l ∈ top_labels (labels d) k)
    ∧ (∀ m, n_max_tokens_per_type c = Some m →
         ∀ l, l ∈ labels out → Z.of_nat (occurrences l (labels out)) ≤ m).
Proof.
  intros Ha. unfold filter_stages.
  (* n_max_types *)
  assert (∃ d1 idx1,
    match n_max_types c with
    | Some k => max_types_stage k d
    | None => Ok d
    end = Ok d1
    ∧ rows_at d idx1 d1
    ∧ ∀ k, n_max_types c = Some k →
        ∀ l, l ∈ labels d1 → l ∈ top_labels (labels d) k)
    as (d1 & idx1 & -> & R1 & P1).
  { destruct (n_max_types c) as [k|].
    - destruct (max_types_stage_ok k d Ha) as (d1 & idx1 & ? & ? & ?).
      exists d1, idx1. split_and!; [done | done |]. by intros ? [= <-].
    - exists d, (positions d). split_and!; [done | by apply rows_at_self |].
      by intros ? [=]. }
  rewrite bind_ok. apply rows_at_aligned in R1 as A1. destruct A1 as [A1 _].
  (* n_max_tokens *)
  assert (∃ d2 idx2 g2,
    match n_max_tokens c with
    | Some n => max_tokens_stage shuffle n d1 g
    | None => Ok (d1, g)
    end = Ok (d2, g2)
    ∧ rows_at d1 idx2 d2) as (d2 & idx2 & g2 & -> & R2).
  { destruct (n_max_tokens c) as [n|].
    - by apply max_tokens_stage_ok.
    - exists d1, (positions d1), g. split; [done | by apply rows_at_self]. }
  rewrite bind_ok. apply rows_at_aligned in R2 as A2. destruct A2 as [A2 _].
  (* n_min_tokens_per_type *)
  assert (∃ d3 idx3,
    match n_min_tokens_per_type c with
    | Some n => min_tokens_per_type_stage n d2
    | None => Ok d2
    end = Ok d3
    ∧ rows_at d2 idx3 d3) as (d3 & idx3 & -> & R3).
  { destruct (n_min_tokens_per_type c) as [n|].
    - by apply min_tokens_per_type_stage_ok.
    - exists d2, (positions d2). split; [done | by apply rows_at_self]. }
  rewrite bind_ok. apply rows_at_aligned in R3 as A3. destruct A3 as [A3 _].
  (* n_max_tokens_per_type *)
  assert (∃ d4 idx4 g4,
    match n_max_tokens_per_type c with
    | Some n => max_tokens_per_type_stage shuffle n d3 g2
    | None => Ok (d3, g2)
    end = Ok (d4, g4)
    ∧ rows_at d3 idx4 d4
    ∧ ∀ m, n_max_tokens_per_type c = Some m →
        ∀ l, l ∈ labels d4 → Z.of_nat (occurrences l (labels d4)) ≤ m)
    as (d4 & idx4 & g4 & -> & R4 & P4).
  { destruct (n_max_tokens_per_type c) as [m|].
    - destruct (max_tokens_per_type_stage_ok m d3 g2 A3)
        as (d4 & idx4 & g4 & ? & ? & ?).
      exists d4, idx4, g4. split_and!; [done | done |]. by intros ? [= <-].
    - exists d3, (positions d3), g2.
      split_and!; [done | by apply rows_at_self |]. by intros ? [=]. }
  rewrite bind_ok.
  pose proof (rows_at_compose _ _ _ _ _ R1 R2) as R12.
  pose proof (rows_at_compose _ _ _ _ _ R12 R3) as R123.
  pose proof (rows_at_compose _ _ _ _ _ R123 R4) as R1234.
  eexists d4, _. split_and!; [done | exact R1234 | | done].
  intros k Hk l Hl. apply (P1 k Hk).
  eapply rows_at_labels; [exact R2 |].
  eapply rows_at_labels; [exact R3 |].
  eapply rows_at_labels; [exact R4 | done].
Qed.
End stage_facts.

Lemma rows_at_lookup {X} (src out : lists5 X) idx j i :
  rows_at src idx out → idx !! j = Some i →
  is_Some (data src !! i)
  ∧ data out !! j = data src !! i
  ∧ labels out !! j = labels src !! i
  ∧ lengths out !! j = lengths src !! i
  ∧ keys out !! j = keys src !! i
  ∧ speakers out !! j = speakers src !! i.
Proof.
  intros (Hd & Hl & Hn & Hk & Hs) Hj.
  destruct (Forall2_lookup_l _ _ _ _ _ Hd Hj) as (v1 & -> & E1).
  destruct (Forall2_lookup_l _ _ _ _ _ Hl Hj) as (v2 & -> & E2).
  destruct (Forall2_lookup_l _ _ _ _ _ Hn Hj) as (v3 & -> & E3).
  destruct (Forall2_lookup_l _ _ _ _ _ Hk Hj) as (v4 & -> & E4).
  destruct (Forall2_lookup_l _ _ _ _ _ Hs Hj) as (v5 & -> & E5).
  rewrite E1. split_and!; eauto.
Qed.

Lemma distinct_le_of_subseteq (ls types : list string) :
  (∀ l, l ∈ ls → l ∈ types) → (distinct ls ≤ length types)%nat.
Proof.
  intros H. unfold distinct. apply submseteq_length, NoDup_submseteq.
  - apply NoDup_remove_dups.
  - intros l Hl. apply H. by apply elem_of_remove_dups.
Qed.

(** ** [pad_sequences]: rounding and slices *)

(** [np.round] of a half-integer in closed form: an even numerator gives the
    quotient, an odd one the even neighbour of the midpoint. *)
Lemma padding_of_eq (n_padded length : Z) :
  padding_of n_padded length
  = let z := n_padded - length in
    if Z.even z then z `div` 2
    else if Z.even (z `div` 2) then z `div` 2 else z `div` 2 + 1.
Proof.
  unfold padding_of, np_round.
  unfold Qdiv, Qmult, Qinv, Qminus, Qplus, Qopp, Qcompare, Qfloor, inject_Z.
  simpl. set (z := n_padded - length). rewrite !Z.mul_1_r.
  change (Z.pos (1 * 2)) with 2. change (Z.pos (1 * 2 * 1)) with 2.
  pose proof (Z.div_mod z 2 ltac:(lia)) as Hdm.
  pose proof (Zmod_even z) as Hev.
  destruct (Z.even z);
    destruct (Z.compare_spec ((z + - z `div` 2 * 2) * 2) (1 * 2));
    try reflexivity; lia.
Qed.

(** The offset is the midpoint [(n_padded - length) / 2] rounded half to
    even: within one half of it, and even when the midpoint is not a whole
    number. *)
Lemma padding_of_half_even (n_padded length : Z) :
  let p := padding_of n_padded length in
  -1 ≤ 2 * p - (n_padded - length) ≤ 1
  ∧ (Z.odd (n_padded - length) = true → Z.even p = true).
Proof.
  simpl. rewrite padding_of_eq. simpl. set (z := n_padded - length).
  pose proof (Z.div_mod z 2 ltac:(lia)) as Hdm.
  pose proof (Zmod_even z) as Hev. rewrite <- Z.negb_even.
  destruct (Z.even z) eqn:Ez; simpl.
  - split; [lia | done].
  - destruct (Z.even (z `div` 2)) eqn:Eq; (split; [lia |]); intros _;
      [done |].
    rewrite Z.add_1_r, Z.even_succ, <- Z.negb_even. by rewrite Eq.
Qed.

Lemma padding_of_fits (n_padded length : Z) :
  0 ≤ length ≤ n_padded →
  0 ≤ padding_of n_padded length
  ∧ padding_of n_padded length + length ≤ n_padded.
Proof.
  intros H. pose proof (padding_of_half_even n_padded length) as [Hp Hodd].
  simpl in Hp, Hodd. split; [lia |].
  destruct (decide (n_padded - length = 1)) as [E | E]; [|lia].
  rewrite E in Hodd. specialize (Hodd eq_refl).
  assert (padding_of n_padded length = 0 ∨ padding_of n_padded length = 1)
    as [-> | Hone] by lia; [lia |].
  rewrite Hone in Hodd. discriminate.
Qed.

Lemma padding_of_window (n_padded length : Z) :
  0 ≤ n_padded < length →
  0 ≤ - padding_of n_padded length
  ∧ - padding_of n_padded length + n_padded ≤ length.
Proof.
  intros H. pose proof (padding_of_half_even n_padded length) as [Hp Hodd].
  simpl in Hp, Hodd.
  destruct (decide (n_padded - length = -1)) as [E | E]; [|lia].
  rewrite E in Hodd. specialize (Hodd eq_refl).
  assert (padding_of n_padded length = 0 ∨ padding_of n_padded length = -1)
    as [-> | Hone] by lia; [lia |].
  rewrite Hone in Hodd. discriminate.
Qed.

Lemma slice_bound_inside (n : nat) (i : Z) :
  0 ≤ i ≤ Z.of_nat n → slice_bound n i = Z.to_nat i.
Proof.
  intros H. unfold slice_bound. rewrite bool_decide_eq_false_2 by lia.
  f_equal. lia.
Qed.

Lemma slice_inside {T} (l : list T) (a b : Z) :
  0 ≤ a ≤ b → b ≤ Z.of_nat (length l) →
  slice l a b = take (Z.to_nat (b - a)) (drop (Z.to_nat a) l)
  ∧ length (slice l a b) = Z.to_nat (b - a).
Proof.
  intros Ha Hb. unfold slice. rewrite !slice_bound_inside by lia.
  replace (Z.to_nat b - Z.to_nat a)%nat with (Z.to_nat (b - a)) by lia.
  split; [done |]. rewrite length_take, length_drop. lia.
Qed.

(** ** [pad_sequences]: broadcasting *)

Section broadcast_facts.
Context {A B : Type} (astype : A → B).
Implicit Types src : array2 A.

Lemma mapM_result_cons {T U} (f : T → result U) (v : T) (l : list T) :
  mapM f (v :: l) = y ← f v; k ← mapM f l; Ok (y :: k).
Proof. reflexivity. Qed.

Lemma broadcast_row_same (w : nat) (r : list A) :
  length r = w → broadcast_row w r = Ok r.
Proof. intros H. unfold broadcast_row. by rewrite bool_decide_eq_true_2. Qed.

Lemma mapM_broadcast_same (w : nat) (rs : list (list A)) :
  Forall (λ r, length r = w) rs → mapM (broadcast_row w) rs = Ok rs.
Proof.
  induction 1 as [|r rs Hr _ IH]; [done |].
  by rewrite mapM_result_cons, broadcast_row_same, bind_ok, IH.
Qed.

(** Equal shapes: broadcasting leaves the source as it is. *)
Lemma broadcast_to_same h w src :
  array2_wf src → ncols src = w → length (rows src) = h →
  broadcast_to h w src = Ok (rows src).
Proof.
  intros Hwf Hw Hh. unfold broadcast_to.
  rewrite bool_decide_eq_true_2 by (by left).
  rewrite bool_decide_eq_true_2 by done.
  apply mapM_broadcast_same. by rewrite <- Hw.
Qed.

(** A column count that is neither the target's nor 1 is refused. *)
Lemma broadcast_to_mismatch h w src :
  ncols src ≠ w → ncols src ≠ 1%nat →
  broadcast_to h w src = Raise ValueError.
Proof.
  intros Hw H1. unfold broadcast_to.
  rewrite bool_decide_eq_false_2; [done |]. intros [? | ?]; done.
Qed.

Lemma broadcast_row_exn w (r : list A) e :
  broadcast_row w r = Raise e → e = ValueError.
Proof.
  unfold broadcast_row. case_bool_decide; [done |].
  destruct r as [|v [|v' r]]; congruence.
Qed.

Lemma mapM_broadcast_exn w (rs : list (list A)) e :
  mapM (broadcast_row w) rs = Raise e → e = ValueError.
Proof.
  induction rs as [|r rs IH]; [done |]. rewrite mapM_result_cons.
  destruct (broadcast_row w r) as [r' | e'] eqn:Er.
  - rewrite bind_ok.
    destruct (mapM (broadcast_row w) rs) as [rs' | e''] eqn:Ers.
    + done.
    + rewrite bind_raise. intros [= <-]. by apply IH.
  - rewrite bind_raise. intros [= <-]. by eapply broadcast_row_exn.
Qed.

(** Broadcasting raises nothing but [ValueError]. *)
Lemma broadcast_to_exn h w src e :
  broadcast_to h w src = Raise e → e = ValueError.
Proof.
  unfold broadcast_to. case_bool_decide; [|congruence].
  case_bool_decide.
  - apply mapM_broadcast_exn.
  - destruct (rows src) as [|r [|r' rs]]; try congruence.
    destruct (broadcast_row w r) as [r' | e'] eqn:Er.
    + by rewrite bind_ok.
    + rewrite bind_raise. intros [= <-]. by eapply broadcast_row_exn.
Qed.

Lemma assign_rows_exn w item lo hi src e :
  assign_rows astype w item lo hi src = Raise e → e = ValueError.
Proof.
  unfold assign_rows.
  destruct (broadcast_to (hi - lo) w src) as [b | e'] eqn:Eb.
  - by rewrite bind_ok.
  - rewrite bind_raise. intros [= <-]. by eapply broadcast_to_exn.
Qed.

Lemma assign_rows_mismatch w item lo hi src :
  ncols src ≠ w → ncols src ≠ 1%nat →
  assign_rows astype w item lo hi src = Raise ValueError.
Proof.
  intros Hw H1. unfold assign_rows.
  by rewrite broadcast_to_mismatch.
Qed.

Lemma astype_rows_length (rs : list (list A)) :
  length (astype_rows astype rs) = length rs.
Proof. apply length_fmap. Qed.

Lemma astype_rows_take n (rs : list (list A)) :
  astype_rows astype (take n rs) = take n (astype_rows astype rs).
Proof. apply fmap_take. Qed.

Lemma astype_rows_drop n (rs : list (list A)) :
  astype_rows astype (drop n rs) = drop n (astype_rows astype rs).
Proof. apply fmap_drop. Qed.

(** A conversion that can be undone on the entries of some rows gives the
    rows back when it is undone. *)
Lemma astype_rows_undone (back : B → A) (rs : list (list A)) :
  Forall (Forall (λ v, back (astype v) = v)) rs →
  astype_rows back (astype_rows astype rs) = rs.
Proof.
  intros H. unfold astype_rows. rewrite <- list_fmap_compose.
  rewrite <- (list_fmap_id rs) at 2. apply Forall_fmap_ext.
  eapply Forall_impl; [exact H |]. intros r Hr. simpl.
  rewrite <- list_fmap_compose. rewrite <- (list_fmap_id r) at 2.
  by apply Forall_fmap_ext.
Qed.

Lemma len_astype_array src : len (astype_array astype src) = len src.
Proof. unfold len. simpl. by rewrite astype_rows_length. Qed.

Lemma astype_array_wf src :
  array2_wf src → array2_wf (astype_array astype src).
Proof.
  unfold array2_wf. simpl. intros Hwf. apply Forall_fmap.
  eapply Forall_impl; [exact Hwf |]. intros r Hr. simpl.
  by rewrite length_fmap.
Qed.
End broadcast_facts.

(** ** [np.zeros]: shapes that are accepted *)

Lemma np_size_mask_le (n : nat) (n_padded : Z) (d : nat) :
  0 ≤ n_padded →
  np_size [Z.of_nat n; n_padded] ≤ np_size [Z.of_nat n; n_padded; Z.of_nat d].
Proof.
  intros HT. unfold np_size. simpl.
  repeat case_bool_decide; nia.
Qed.

Section zeros_facts.
Context {B : Type} (zero : B) (np_max_size : Z).

Lemma np_zeros3_ok (n : nat) (n_padded : Z) (d : nat) :
  0 ≤ n_padded →
  np_size [Z.of_nat n; n_padded; Z.of_nat d] ≤ np_max_size →
  np_zeros3 zero np_max_size n n_padded d
  = Ok (replicate n (replicate (Z.to_nat n_padded) (replicate d zero))).
Proof.
  intros HT Hfit. unfold np_zeros3.
  by rewrite !bool_decide_eq_false_2 by lia.
Qed.

Lemma np_zeros2_ok (n : nat) (n_padded : Z) (d : nat) :
  0 ≤ n_padded →
  np_size [Z.of_nat n; n_padded; Z.of_nat d] ≤ np_max_size →
  np_zeros2 np_max_size n n_padded
  = Ok (replicate n (replicate (Z.to_nat n_padded) 0)).
Proof.
  intros HT Hfit. pose proof (np_size_mask_le n n_padded d HT).
  unfold np_zeros2. by rewrite !bool_decide_eq_false_2 by lia.
Qed.

Lemma np_zeros3_exn (n : nat) (n_padded : Z) (d : nat) e :
  np_zeros3 zero np_max_size n n_padded d = Raise e → e = ValueError.
Proof. unfold np_zeros3. repeat case_bool_decide; congruence. Qed.

Lemma np_zeros2_exn (n : nat) (n_padded : Z) e :
  np_zeros2 np_max_size n n_padded = Raise e → e = ValueError.
Proof. unfold np_zeros2. repeat case_bool_decide; congruence. Qed.
End zeros_facts.

(** ** [pad_sequences]: the centred loop *)

Section pad_centered.
Context {A B : Type} (astype : A → B) (zero : B) (np_max_size : Z).
Implicit Types s : array2 A.

Lemma insert_middle {T} (l1 l2 : list T) (v w : T) :
  <[length l1 := w]> (l1 ++ v :: l2) = l1 ++ w :: l2.
Proof.
  rewrite insert_app_r_alt by lia. by rewrite Nat.sub_diag.
Qed.

(** Writing one sequence of the expected width into the item of zeros
    reserved for it. *)
Lemma set_item_centered (n_padded : Z) (d : nat) s done rest :
  array2_wf s → ncols s = d → 0 ≤ n_padded →
  let zeros := replicate (Z.to_nat n_padded) (replicate d zero) in
  let p := padding_of n_padded (len s) in
  (if bool_decide (len s ≤ n_padded) then
     set_item_rows astype d (done ++ zeros :: rest) (length done) p (p + len s) s
   else
     set_item_all astype d (done ++ zeros :: rest) (length done)
       (array_slice s (- p) (- p + n_padded)))
  = Ok (done ++ centered_item zero n_padded d (astype_array astype s) :: rest).
Proof.
  intros Hwf Hd HT zeros p. subst zeros. unfold centered_item.
  rewrite len_astype_array. fold p. cbn [rows astype_array].
  pose proof (Nat2Z.is_nonneg (length (rows s))) as HL. fold (len s) in HL.
  case_bool_decide as Hle.
  - destruct (padding_of_fits n_padded (len s)) as [Hp0 HpT]; [lia |].
    fold p in Hp0, HpT.
    unfold set_item_rows. rewrite list_lookup_middle by done.
    rewrite length_replicate.
    rewrite !slice_bound_inside by lia.
    unfold assign_rows. rewrite broadcast_to_same; [| done | done |].
    + rewrite bind_ok, bind_ok, insert_middle.
      rewrite take_replicate, drop_replicate.
      replace (Z.to_nat p `min` Z.to_nat n_padded)%nat with (Z.to_nat p)
        by lia.
      replace (Z.to_nat n_padded
               - (Z.to_nat p + (Z.to_nat (p + len s) - Z.to_nat p)))%nat
        with (Z.to_nat (n_padded - p - len s)) by lia.
      done.
    + unfold len in *. lia.
  - destruct (padding_of_window n_padded (len s)) as [Hp0 HpT]; [lia |].
    fold p in Hp0, HpT.
    destruct (slice_inside (rows s) (- p) (- p + n_padded)) as [Hsl Hlen];
      [lia | fold (len s); lia |].
    replace (- p + n_padded - - p) with n_padded in Hsl, Hlen by lia.
    unfold set_item_all. rewrite list_lookup_middle by done.
    rewrite length_replicate.
    unfold assign_rows. rewrite broadcast_to_same.
    + rewrite bind_ok, bind_ok, insert_middle. simpl.
      rewrite Hsl, drop_replicate, Nat.sub_0_r, Nat.sub_diag. simpl.
      by rewrite app_nil_r, astype_rows_take, astype_rows_drop.
    + unfold array2_wf, array_slice in *; simpl.
      rewrite Forall_forall in Hwf |- *. intros r Hr.
      apply Hwf. by apply slice_subseteq in Hr.
    + done.
    + simpl. rewrite Hlen. lia.
Qed.

Lemma set_mask_centered (n_padded : Z) s (rm : bool) mdone mrest :
  0 ≤ n_padded →
  let zeros := replicate (Z.to_nat n_padded) 0 in
  let p := padding_of n_padded (len s) in
  let m := if rm then Some (mdone ++ zeros :: mrest) else None in
  (if bool_decide (len s ≤ n_padded) then
     set_mask m (length mdone) p (p + len s)
   else set_mask_all m (length mdone))
  = Ok (if rm then Some (mdone ++ centered_mask n_padded s :: mrest)
        else None).
Proof.
  intros HT zeros p m. subst zeros. unfold centered_mask. fold p.
  pose proof (Nat2Z.is_nonneg (length (rows s))) as HL. fold (len s) in HL.
  destruct rm; [|by case_bool_decide]. unfold m.
  case_bool_decide as Hle.
  - destruct (padding_of_fits n_padded (len s)) as [Hp0 HpT]; [lia |].
    fold p in Hp0, HpT.
    unfold set_mask. rewrite list_lookup_middle by done.
    rewrite length_replicate.
    rewrite !slice_bound_inside by lia. rewrite insert_middle.
    unfold fill_ones. rewrite take_replicate, drop_replicate.
    replace (Z.to_nat p `min` Z.to_nat n_padded)%nat with (Z.to_nat p)
      by lia.
    replace (Z.to_nat (p + len s) - Z.to_nat p)%nat
      with (Z.to_nat (len s)) by lia.
    replace (Z.to_nat n_padded - (Z.to_nat p + Z.to_nat (len s)))%nat
      with (Z.to_nat (n_padded - p - len s)) by lia.
    done.
  - unfold set_mask_all. rewrite list_lookup_middle by done.
    rewrite insert_middle. unfold fill_ones.
    rewrite length_replicate, take_0, drop_replicate. simpl.
    rewrite Nat.sub_0_r, Nat.sub_diag. simpl. by rewrite app_nil_r.
Qed.

Lemma pad_step_centered (n_padded : Z) (d : nat) s (rm : bool)
    done rest mdone mrest lens :
  array2_wf s → ncols s = d → 0 ≤ n_padded → length mdone = length done →
  pad_step astype n_padded true d (length done) s
    (PadState
       (done ++ replicate (Z.to_nat n_padded) (replicate d zero) :: rest)
       (if rm then
          Some (mdone ++ replicate (Z.to_nat n_padded) 0 :: mrest)
        else None)
       lens)
  = Ok (PadState
          (done ++ centered_item zero n_padded d (astype_array astype s) :: rest)
          (if rm then Some (mdone ++ centered_mask n_padded s :: mrest)
           else None)
          (lens ++ [Z.min (len s) n_padded])).
Proof.
  intros Hwf Hd HT Hm.
  pose proof (set_item_centered n_padded d s done rest Hwf Hd HT) as Hitem.
  pose proof (set_mask_centered n_padded s rm mdone mrest HT) as Hmask.
  simpl in Hitem, Hmask. rewrite Hm in Hmask.
  unfold pad_step. simpl.
  destruct (bool_decide (len s ≤ n_padded));
    by rewrite Hitem, bind_ok, Hmask, bind_ok.
Qed.

Lemma pad_loop_centered (n_padded : Z) (d : nat) (rm : bool) x :
  ∀ done mdone lens,
  Forall array2_wf x → Forall (λ s, ncols s = d) x → 0 ≤ n_padded →
  length mdone = length done →
  pad_loop astype n_padded true d (length done) x
    (PadState
       (done ++ replicate (length x)
                  (replicate (Z.to_nat n_padded) (replicate d zero)))
       (if rm then
          Some (mdone ++ replicate (length x)
                           (replicate (Z.to_nat n_padded) 0))
        else None)
       lens)
  = Ok (PadState
          (done ++ ((λ s, centered_item zero n_padded d (astype_array astype s)) <$> x))
          (if rm then Some (mdone ++ (centered_mask n_padded <$> x))
           else None)
          (lens ++ ((λ s, Z.min (len s) n_padded) <$> x))).
Proof.
  induction x as [|s x IH]; intros done mdone lens Hwf Hd HT Hm.
  - simpl. rewrite !app_nil_r. by destruct rm.
  - apply Forall_cons in Hwf as [Hs Hwf]. apply Forall_cons in Hd as [Es Hd].
    cbn [pad_loop length]. rewrite !replicate_S.
    rewrite pad_step_centered by done. rewrite bind_ok.
    specialize (IH (done ++ [centered_item zero n_padded d
                               (astype_array astype s)])
                  (mdone ++ [centered_mask n_padded s])
                  (lens ++ [Z.min (len s) n_padded]) Hwf Hd HT).
    rewrite !length_app in IH. simpl in IH.
    rewrite <- !app_assoc in IH. simpl in IH.
    replace (length done + 1)%nat with (S (length done)) in IH by lia.
    rewrite IH by lia. rewrite !fmap_cons. done.
Qed.

(** Centred padding of a batch that shares the width of its first
    sequence: the call returns, item by item, the centred sequences,
    their masks and their lengths. *)
Lemma pad_sequences_centered (x : list (array2 A)) (n_padded : Z)
    (rm : bool) (x0 : array2 A) :
  x !! 0%nat = Some x0 →
  Forall array2_wf x → Forall (λ s, ncols s = ncols x0) x → 0 ≤ n_padded →
  np_size [Z.of_nat (length x); n_padded; Z.of_nat (ncols x0)]
  ≤ np_max_size →
  pad_sequences astype zero np_max_size x n_padded true rm
  = Ok (PadState
          ((λ s, centered_item zero n_padded (ncols x0) (astype_array astype s))
             <$> x)
          (if rm then Some (centered_mask n_padded <$> x) else None)
          ((λ s, Z.min (len s) n_padded) <$> x)).
Proof.
  intros H0 Hwf Hd HT Hfit. unfold pad_sequences.
  rewrite (getitem_first _ _ H0), bind_ok.
  rewrite np_zeros3_ok, (np_zeros2_ok np_max_size _ _ (ncols x0)) by done.
  rewrite bind_ok.
  pose proof (pad_loop_centered n_padded (ncols x0) rm x [] [] []
                Hwf Hd HT eq_refl) as Hloop.
  simpl in Hloop. destruct rm; by rewrite !bind_ok, Hloop.
Qed.
End pad_centered.

(** ** [pad_sequences]: what can go wrong *)

Section pad_failure.
Context {A B : Type} (astype : A → B) (zero : B) (np_max_size : Z).
Implicit Types (s src : array2 A) (t : list (list (list B))).

Lemma set_item_rows_cases d t i lo hi src :
  (i < length t)%nat →
  (∃ t', set_item_rows astype d t i lo hi src = Ok t' ∧ length t' = length t)
  ∨ set_item_rows astype d t i lo hi src = Raise ValueError.
Proof.
  intros Hi. unfold set_item_rows.
  destruct (lookup_lt_is_Some_2 t i Hi) as [item ->].
  destruct (assign_rows astype d item _ _ src) as [item' | e] eqn:E.
  - left. rewrite bind_ok. eexists. split; [done |]. apply length_insert.
  - right. by rewrite (assign_rows_exn astype _ _ _ _ _ _ E).
Qed.

Lemma set_item_all_cases d t i src :
  (i < length t)%nat →
  (∃ t', set_item_all astype d t i src = Ok t' ∧ length t' = length t)
  ∨ set_item_all astype d t i src = Raise ValueError.
Proof.
  intros Hi. unfold set_item_all.
  destruct (lookup_lt_is_Some_2 t i Hi) as [item ->].
  destruct (assign_rows astype d item _ _ src) as [item' | e] eqn:E.
  - left. rewrite bind_ok. eexists. split; [done |]. apply length_insert.
  - right. by rewrite (assign_rows_exn astype _ _ _ _ _ _ E).
Qed.

Lemma set_item_rows_mismatch d t i lo hi src :
  (i < length t)%nat → ncols src ≠ d → ncols src ≠ 1%nat →
  set_item_rows astype d t i lo hi src = Raise ValueError.
Proof.
  intros Hi Hd H1. unfold set_item_rows.
  destruct (lookup_lt_is_Some_2 t i Hi) as [item ->].
  by rewrite assign_rows_mismatch.
Qed.

Lemma set_item_all_mismatch d t i src :
  (i < length t)%nat → ncols src ≠ d → ncols src ≠ 1%nat →
  set_item_all astype d t i src = Raise ValueError.
Proof.
  intros Hi Hd H1. unfold set_item_all.
  destruct (lookup_lt_is_Some_2 t i Hi) as [item ->].
  by rewrite assign_rows_mismatch.
Qed.

Lemma set_mask_cases (m : option (list (list Z))) n i lo hi :
  (i < n)%nat → (∀ mk, m = Some mk → length mk = n) →
  ∃ m', set_mask m i lo hi = Ok m'
        ∧ ∀ mk, m' = Some mk → length mk = n.
Proof.
  intros Hi Hm. unfold set_mask. destruct m as [mk|]; [|by exists None].
  specialize (Hm mk eq_refl).
  destruct (lookup_lt_is_Some_2 mk i) as [row ->]; [lia |].
  eexists. split; [done |]. intros mk' [= <-]. by rewrite length_insert.
Qed.

Lemma set_mask_all_cases (m : option (list (list Z))) n i :
  (i < n)%nat → (∀ mk, m = Some mk → length mk = n) →
  ∃ m', set_mask_all m i = Ok m'
        ∧ ∀ mk, m' = Some mk → length mk = n.
Proof.
  intros Hi Hm. unfold set_mask_all. destruct m as [mk|]; [|by exists None].
  specialize (Hm mk eq_refl).
  destruct (lookup_lt_is_Some_2 mk i) as [row ->]; [lia |].
  eexists. split; [done |]. intros mk' [= <-]. by rewrite length_insert.
Qed.

(** A turn of the loop keeps the shape of the state, or raises
    [ValueError]. *)
Lemma pad_step_shape n n_padded c d i s st :
  pad_shape n i st →
  (∃ st', pad_step astype n_padded c d i s st = Ok st'
          ∧ length (padded_x st') = n
          ∧ ∀ m, mask_x st' = Some m → length m = n)
  ∨ pad_step astype n_padded c d i s st = Raise ValueError.
Proof.
  intros (Ht & Hi & Hm). unfold pad_step.
  destruct c; [case_bool_decide |].
  - destruct (set_item_rows_cases d (padded_x st) i
                (padding_of n_padded (len s))
                (padding_of n_padded (len s) + len s) s)
      as [(t' & -> & Hlen) | ->]; [lia | | by right].
    destruct (set_mask_cases (mask_x st) n i (padding_of n_padded (len s))
                (padding_of n_padded (len s) + len s) Hi Hm)
      as (m' & -> & Hm').
    left. rewrite !bind_ok. eexists. split; [done |]. simpl.
    split; [lia | done].
  - destruct (set_item_all_cases d (padded_x st) i
                (array_slice s (- padding_of n_padded (len s))
                   (- padding_of n_padded (len s) + n_padded)))
      as [(t' & -> & Hlen) | ->]; [lia | | by right].
    destruct (set_mask_all_cases (mask_x st) n i Hi Hm) as (m' & -> & Hm').
    left. rewrite !bind_ok. eexists. split; [done |]. simpl.
    split; [lia | done].
  - destruct (set_item_rows_cases d (padded_x st) i 0
                (Z.min (len s) n_padded)
                (array_slice s 0 (Z.min (len s) n_padded)))
      as [(t' & -> & Hlen) | ->]; [lia | | by right].
    destruct (set_mask_cases (mask_x st) n i 0 (Z.min (len s) n_padded)
                Hi Hm) as (m' & -> & Hm').
    left. rewrite !bind_ok. eexists. split; [done |]. simpl.
    split; [lia | done].
Qed.

(** A sequence whose width is neither the tensor's nor 1 makes its turn
    raise. *)
Lemma pad_step_mismatch n n_padded c d i s st :
  pad_shape n i st → ncols s ≠ d → ncols s ≠ 1%nat →
  pad_step astype n_padded c d i s st = Raise ValueError.
Proof.
  intros (Ht & Hi & Hm) Hd H1. unfold pad_step.
  destruct c; [case_bool_decide |].
  - by rewrite set_item_rows_mismatch by (done || lia).
  - by rewrite set_item_all_mismatch by (done || lia).
  - by rewrite set_item_rows_mismatch by (done || lia).
Qed.

Lemma pad_loop_mismatch n n_padded c d s x : ∀ i st,
  length (padded_x st) = n → (∀ m, mask_x st = Some m → length m = n) →
  (i + length x ≤ n)%nat →
  s ∈ x → ncols s ≠ d → ncols s ≠ 1%nat →
  pad_loop astype n_padded c d i x st = Raise ValueError.
Proof.
  induction x as [|s0 x IH]; intros i st Ht Hm Hn Hs Hd H1.
  - by apply elem_of_nil in Hs.
  - cbn [pad_loop]. simpl in Hn.
    assert (pad_shape n i st) as Hshape by (split_and!; [done | lia | done]).
    destruct (pad_step_shape n n_padded c d i s0 st Hshape)
      as [(st' & Hrun & Ht' & Hm') | ->]; [|done].
    apply elem_of_cons in Hs as [<- | Hs].
    + by rewrite (pad_step_mismatch n).
    + rewrite Hrun, bind_ok. apply IH; [done | done | lia | done ..].
Qed.

(** The start of the call on a batch that is not empty: the two arrays of
    zeros are refused, or the loop runs on them. *)
Lemma pad_sequences_start x n_padded c rm x0 :
  x !! 0%nat = Some x0 →
  pad_sequences astype zero np_max_size x n_padded c rm = Raise ValueError
  ∨ (0 ≤ n_padded
     ∧ np_size [Z.of_nat (length x); n_padded; Z.of_nat (ncols x0)]
       ≤ np_max_size
     ∧ pad_sequences astype zero np_max_size x n_padded c rm
       = pad_loop astype n_padded c (ncols x0) 0 x
           (PadState
              (replicate (length x)
                 (replicate (Z.to_nat n_padded) (replicate (ncols x0) zero)))
              (if rm then
                 Some (replicate (length x) (replicate (Z.to_nat n_padded) 0))
               else None)
              [])).
Proof.
  intros H0. unfold pad_sequences.
  rewrite (getitem_first _ _ H0), bind_ok.
  destruct (decide (0 ≤ n_padded
                    ∧ np_size [Z.of_nat (length x); n_padded;
                               Z.of_nat (ncols x0)] ≤ np_max_size))
    as [[HT Hfit] | Hno].
  - right. split; [done |]. split; [done |].
    rewrite np_zeros3_ok, (np_zeros2_ok np_max_size _ _ (ncols x0)) by done.
    rewrite bind_ok. destruct rm; by rewrite !bind_ok.
  - left. unfold np_zeros3. repeat case_bool_decide; try done. lia.
Qed.

End pad_failure.

Lemma sum_list_app l1 l2 : sum_list (l1 ++ l2) = sum_list l1 + sum_list l2.
Proof. unfold sum_list. induction l1 as [|v l1 IH]; simpl; lia. Qed.

Lemma sum_list_replicate n v : sum_list (replicate n v) = Z.of_nat n * v.
Proof. unfold sum_list. induction n as [|n IH]; simpl; lia. Qed.

(** ** [pad_sequences]: widths that NumPy accepts *)

Section pad_accept.
Context {A B : Type} (astype : A → B) (zero : B) (np_max_size : Z).
Implicit Types (s src : array2 A) (t : list (list (list B))).

Lemma broadcast_row_ok (w : nat) (r : list A) :
  length r = w ∨ length r = 1%nat → ∃ r', broadcast_row w r = Ok r'.
Proof.
  intros [H | H]; unfold broadcast_row.
  - rewrite bool_decide_eq_true_2 by done. eauto.
  - case_bool_decide; [eauto |]. destruct r as [|v [|v' r]]; [done | eauto |].
    simpl in H. lia.
Qed.

Lemma mapM_broadcast_ok (w : nat) (rs : list (list A)) :
  Forall (λ r, length r = w ∨ length r = 1%nat) rs →
  ∃ b, mapM (broadcast_row w) rs = Ok b ∧ length b = length rs.
Proof.
  induction 1 as [|r rs Hr _ (b & IH & Hlen)]; [by exists [] |].
  destruct (broadcast_row_ok w r Hr) as [r' Er].
  exists (r' :: b). rewrite mapM_result_cons, Er, bind_ok, IH, bind_ok.
  split; [done |]. simpl. by rewrite Hlen.
Qed.

(** A source of the target's height whose width is the target's or 1 is
    broadcast to the target's height. *)
Lemma broadcast_to_ok h w src :
  array2_wf src → ncols src = w ∨ ncols src = 1%nat →
  length (rows src) = h →
  ∃ b, broadcast_to h w src = Ok b ∧ length b = h.
Proof.
  intros Hwf Hw Hh. unfold broadcast_to.
  rewrite bool_decide_eq_true_2 by done.
  rewrite bool_decide_eq_true_2 by done.
  destruct (mapM_broadcast_ok w (rows src)) as (b & -> & Hlen).
  - eapply Forall_impl; [exact Hwf |]. intros r Hr. simpl in Hr.
    rewrite Hr. done.
  - exists b. split; [done | congruence].
Qed.

Lemma assign_rows_ok w (item : list (list B)) lo hi src :
  array2_wf src → ncols src = w ∨ ncols src = 1%nat →
  (lo ≤ hi ≤ length item)%nat → length (rows src) = (hi - lo)%nat →
  ∃ item', assign_rows astype w item lo hi src = Ok item'
           ∧ length item' = length item.
Proof.
  intros Hwf Hw Hb Hh. unfold assign_rows.
  destruct (broadcast_to_ok (hi - lo) w src Hwf Hw Hh) as (b & -> & Hlen).
  rewrite bind_ok. eexists. split; [done |].
  rewrite !length_app, length_take, astype_rows_length, length_drop, Hlen.
  lia.
Qed.

Lemma array_slice_wf s lo hi : array2_wf s → array2_wf (array_slice s lo hi).
Proof.
  unfold array2_wf, array_slice; simpl. rewrite !Forall_forall.
  intros Hwf r Hr. apply Hwf. by apply slice_subseteq in Hr.
Qed.

Lemma insert_items_ok t i (item' : list (list B)) k :
  Forall (λ item, length item = k) t → length item' = k →
  Forall (λ item, length item = k) (<[i := item']> t).
Proof.
  intros Ht Hi. rewrite Forall_forall in Ht |- *. intros y Hy.
  apply list_elem_of_lookup in Hy as [j Hj].
  destruct (decide (i = j)) as [-> | Hne].
  - destruct (decide (j < length t)%nat) as [Hlt | Hge].
    + rewrite list_lookup_insert_eq in Hj by done. congruence.
    + rewrite list_insert_ge in Hj by lia.
      apply Ht, list_elem_of_lookup. eauto.
  - rewrite list_lookup_insert_ne in Hj by done.
    apply Ht, list_elem_of_lookup. eauto.
Qed.

Lemma pad_step_ok n n_padded c d i s st :
  array2_wf s → ncols s = d ∨ ncols s = 1%nat → 0 ≤ n_padded →
  (i < n)%nat → pad_items_ok n n_padded st →
  ∃ st', pad_step astype n_padded c d i s st = Ok st'
         ∧ pad_items_ok n n_padded st'.
Proof.
  intros Hwf Hw HT Hi (Hn & Hitems & Hm).
  pose proof (Nat2Z.is_nonneg (length (rows s))) as HL. fold (len s) in HL.
  destruct (lookup_lt_is_Some_2 (padded_x st) i) as [item Eitem]; [lia |].
  assert (length item = Z.to_nat n_padded) as Hitem.
  { rewrite Forall_forall in Hitems. apply Hitems, list_elem_of_lookup. eauto. }
  unfold pad_step. destruct c; [case_bool_decide as Hle |].
  - destruct (padding_of_fits n_padded (len s)) as [Hp0 HpT]; [lia |].
    unfold set_item_rows. rewrite Eitem, Hitem.
    rewrite !slice_bound_inside by lia.
    destruct (assign_rows_ok d item (Z.to_nat (padding_of n_padded (len s)))
                (Z.to_nat (padding_of n_padded (len s) + len s)) s)
      as (item' & -> & Hlen); [done | done | lia | unfold len in *; lia |].
    destruct (set_mask_cases (mask_x st) n i (padding_of n_padded (len s))
                (padding_of n_padded (len s) + len s) Hi Hm) as (m' & -> & Hm').
    rewrite !bind_ok. eexists. split; [done |]. split_and!; simpl.
    + by rewrite length_insert.
    + apply insert_items_ok; [done | congruence].
    + done.
  - destruct (padding_of_window n_padded (len s)) as [Hp0 HpT]; [lia |].
    destruct (slice_inside (rows s) (- padding_of n_padded (len s))
                (- padding_of n_padded (len s) + n_padded))
      as [_ Hlen]; [lia | fold (len s); lia |].
    unfold set_item_all. rewrite Eitem.
    destruct (assign_rows_ok d item 0 (length item)
                (array_slice s (- padding_of n_padded (len s))
                   (- padding_of n_padded (len s) + n_padded)))
      as (item' & -> & Hlen');
      [by apply array_slice_wf | done | lia | simpl; rewrite Hlen; lia |].
    destruct (set_mask_all_cases (mask_x st) n i Hi Hm) as (m' & -> & Hm').
    rewrite !bind_ok. eexists. split; [done |]. split_and!; simpl.
    + by rewrite length_insert.
    + apply insert_items_ok; [done | congruence].
    + done.
  - destruct (slice_inside (rows s) 0 (Z.min (len s) n_padded))
      as [_ Hlen]; [lia | fold (len s); lia |].
    unfold set_item_rows. rewrite Eitem, Hitem.
    rewrite !slice_bound_inside by lia.
    destruct (assign_rows_ok d item (Z.to_nat 0)
                (Z.to_nat (Z.min (len s) n_padded))
                (array_slice s 0 (Z.min (len s) n_padded)))
      as (item' & -> & Hlen');
      [by apply array_slice_wf | done | lia | simpl; rewrite Hlen; lia |].
    destruct (set_mask_cases (mask_x st) n i 0 (Z.min (len s) n_padded)
                Hi Hm) as (m' & -> & Hm').
    rewrite !bind_ok. eexists. split; [done |]. split_and!; simpl.
    + by rewrite length_insert.
    + apply insert_items_ok; [done | congruence].
    + done.
Qed.

Lemma pad_loop_ok n n_padded c d x : ∀ i st,
  Forall array2_wf x → Forall (λ s, ncols s = d ∨ ncols s = 1%nat) x →
  0 ≤ n_padded → (i + length x ≤ n)%nat → pad_items_ok n n_padded st →
  ∃ st', pad_loop astype n_padded c d i x st = Ok st'.
Proof.
  induction x as [|s x IH]; intros i st Hwf Hw HT Hi Hst; [by exists st |].
  apply Forall_cons in Hwf as [Hs Hwf]. apply Forall_cons in Hw as [Hws Hw].
  simpl in Hi. cbn [pad_loop].
  destruct (pad_step_ok n n_padded c d i s st Hs Hws HT) as (st1 & -> & Hst1);
    [lia | done |].
  rewrite bind_ok. apply IH; [done | done | done | lia | done].
Qed.

(** In either mode, a batch of well-formed sequences each of which has the
    width of the first one or a single column is padded without error. *)
Lemma pad_sequences_compatible_widths_ok x n_padded c rm x0 :
  x !! 0%nat = Some x0 → Forall array2_wf x →
  Forall (λ s, ncols s = ncols x0 ∨ ncols s = 1%nat) x → 0 ≤ n_padded →
  np_size [Z.of_nat (length x); n_padded; Z.of_nat (ncols x0)]
  ≤ np_max_size →
  ∃ st, pad_sequences astype zero np_max_size x n_padded c rm = Ok st.
Proof.
  intros H0 Hwf Hw HT Hfit. unfold pad_sequences.
  rewrite (getitem_first _ _ H0), bind_ok.
  rewrite np_zeros3_ok, (np_zeros2_ok np_max_size _ _ (ncols x0)) by done.
  rewrite bind_ok.
  assert (∀ m, (∀ mk, m = Some mk → length mk = length x) →
    ∃ st, pad_loop astype n_padded c (ncols x0) 0 x
            (PadState (replicate (length x)
                         (replicate (Z.to_nat n_padded)
                            (replicate (ncols x0) zero))) m []) = Ok st)
    as Hloop.
  { intros m Hm. apply (pad_loop_ok (length x)); [done | done | done | lia |].
    split_and!; simpl; [by rewrite length_replicate | | done].
    apply Forall_replicate. by rewrite length_replicate. }
  destruct rm; rewrite !bind_ok; apply Hloop.
  - intros mk [= <-]. by rewrite length_replicate.
  - done.
Qed.
End pad_accept.

(** ** More about keys and loading *)

(** Splitting loses nothing: joining the segments gives the string back. *)
Lemma join_split sep s : join sep (split sep s) = s.
Proof.
  induction s as [|c s IH]; [done |]. simpl.
  pose proof (split_nonempty sep s) as Hne.
  destruct (Ascii.eqb_spec c sep) as [-> | Hc].
  - simpl. destruct (split sep s) as [|seg segs]; [done |].
    by rewrite IH.
  - destruct (split sep s) as [|seg segs]; [done |].
    simpl in IH |- *. destruct segs as [|seg' segs]; by rewrite <- IH.
Qed.

Lemma string_app_empty_r (s : string) : s +:+ EmptyString = s.
Proof.
  induction s as [|c s IH]; [done |].
  change (String c (s +:+ EmptyString) = String c s). by rewrite IH.
Qed.

(** No segment contains the separator. *)
Lemma split_segments_clean sep s :
  Forall (λ seg, sep ∉ list_ascii_of_string seg) (split sep s).
Proof.
  induction s as [|c s IH]; simpl.
  - repeat constructor. by intros ?%elem_of_nil.
  - destruct (Ascii.eqb_spec c sep) as [-> | Hc].
    + constructor; [by intros ?%elem_of_nil | done].
    + destruct (split sep s) as [|seg segs].
      * repeat constructor. simpl. intros H.
        apply elem_of_cons in H as [H | H]; [done | by apply elem_of_nil in H].
      * apply Forall_cons in IH as [Hseg Hsegs]. constructor; [|done].
        simpl. intros H. apply elem_of_cons in H as [H | H]; done.
Qed.

(** A string with two segments at least starts with the first, the
    separator and the second; what follows is empty or starts with the
    separator. *)
Lemma split_two_segments sep s w sp :
  split sep s !! 0%nat = Some w → split sep s !! 1%nat = Some sp →
  ∃ rest,
    s = w +:+ (String sep (sp +:+ rest))
    ∧ (rest = EmptyString ∨ ∃ r, rest = String sep r)
    ∧ (sep ∉ list_ascii_of_string w) ∧ (sep ∉ list_ascii_of_string sp).
Proof.
  intros H0 H1. pose proof (join_split sep s) as Hj.
  pose proof (split_segments_clean sep s) as Hc.
  destruct (split sep s) as [|w' [|sp' segs]]; simplify_eq/=.
  apply Forall_cons in Hc as [Hw Hc]. apply Forall_cons in Hc as [Hsp _].
  destruct segs as [|seg segs].
  - exists EmptyString. split_and!; [| by left | done | done].
    by rewrite string_app_empty_r.
  - eexists. split_and!; [reflexivity | right; eauto | done | done].
Qed.

Lemma filter_all {T} (P : T → Prop) `{!∀ x, Decision (P x)} (l : list T) :
  Forall P l → filter P l = l.
Proof.
  induction 1 as [|x l Hx _ IH]; [done |].
  by rewrite filter_cons_True, IH.
Qed.

Lemma Forall2_filter_related {T U} (R : T → U → Prop) (P : T → Prop)
    (Q : U → Prop) `{!∀ x, Decision (P x), !∀ y, Decision (Q y)} l k :
  (∀ x y, R x y → (P x ↔ Q y)) →
  Forall2 R l k → Forall2 R (filter P l) (filter Q k).
Proof.
  intros HPQ. induction 1 as [|x y l k Hxy _ IH]; [constructor |].
  rewrite !filter_cons. destruct (decide (P x)) as [HP | HP].
  - rewrite decide_True by by apply (HPQ x y). by constructor.
  - rewrite decide_False; [done |]. by rewrite <- (HPQ x y).
Qed.

Lemma Forall2_functional {T U} (R : T → U → Prop) l k1 k2 :
  (∀ x y z, R x y → R x z → y = z) →
  Forall2 R l k1 → Forall2 R l k2 → k1 = k2.
Proof.
  intros Hfun H1. revert k2.
  induction H1 as [|x y l k1 Hxy _ IH]; intros k2 H2.
  - by inversion H2.
  - inversion H2 as [|? z ? k2' Hxz H2']; subst. f_equal; eauto.
Qed.

Section load_more.
Context {A : Type} (npz : gmap string (array2 A)).

(** Whenever the call returns, its lists describe the retained keys of the
    archive in increasing order. *)
Lemma load_data_from_npz_returns min_length out :
  load_data_from_npz npz min_length = Ok out →
  ∃ acc,
    out = Lists5 (acc_x acc) (acc_labels acc) (acc_lengths acc)
                 (acc_keys acc) (acc_speakers acc)
    ∧ describes npz
        (filter (retained npz min_length) (sorted (map_to_list npz).*1)) acc.
Proof.
  intros Hout.
  apply load_data_from_npz_Ok_inv in Hout as (acc & Hrun & _ & ->).
  exists acc. split; [done |]. by apply load_loop_Ok_describes.
Qed.

Lemma retained_None k : retained npz None k ↔ is_Some (npz !! k).
Proof.
  unfold retained, too_short. split; [intros (a & Ha & _); eauto |].
  intros [a Ha]. eauto.
Qed.

Lemma sorted_keys_length : length (sorted (map_to_list npz).*1) = size npz.
Proof.
  unfold sorted. rewrite merge_sort_Permutation, length_fmap.
  apply length_map_to_list.
Qed.
End load_more.

(** ** More about [filter_data]: positions *)

Lemma taken_at_in_range {T} (src : list T) idx out :
  taken_at src idx out → Forall (λ i, (i < length src)%nat) idx.
Proof.
  intros H. apply Forall_forall. intros i Hi.
  apply list_elem_of_lookup in Hi as [j Hj].
  destruct (Forall2_lookup_l _ _ _ _ _ H Hj) as (v & _ & Hv).
  by eapply lookup_lt_Some.
Qed.

Lemma NoDup_bounded_length (idx : list nat) (n : nat) :
  NoDup idx → Forall (λ i, (i < n)%nat) idx → (length idx ≤ n)%nat.
Proof.
  intros Hnd Hlt. rewrite <- (length_seq n 0).
  apply submseteq_length, NoDup_submseteq; [done |].
  intros i Hi. apply elem_of_seq. rewrite Forall_forall in Hlt.
  specialize (Hlt i Hi). lia.
Qed.

Lemma omap_lookup_NoDup (idx idx' : list nat) :
  NoDup idx → NoDup idx' → NoDup (omap (λ j, idx !! j) idx').
Proof.
  intros Hidx. induction 1 as [|j idx' Hj Hnd IH]; [constructor |].
  simpl. destruct (idx !! j) as [i|] eqn:Ei; [|done].
  constructor; [|done]. intros Hin.
  apply list_elem_of_omap in Hin as (j' & Hj' & Ei').
  assert (j = j') as -> by apply (NoDup_lookup idx j j' i Hidx Ei Ei').
  done.
Qed.

Lemma StronglySorted_lt_lookup (l : list nat) a b x y :
  StronglySorted lt l → l !! a = Some x → l !! b = Some y →
  (a < b)%nat → (x < y)%nat.
Proof.
  intros Hs. revert a b. induction Hs as [|z l Hs IH Hz]; intros a b Ha Hb Hab.
  - done.
  - destruct b as [|b]; [lia |]. simpl in Hb. destruct a as [|a].
    + simpl in Ha. injection Ha as ->.
      rewrite Forall_forall in Hz. apply Hz, list_elem_of_lookup. eauto.
    + simpl in Ha. apply (IH a b); [done | done | lia].
Qed.

Lemma omap_lookup_sorted (idx idx' : list nat) :
  StronglySorted lt idx → StronglySorted lt idx' →
  StronglySorted lt (omap (λ j, idx !! j) idx').
Proof.
  intros Hidx. induction 1 as [|j idx' Hs IH Hj]; [constructor |].
  simpl. destruct (idx !! j) as [i|] eqn:Ei; [|done].
  constructor; [done |]. apply Forall_forall. intros i' Hi'.
  apply list_elem_of_omap in Hi' as (j' & Hj' & Ei').
  rewrite Forall_forall in Hj.
  by apply (StronglySorted_lt_lookup idx j j' i i' Hidx Ei Ei'), Hj.
Qed.

Lemma seq_sorted (a n : nat) : StronglySorted lt (seq a n).
Proof.
  revert a. induction n as [|n IH]; intros a; [constructor |].
  simpl. constructor; [apply IH |]. apply Forall_seq. intros j Hj. lia.
Qed.

Lemma slice_sublist {T} (l : list T) a b : slice l a b `sublist_of` l.
Proof.
  unfold slice. etrans; [apply sublist_take | apply sublist_drop].
Qed.

Lemma slice_to_length {T} (l : list T) (n : Z) :
  Z.of_nat (length (slice_to l n))
  = if bool_decide (0 ≤ n) then Z.min n (Z.of_nat (length l))
    else Z.max 0 (Z.of_nat (length l) + n).
Proof.
  unfold slice_to, slice, slice_bound.
  rewrite (bool_decide_eq_false_2 (0 < 0)) by lia.
  rewrite length_take, length_drop.
  repeat case_bool_decide; lia.
Qed.

Lemma list_filter_iff_In {T} (P Q : T → Prop)
    `{!∀ x, Decision (P x), !∀ x, Decision (Q x)} (l : list T) :
  (∀ x, x ∈ l → (P x ↔ Q x)) → filter P l = filter Q l.
Proof.
  induction l as [|x l IH]; intros HPQ; [done |].
  rewrite !filter_cons, IH by (intros y Hy; apply HPQ; by right).
  rewrite (decide_ext (P x) (Q x)) by (apply HPQ; by left). done.
Qed.

Section filter_positions.
Context {X : Type}.
Implicit Types src out d : lists5 X.

(** The labels found at the positions whose label is in [types] are the
    labels in [types], in their order. *)
Lemma labels_at_label_in src types pre : ∀ suf,
  labels src = pre ++ suf →
  taken_at (labels src)
    (filter (label_in src types) (seq (length pre) (length suf)))
    (filter (λ l, l ∈ types) suf).
Proof.
  intros suf. revert pre. induction suf as [|l suf IH]; intros pre Hls.
  - constructor.
  - cbn [length seq]. rewrite !filter_cons.
    assert (labels src !! length pre = Some l) as Hl
      by (rewrite Hls; by apply list_lookup_middle).
    specialize (IH (pre ++ [l])). rewrite length_app in IH. simpl in IH.
    replace (length pre + 1)%nat with (S (length pre)) in IH by lia.
    specialize (IH ltac:(by rewrite <- app_assoc)).
    destruct (decide (l ∈ types)) as [Hin | Hnin].
    + rewrite decide_True by (exists l; done). by constructor.
    + rewrite decide_False; [done |].
      intros (l' & Hl' & Hin). congruence.
Qed.

Lemma keep_types_labels types d out :
  aligned d →
  keep_types types d (positions d) empty5 = Ok out →
  rows_at d (filter (label_in d types) (positions d)) out
  ∧ labels out = filter (λ l, l ∈ types) (labels d).
Proof.
  intros Ha Hrun.
  destruct (keep_types_ok types d (positions d) [] empty5)
    as (out' & Hrun' & Hr);
    [done | apply positions_in_range | apply rows_at_empty |].
  simpl in Hr. assert (out' = out) as -> by congruence.
  split; [done |]. destruct Hr as (_ & Hl & _).
  apply (Forall2_functional (λ i v, labels d !! i = Some v)
           (filter (label_in d types) (positions d)));
    [congruence | done |].
  unfold positions. destruct Ha as (<- & _).
  by apply (labels_at_label_in d types []).
Qed.

Lemma label_count_positions d l :
  aligned d → label_count d l (positions d) = occurrences l (labels d).
Proof.
  intros Ha. unfold label_count, occurrences, positions.
  destruct Ha as (<- & _).
  pose proof (labels_at_label_in d [l] [] (labels d) eq_refl) as H.
  apply Forall2_length in H. simpl in H.
  rewrite (list_filter_iff (λ i, labels d !! i = Some l) (label_in d [l])).
  - rewrite H. f_equal. apply list_filter_iff. intros l'.
    by rewrite list_elem_of_singleton.
  - intros i. unfold label_in. split.
    + intros Hi. exists l. split; [done | by left].
    + intros (l' & Hl' & ->%list_elem_of_singleton). done.
Qed.

Lemma occurrences_filter_in (types : list string) l ls :
  l ∈ types →
  occurrences l (filter (λ l', l' ∈ types) ls) = occurrences l ls.
Proof.
  intros Hl. unfold occurrences. rewrite list_filter_filter. f_equal.
  apply list_filter_iff. intros l'. split; [tauto |]. by intros ->.
Qed.

(** The capped loop admits each label up to the cap and no further. *)
Lemma keep_capped_exact m src idx : ∀ pre tokens_per_type out,
  aligned src → Forall (λ i, (i < length (data src))%nat) idx →
  rows_at src pre out →
  (∀ l, count_of tokens_per_type l
        = Z.of_nat (occurrences l (labels out))) →
  (∀ l, Z.of_nat (occurrences l (labels out)) ≤ Z.max 0 m) →
  ∃ out' sel,
    keep_capped m src idx tokens_per_type out = Ok out'
    ∧ rows_at src (pre ++ sel) out'
    ∧ sel `sublist_of` idx
    ∧ ∀ l, Z.of_nat (occurrences l (labels out'))
           = Z.min (Z.max 0 m)
               (Z.of_nat (occurrences l (labels out))
                + Z.of_nat (label_count src l idx)).
Proof.
  induction idx as [|i idx IH]; intros pre tpt out Ha Hidx Hr Hcnt Hcap.
  - exists out, []. simpl. rewrite app_nil_r. split_and!; [done ..|].
    intros l. unfold label_count. simpl. specialize (Hcap l). lia.
  - apply Forall_cons in Hidx as [Hi Hidx].
    destruct (append_row_ok src i pre out)
      as (out1 & li & Hrun & El & Hl1 & Hr1); [done ..|].
    assert (∀ l, label_count src l (i :: idx)
                 = ((if decide (li = l) then 1 else 0)
                    + label_count src l idx)%nat) as Hlc.
    { intros l. unfold label_count. rewrite filter_cons, El.
      destruct (decide (li = l)) as [-> | Hne].
      - by rewrite decide_True.
      - rewrite decide_False; [done | congruence]. }
    destruct (decide (count_of tpt li < m)) as [Hlt | Hge].
    + destruct (IH (pre ++ [i]) (<[li := count_of tpt li + 1]> tpt) out1)
        as (out' & sel & Hrun' & Hr' & Hsub & Hocc');
        [done | done | done | | |].
      * intros l. rewrite Hl1, occurrences_snoc. unfold count_of.
        case_decide as Hd.
        -- subst l. rewrite lookup_insert_eq. simpl.
           fold (count_of tpt li). rewrite Hcnt. lia.
        -- rewrite lookup_insert_ne by done. fold (count_of tpt l).
           rewrite Hcnt. lia.
      * intros l. rewrite Hl1, occurrences_snoc. specialize (Hcap l).
        case_decide as Hd; [|lia]. subst l. rewrite Hcnt in Hlt. lia.
      * exists out', (i :: sel). split_and!.
        -- simpl. rewrite (getitem_lookup _ _ _ El), bind_ok.
           rewrite bool_decide_eq_true_2 by done.
           by rewrite Hrun, !bind_ok.
        -- by rewrite cons_middle, app_assoc.
        -- by constructor.
        -- intros l. rewrite Hocc', Hl1, occurrences_snoc, Hlc.
           destruct (decide (li = l)); lia.
    + destruct (IH pre tpt out) as (out' & sel & Hrun' & Hr' & Hsub & Hocc');
        [done ..|].
      exists out', sel. split_and!; [| done | by constructor |].
      * simpl. rewrite (getitem_lookup _ _ _ El), bind_ok.
        by rewrite bool_decide_eq_false_2 by done.
      * intros l. rewrite Hocc', Hlc. specialize (Hcap l).
        destruct (decide (li = l)) as [<- | Hne]; [|lia].
        rewrite Hcnt in Hge. lia.
Qed.
End filter_positions.

(** ** More about [filter_data]: the stages *)

Section stage_facts_more.
Context {X : Type}.
Implicit Types src out d : lists5 X.

Lemma positions_NoDup d : NoDup (positions d).
Proof. apply NoDup_seq. Qed.

Lemma positions_sorted d : StronglySorted lt (positions d).
Proof. apply seq_sorted. Qed.

Lemma positions_length d : length (positions d) = length (data d).
Proof. apply length_seq. Qed.

(** A stage that keeps the tokens of certain types keeps all of them, in
    their order. *)
Lemma keep_types_stage_full types d :
  aligned d →
  ∃ out idx,
    keep_types types d (positions d) empty5 = Ok out
    ∧ rows_at d idx out
    ∧ NoDup idx ∧ StronglySorted lt idx
    ∧ labels out = filter (λ l, l ∈ types) (labels d)
    ∧ (length (data out) ≤ length (data d))%nat.
Proof.
  intros Ha.
  destruct (keep_types_stage_ok types d Ha) as (out & idx0 & Hrun & _ & _).
  destruct (keep_types_labels types d out Ha Hrun) as [Hr Hl].
  exists out, (filter (label_in d types) (positions d)).
  split_and!; [done | done | | | done |].
  - apply NoDup_filter, positions_NoDup.
  - apply StronglySorted_filter, positions_sorted.
  - destruct (rows_at_aligned _ _ _ Hr) as [_ ->].
    rewrite <- (positions_length d). apply length_filter.
Qed.

Lemma min_tokens_per_type_types n (ls : list string) l :
  l ∈ (filter (λ kv : string * Z, n ≤ kv.2) (Counter ls)).*1
  ↔ l ∈ ls ∧ n ≤ Z.of_nat (occurrences l ls).
Proof.
  destruct (Counter_counts ls) as [_ Hc].
  rewrite list_elem_of_fmap. split.
  - intros ([l' c] & -> & Hin). apply list_elem_of_filter in Hin as [Hn Hin].
    apply Hc in Hin as [Hl ->]. done.
  - intros [Hl Hn]. exists (l, Z.of_nat (occurrences l ls)).
    split; [done |]. apply list_elem_of_filter. split; [done |].
    by apply Hc.
Qed.

Lemma min_tokens_per_type_stage_full n d :
  aligned d →
  ∃ out idx,
    min_tokens_per_type_stage n d = Ok out
    ∧ rows_at d idx out
    ∧ NoDup idx ∧ StronglySorted lt idx
    ∧ labels out
      = filter (λ l, n ≤ Z.of_nat (occurrences l (labels d))) (labels d)
    ∧ (length (data out) ≤ length (data d))%nat
    ∧ ∀ l, l ∈ labels out → n ≤ Z.of_nat (occurrences l (labels out)).
Proof.
  intros Ha. unfold min_tokens_per_type_stage.
  destruct (keep_types_stage_full
              (filter (λ kv, n ≤ kv.2) (Counter (labels d))).*1 d Ha)
    as (out & idx & Hrun & Hr & Hnd & Hs & Hl & Hlen).
  exists out, idx. split_and!; try done.
  - rewrite Hl. apply list_filter_iff_In. intros l Hin.
    rewrite min_tokens_per_type_types. tauto.
  - intros l Hin. rewrite Hl in Hin |- *.
    apply list_elem_of_filter in Hin as [Hty Hin].
    rewrite occurrences_filter_in by done.
    by apply min_tokens_per_type_types in Hty as [_ ?].
Qed.

Context {rng : Type} (shuffle : rng → list nat → list nat * rng).
Hypothesis shuffle_perm : ∀ g l, (shuffle g l).1 ≡ₚ l.

Lemma shuffled_NoDup g d : NoDup (shuffle g (positions d)).1.
Proof. rewrite shuffle_perm. apply positions_NoDup. Qed.

Lemma shuffled_length g d :
  length (shuffle g (positions d)).1 = length (data d).
Proof. rewrite shuffle_perm. apply positions_length. Qed.

Lemma max_tokens_stage_full n d g :
  aligned d →
  ∃ out,
    max_tokens_stage shuffle n d g = Ok (out, (shuffle g (positions d)).2)
    ∧ rows_at d (slice_to (shuffle g (positions d)).1 n) out
    ∧ NoDup (slice_to (shuffle g (positions d)).1 n)
    ∧ Z.of_nat (length (data out))
      = if bool_decide (0 ≤ n) then Z.min n (Z.of_nat (length (data d)))
        else Z.max 0 (Z.of_nat (length (data d)) + n).
Proof.
  intros Ha. unfold max_tokens_stage.
  pose proof (shuffled_in_range shuffle shuffle_perm g d) as Hrange.
  pose proof (shuffled_NoDup g d) as Hnd.
  pose proof (shuffled_length g d) as Hlen.
  destruct (shuffle g (positions d)) as [indices g'] eqn:E.
  simpl in Hrange, Hnd, Hlen |- *.
  destruct (keep_rows_ok d (slice_to indices n) [] empty5)
    as (out & Hrun & Hr); [done | | apply rows_at_empty |].
  - rewrite Forall_forall in Hrange |- *. intros i Hi.
    apply Hrange. by apply slice_subseteq in Hi.
  - simpl in Hr. rewrite Hrun, bind_ok. exists out.
    split_and!; [done | done | |].
    + eapply sublist_NoDup; [exact Hnd | apply slice_sublist].
    + destruct (rows_at_aligned _ _ _ Hr) as [_ ->].
      by rewrite slice_to_length, Hlen.
Qed.

Lemma max_tokens_per_type_stage_full m d g :
  aligned d →
  ∃ out idx,
    max_tokens_per_type_stage shuffle m d g
    = Ok (out, (shuffle g (positions d)).2)
    ∧ rows_at d idx out
    ∧ NoDup idx
    ∧ (length (data out) ≤ length (data d))%nat
    ∧ ∀ l, Z.of_nat (occurrences l (labels out))
           = Z.min (Z.max 0 m) (Z.of_nat (occurrences l (labels d))).
Proof.
  intros Ha. unfold max_tokens_per_type_stage.
  pose proof (shuffled_in_range shuffle shuffle_perm g d) as Hrange.
  pose proof (shuffled_NoDup g d) as Hnd.
  pose proof (shuffled_length g d) as Hlen.
  pose proof (shuffle_perm g (positions d)) as Hperm.
  destruct (shuffle g (positions d)) as [indices g'] eqn:E.
  simpl in Hrange, Hnd, Hlen, Hperm |- *.
  destruct (keep_capped_exact m d indices [] ∅ empty5)
    as (out & sel & Hrun & Hr & Hsub & Hocc);
    [done | done | apply rows_at_empty | | |].
  - intros l. unfold count_of. by rewrite lookup_empty.
  - intros l. simpl. unfold occurrences. simpl. lia.
  - simpl in Hr. rewrite Hrun, bind_ok. exists out, sel.
    split_and!; [done | done | by eapply sublist_NoDup | |].
    + destruct (rows_at_aligned _ _ _ Hr) as [_ ->]. rewrite <- Hlen.
      by apply sublist_length.
    + intros l. rewrite Hocc. simpl.
      replace (label_count d l indices) with (occurrences l (labels d));
        [unfold occurrences at 1; simpl; lia |].
      rewrite <- (label_count_positions d l Ha). unfold label_count.
      by rewrite Hperm.
Qed.

(** The whole pipeline, with what each stage guarantees for the result. *)
Lemma filter_stages_facts g d c :
  aligned d →
  ∃ out idx,
    filter_stages shuffle g d c = Ok out
    ∧ rows_at d idx out
    ∧ NoDup idx
    ∧ (n_max_tokens c = None → n_max_tokens_per_type c = None →
       StronglySorted lt idx)
    ∧ (∀ n, n_max_tokens c = Some n → 0 ≤ n →
         Z.of_nat (length (data out)) ≤ n)
    ∧ (∀ n, n_min_tokens_per_type c = Some n →
         n_max_tokens_per_type c = None →
         ∀ l, l ∈ labels out → n ≤ Z.of_nat (occurrences l (labels out))).
Proof.
  intros Ha. unfold filter_stages.
  (* n_max_types *)
  assert (∃ d1 idx1,
    match n_max_types c with
    | Some k => max_types_stage k d
    | None => Ok d
    end = Ok d1
    ∧ rows_at d idx1 d1 ∧ NoDup idx1 ∧ StronglySorted lt idx1)
    as (d1 & idx1 & -> & R1 & N1 & S1).
  { destruct (n_max_types c) as [k|].
    - destruct (keep_types_stage_full (top_labels (labels d) k) d Ha)
        as (d1 & idx1 & ? & ? & ? & ? & _). by exists d1, idx1.
    - exists d, (positions d).
      split_and!; [done | by apply rows_at_self | apply positions_NoDup
                  | apply positions_sorted]. }
  rewrite bind_ok. apply rows_at_aligned in R1 as A1. destruct A1 as [A1 _].
  (* n_max_tokens *)
  assert (∃ d2 idx2 g2,
    match n_max_tokens c with
    | Some n => max_tokens_stage shuffle n d1 g
    | None => Ok (d1, g)
    end = Ok (d2, g2)
    ∧ rows_at d1 idx2 d2 ∧ NoDup idx2
    ∧ (n_max_tokens c = None → StronglySorted lt idx2)
    ∧ ∀ n, n_max_tokens c = Some n → 0 ≤ n →
        Z.of_nat (length (data d2)) ≤ n)
    as (d2 & idx2 & g2 & -> & R2 & N2 & S2 & L2).
  { destruct (n_max_tokens c) as [n|].
    - destruct (max_tokens_stage_full n d1 g A1) as (d2 & ? & ? & ? & Hlen).
      eexists d2, _, _. split_and!; [done | done | done | done |].
      intros ? [= <-] Hn. rewrite Hlen, bool_decide_eq_true_2 by done. lia.
    - exists d1, (positions d1), g.
      split_and!; [done | by apply rows_at_self | apply positions_NoDup
                  | intros _; apply positions_sorted | done]. }
  rewrite bind_ok. apply rows_at_aligned in R2 as A2. destruct A2 as [A2 _].
  (* n_min_tokens_per_type *)
  assert (∃ d3 idx3,
    match n_min_tokens_per_type c with
    | Some n => min_tokens_per_type_stage n d2
    | None => Ok d2
    end = Ok d3
    ∧ rows_at d2 idx3 d3 ∧ NoDup idx3 ∧ StronglySorted lt idx3
    ∧ (length (data d3) ≤ length (data d2))%nat
    ∧ ∀ n, n_min_tokens_per_type c = Some n →
        ∀ l, l ∈ labels d3 → n ≤ Z.of_nat (occurrences l (labels d3)))
    as (d3 & idx3 & -> & R3 & N3 & S3 & L3 & P3).
  { destruct (n_min_tokens_per_type c) as [n|].
    - destruct (min_tokens_per_type_stage_full n d2 A2)
        as (d3 & idx3 & ? & ? & ? & ? & _ & ? & ?).
      exists d3, idx3. split_and!; try done. by intros ? [= <-].
    - exists d2, (positions d2).
      split_and!; [done | by apply rows_at_self | apply positions_NoDup
                  | apply positions_sorted | done | done]. }
  rewrite bind_ok. apply rows_at_aligned in R3 as A3. destruct A3 as [A3 _].
  (* n_max_tokens_per_type *)
  assert (∃ d4 idx4 g4,
    match n_max_tokens_per_type c with
    | Some n => max_tokens_per_type_stage shuffle n d3 g2
    | None => Ok (d3, g2)
    end = Ok (d4, g4)
    ∧ rows_at d3 idx4 d4 ∧ NoDup idx4
    ∧ (length (data d4) ≤ length (data d3))%nat
    ∧ (n_max_tokens_per_type c = None → d4 = d3 ∧ StronglySorted lt idx4))
    as (d4 & idx4 & g4 & -> & R4 & N4 & L4 & S4).
  { destruct (n_max_tokens_per_type c) as [m|].
    - destruct (max_tokens_per_type_stage_full m d3 g2 A3)
        as (d4 & idx4 & ? & ? & ? & ? & _).
      eexists d4, idx4, _. by split_and!.
    - exists d3, (positions d3), g2.
      split_and!; [done | by apply rows_at_self | apply positions_NoDup
                  | done |].
      intros _. split; [done | apply positions_sorted]. }
  rewrite bind_ok.
  pose proof (rows_at_compose _ _ _ _ _ R1 R2) as R12.
  pose proof (rows_at_compose _ _ _ _ _ R12 R3) as R123.
  pose proof (rows_at_compose _ _ _ _ _ R123 R4) as R1234.
  eexists d4, _. split_and!; [done | exact R1234 | | | |].
  - by repeat apply omap_lookup_NoDup.
  - intros H2 H4. destruct (S4 H4) as [_ S4'].
    repeat apply omap_lookup_sorted; auto.
  - intros n Hn Hn0. specialize (L2 n Hn Hn0). lia.
  - intros n Hn H4. destruct (S4 H4) as [-> _]. by apply P3.
Qed.
End stage_facts_more.

(** ** More about [filter_data]: order, uniqueness, failure *)

Lemma taken_at_shift {T} (x : T) (src : list T) (base : nat) idx out :
  Forall (λ i, (S base ≤ i)%nat) idx →
  Forall2 (λ i v, (x :: src) !! (i - base)%nat = Some v) idx out →
  Forall2 (λ i v, src !! (i - S base)%nat = Some v) idx out.
Proof.
  intros Hb H. induction H as [|i v idx out Hi _ IH]; [constructor |].
  apply Forall_cons in Hb as [Hbi Hb]. constructor; [|by apply IH].
  replace (i - base)%nat with (S (i - S base)) in Hi by lia. done.
Qed.

(** Elements taken at increasing positions form a subsequence. *)
Lemma taken_at_sorted_sublist_from {T} (src : list T) : ∀ base idx out,
  StronglySorted lt idx → Forall (λ i, (base ≤ i)%nat) idx →
  Forall2 (λ i v, src !! (i - base)%nat = Some v) idx out →
  out `sublist_of` src.
Proof.
  induction src as [|x src IH]; intros base idx out Hs Hb H.
  - destruct H as [|i v idx out Hi _]; [constructor | done].
  - destruct H as [|i v idx out Hi H]; [apply sublist_nil_l |].
    apply StronglySorted_inv in Hs as [Hs Hlt].
    apply Forall_cons in Hb as [Hbi Hb].
    destruct (decide (i = base)) as [-> | Hne].
    + rewrite Nat.sub_diag in Hi. simpl in Hi. injection Hi as ->.
      assert (Forall (λ j, (S base ≤ j)%nat) idx) as Hb'
        by (eapply Forall_impl; [exact Hlt |]; intros j Hj; simpl in Hj; lia).
      apply sublist_skip, (IH (S base) idx out); [done | done |].
      by apply (taken_at_shift v).
    + assert (Forall (λ j, (S base ≤ j)%nat) (i :: idx)) as Hb'.
      { constructor; [lia |]. eapply Forall_impl; [exact Hlt |].
        intros j Hj. simpl in Hj. lia. }
      apply sublist_cons, (IH (S base) (i :: idx) (v :: out));
        [by constructor | done |].
      apply (taken_at_shift x); [done | by constructor].
Qed.

Lemma taken_at_sorted_sublist {T} (src : list T) idx out :
  StronglySorted lt idx → taken_at src idx out → out `sublist_of` src.
Proof.
  intros Hs H. apply (taken_at_sorted_sublist_from src 0 idx out); [done | |].
  - apply Forall_forall. intros; lia.
  - eapply Forall2_impl; [exact H |]. intros i v Hi. simpl.
    by rewrite Nat.sub_0_r.
Qed.

(** Distinct positions of a list without duplicates give distinct
    elements. *)
Lemma taken_at_NoDup {T} (src : list T) idx out :
  NoDup src → NoDup idx → taken_at src idx out → NoDup out.
Proof.
  intros Hsrc Hidx H. apply NoDup_alt. intros a b v Ha Hb.
  destruct (Forall2_lookup_r _ _ _ _ _ H Ha) as (i & Hi & Hv).
  destruct (Forall2_lookup_r _ _ _ _ _ H Hb) as (i' & Hi' & Hv').
  assert (i = i') as <- by apply (NoDup_lookup src i i' v Hsrc Hv Hv').
  apply (NoDup_lookup idx a b i Hidx Hi Hi').
Qed.

Lemma rows_at_self_eq {X} (d out : lists5 X) :
  rows_at d (positions d) out → aligned d → out = d.
Proof.
  intros (Hd & Hl & Hn & Hk & Hs) Ha.
  destruct (rows_at_self d Ha) as (Hd' & Hl' & Hn' & Hk' & Hs').
  destruct d, out; simpl in *. f_equal.
  - eapply (Forall2_functional _ _ _ _ _ Hd Hd').
  - eapply (Forall2_functional _ _ _ _ _ Hl Hl').
  - eapply (Forall2_functional _ _ _ _ _ Hn Hn').
  - eapply (Forall2_functional _ _ _ _ _ Hk Hk').
  - eapply (Forall2_functional _ _ _ _ _ Hs Hs').
  Unshelve. all: simpl; congruence.
Qed.

Section filter_failure.
Context {X : Type}.
Implicit Types src out d : lists5 X.

Lemma append_row_exn src i out e :
  append_row src i out = Raise e → e = IndexError.
Proof.
  unfold append_row. rewrite !getitem_nat.
  destruct (data src !! i); [rewrite bind_ok | by intros [= <-]].
  destruct (labels src !! i); [rewrite bind_ok | by intros [= <-]].
  destruct (lengths src !! i); [rewrite bind_ok | by intros [= <-]].
  destruct (keys src !! i); [rewrite bind_ok | by intros [= <-]].
  destruct (speakers src !! i); [rewrite bind_ok | by intros [= <-]].
  done.
Qed.

(** A position without a label stops a type-filtering loop with
    [IndexError]. *)
Lemma keep_types_unlabelled types src idx : ∀ out i,
  i ∈ idx → labels src !! i = None →
  keep_types types src idx out = Raise IndexError.
Proof.
  induction idx as [|j idx IH]; intros out i Hi Hnone.
  - by apply elem_of_nil in Hi.
  - cbn [keep_types]. rewrite getitem_nat.
    destruct (labels src !! j) as [l|] eqn:El; [|done].
    rewrite bind_ok.
    assert (i ∈ idx) as Hi'.
    { apply elem_of_cons in Hi as [-> | ?]; [congruence | done]. }
    case_bool_decide; [|by apply (IH out i)].
    destruct (append_row src j out) as [out' | e] eqn:Ea.
    + rewrite bind_ok. by apply (IH out' i).
    + by rewrite (append_row_exn _ _ _ _ Ea).
Qed.
End filter_failure.

(** *** The labels [most_common] selects, once more *)

Lemma Counter_keys ls l : l ∈ (Counter ls).*1 ↔ l ∈ ls.
Proof.
  destruct (Counter_counts ls) as [_ Hc]. rewrite list_elem_of_fmap. split.
  - intros ([l' n] & -> & Hin). by apply Hc in Hin as [? _].
  - intros Hl. exists (l, Z.of_nat (occurrences l ls)). split; [done |].
    by apply Hc.
Qed.

Lemma Counter_length ls : length (Counter ls) = distinct ls.
Proof.
  rewrite <- (length_fmap fst). unfold distinct.
  apply Permutation_length, NoDup_Permutation.
  - apply Counter_counts.
  - apply NoDup_remove_dups.
  - intros l. by rewrite Counter_keys, elem_of_remove_dups.
Qed.

Lemma top_labels_NoDup ls k : NoDup (top_labels ls k).
Proof.
  unfold top_labels, most_common. rewrite fmap_take.
  eapply sublist_NoDup; [|apply sublist_take].
  rewrite sort_by_count_Permutation. apply Counter_counts.
Qed.

Lemma top_labels_length ls k :
  length (top_labels ls k) = (Z.to_nat k `min` distinct ls)%nat.
Proof.
  unfold top_labels, most_common.
  rewrite length_fmap, length_take, sort_by_count_Permutation.
  by rewrite Counter_length.
Qed.

Lemma top_labels_subseteq ls k l : l ∈ top_labels ls k → l ∈ ls.
Proof.
  unfold top_labels, most_common. rewrite fmap_take. intros Hl.
  apply subseteq_take in Hl. rewrite sort_by_count_Permutation in Hl.
  by apply Counter_keys.
Qed.

(** ** [pad_sequences]: the left-aligned loop, shapes *)

Section pad_left.
Context {A B : Type} (astype : A → B) (zero : B) (np_max_size : Z).
Implicit Types s : array2 A.

Lemma set_item_left (n_padded : Z) (d : nat) s done rest :
  array2_wf s → ncols s = d → 0 ≤ n_padded →
  set_item_rows astype d
    (done ++ replicate (Z.to_nat n_padded) (replicate d zero) :: rest)
    (length done) 0 (Z.min (len s) n_padded)
    (array_slice s 0 (Z.min (len s) n_padded))
  = Ok (done ++ left_item zero n_padded d (astype_array astype s) :: rest).
Proof.
  intros Hwf Hd HT. unfold left_item.
  rewrite len_astype_array. cbn [rows astype_array].
  pose proof (Nat2Z.is_nonneg (length (rows s))) as HL. fold (len s) in HL.
  destruct (slice_inside (rows s) 0 (Z.min (len s) n_padded))
    as [Hsl Hlen]; [lia | fold (len s); lia |].
  rewrite Z.sub_0_r in Hsl, Hlen. simpl in Hsl.
  unfold set_item_rows. rewrite list_lookup_middle by done.
  rewrite length_replicate, !slice_bound_inside by lia.
  unfold assign_rows. rewrite broadcast_to_same.
  - rewrite bind_ok, bind_ok, insert_middle. simpl.
    rewrite Hsl, drop_0, drop_replicate, astype_rows_take.
    replace (Z.to_nat n_padded
             - (Z.to_nat (Z.min (len s) n_padded) - Z.to_nat 0))%nat
      with (Z.to_nat (n_padded - Z.min (len s) n_padded)) by lia.
    done.
  - by apply array_slice_wf.
  - done.
  - simpl. rewrite Hlen. lia.
Qed.

Lemma set_mask_left (n_padded : Z) s (rm : bool) mdone mrest :
  0 ≤ n_padded →
  set_mask (if rm then
              Some (mdone ++ replicate (Z.to_nat n_padded) 0 :: mrest)
            else None)
    (length mdone) 0 (Z.min (len s) n_padded)
  = Ok (if rm then Some (mdone ++ left_mask n_padded s :: mrest) else None).
Proof.
  intros HT. unfold left_mask.
  pose proof (Nat2Z.is_nonneg (length (rows s))) as HL. fold (len s) in HL.
  destruct rm; [|done].
  unfold set_mask. rewrite list_lookup_middle by done.
  rewrite length_replicate, !slice_bound_inside by lia.
  rewrite insert_middle. unfold fill_ones.
  rewrite take_replicate, drop_replicate.
  change (Z.to_nat 0) with 0%nat. simpl.
  replace (Z.to_nat (Z.min (len s) n_padded) - 0)%nat
    with (Z.to_nat (Z.min (len s) n_padded)) by lia.
  replace (Z.to_nat n_padded - Z.to_nat (Z.min (len s) n_padded))%nat
    with (Z.to_nat (n_padded - Z.min (len s) n_padded)) by lia.
  done.
Qed.

Lemma pad_step_left (n_padded : Z) (d : nat) s (rm : bool)
    done rest mdone mrest lens :
  array2_wf s → ncols s = d → 0 ≤ n_padded → length mdone = length done →
  pad_step astype n_padded false d (length done) s
    (PadState
       (done ++ replicate (Z.to_nat n_padded) (replicate d zero) :: rest)
       (if rm then
          Some (mdone ++ replicate (Z.to_nat n_padded) 0 :: mrest)
        else None)
       lens)
  = Ok (PadState
          (done ++ left_item zero n_padded d (astype_array astype s) :: rest)
          (if rm then Some (mdone ++ left_mask n_padded s :: mrest)
           else None)
          (lens ++ [Z.min (len s) n_padded])).
Proof.
  intros Hwf Hd HT Hm.
  pose proof (set_item_left n_padded d s done rest Hwf Hd HT) as Hitem.
  pose proof (set_mask_left n_padded s rm mdone mrest HT) as Hmask.
  rewrite Hm in Hmask. unfold pad_step. cbn [padded_x mask_x out_lengths].
  by rewrite Hitem, bind_ok, Hmask, bind_ok.
Qed.

Lemma pad_loop_left (n_padded : Z) (d : nat) (rm : bool) x :
  ∀ done mdone lens,
  Forall array2_wf x → Forall (λ s, ncols s = d) x → 0 ≤ n_padded →
  length mdone = length done →
  pad_loop astype n_padded false d (length done) x
    (PadState
       (done ++ replicate (length x)
                  (replicate (Z.to_nat n_padded) (replicate d zero)))
       (if rm then
          Some (mdone ++ replicate (length x)
                           (replicate (Z.to_nat n_padded) 0))
        else None)
       lens)
  = Ok (PadState
          (done ++ ((λ s, left_item zero n_padded d (astype_array astype s)) <$> x))
          (if rm then Some (mdone ++ (left_mask n_padded <$> x))
           else None)
          (lens ++ ((λ s, Z.min (len s) n_padded) <$> x))).
Proof.
  induction x as [|s x IH]; intros done mdone lens Hwf Hd HT Hm.
  - simpl. rewrite !app_nil_r. by destruct rm.
  - apply Forall_cons in Hwf as [Hs Hwf]. apply Forall_cons in Hd as [Es Hd].
    cbn [pad_loop length]. rewrite !replicate_S.
    rewrite pad_step_left by done. rewrite bind_ok.
    specialize (IH (done ++ [left_item zero n_padded d
                               (astype_array astype s)])
                  (mdone ++ [left_mask n_padded s])
                  (lens ++ [Z.min (len s) n_padded]) Hwf Hd HT).
    rewrite !length_app in IH. simpl in IH.
    rewrite <- !app_assoc in IH. simpl in IH.
    replace (length done + 1)%nat with (S (length done)) in IH by lia.
    rewrite IH by lia. rewrite !fmap_cons. done.
Qed.

(** Padding a batch that shares the width of its first sequence, in either
    mode: the call returns the items, masks and lengths of its sequences. *)
Lemma pad_sequences_shared_width (x : list (array2 A)) (n_padded : Z)
    (c rm : bool) (x0 : array2 A) :
  x !! 0%nat = Some x0 →
  Forall array2_wf x → Forall (λ s, ncols s = ncols x0) x → 0 ≤ n_padded →
  np_size [Z.of_nat (length x); n_padded; Z.of_nat (ncols x0)]
  ≤ np_max_size →
  pad_sequences astype zero np_max_size x n_padded c rm
  = Ok (PadState
          ((λ s, padded_item zero c n_padded (ncols x0)
                   (astype_array astype s)) <$> x)
          (if rm then Some (padded_mask c n_padded <$> x) else None)
          ((λ s, Z.min (len s) n_padded) <$> x)).
Proof.
  intros H0 Hwf Hd HT Hfit. destruct c.
  - by apply pad_sequences_centered.
  - unfold pad_sequences.
    rewrite (getitem_first _ _ H0), bind_ok.
    rewrite np_zeros3_ok, (np_zeros2_ok np_max_size _ _ (ncols x0)) by done.
    rewrite bind_ok.
    pose proof (pad_loop_left n_padded (ncols x0) rm x [] [] []
                  Hwf Hd HT eq_refl) as Hloop.
    simpl in Hloop. destruct rm; by rewrite !bind_ok, Hloop.
Qed.

(** Shapes of the items and masks. *)
Lemma padded_item_shape c n_padded d (s : array2 B) :
  array2_wf s → ncols s = d → 0 ≤ n_padded →
  length (padded_item zero c n_padded d s) = Z.to_nat n_padded
  ∧ Forall (λ row, length row = d) (padded_item zero c n_padded d s).
Proof.
  intros Hwf Hd HT.
  pose proof (Nat2Z.is_nonneg (length (rows s))) as HL. fold (len s) in HL.
  assert (Forall (λ row : list B, length row = d) (rows s)) as Hrows
    by (by rewrite <- Hd).
  assert (∀ n, Forall (λ row : list B, length row = d)
                 (replicate n (replicate d zero))) as Hz.
  { intros n. apply Forall_replicate. apply length_replicate. }
  destruct c; simpl.
  - unfold centered_item. case_bool_decide as Hle.
    + destruct (padding_of_fits n_padded (len s)) as [Hp0 HpT]; [lia |].
      split.
      * rewrite !length_app, !length_replicate. unfold len in *. lia.
      * rewrite !Forall_app. by split_and!.
    + destruct (padding_of_window n_padded (len s)) as [Hp0 HpT]; [lia |].
      split.
      * rewrite length_take, length_drop. unfold len in *. lia.
      * by apply Forall_take, Forall_drop.
  - unfold left_item. split.
    + rewrite length_app, length_take, length_replicate. unfold len in *. lia.
    + rewrite Forall_app. split; [by apply Forall_take | done].
Qed.

Lemma padded_mask_shape c n_padded s :
  0 ≤ n_padded →
  length (padded_mask c n_padded s) = Z.to_nat n_padded
  ∧ Forall (λ v, v = 0 ∨ v = 1) (padded_mask c n_padded s)
  ∧ sum_list (padded_mask c n_padded s) = Z.min (len s) n_padded.
Proof.
  intros HT.
  pose proof (Nat2Z.is_nonneg (length (rows s))) as HL. fold (len s) in HL.
  assert (∀ n, Forall (λ v : Z, v = 0 ∨ v = 1) (replicate n 0)) as H0
    by (intros n; apply Forall_replicate; by left).
  assert (∀ n, Forall (λ v : Z, v = 0 ∨ v = 1) (replicate n 1)) as H1
    by (intros n; apply Forall_replicate; by right).
  destruct c; simpl.
  - unfold centered_mask. case_bool_decide as Hle.
    + destruct (padding_of_fits n_padded (len s)) as [Hp0 HpT]; [lia |].
      split_and!.
      * rewrite !length_app, !length_replicate. lia.
      * rewrite !Forall_app. by split_and!.
      * rewrite !sum_list_app, !sum_list_replicate. lia.
    + split_and!; [apply length_replicate | done |].
      rewrite sum_list_replicate. lia.
  - unfold left_mask. split_and!.
    + rewrite length_app, !length_replicate. lia.
    + rewrite Forall_app. by split.
    + rewrite sum_list_app, !sum_list_replicate. lia.
Qed.

Lemma pad_sequences_bad_width x n_padded c rm x0 s :
  x !! 0%nat = Some x0 → s ∈ x → ncols s ≠ ncols x0 → ncols s ≠ 1%nat →
  pad_sequences astype zero np_max_size x n_padded c rm = Raise ValueError.
Proof.
  intros H0 Hs Hd H1.
  destruct (pad_sequences_start astype zero np_max_size x n_padded c rm x0 H0)
    as [Hrun | (HT & Hfit & ->)]; [done |].
  apply (pad_loop_mismatch astype (length x) _ _ _ s); simpl;
    [by rewrite length_replicate | | lia | done ..].
  destruct rm; [|done]. intros m [= <-]. by rewrite length_replicate.
Qed.
End pad_left.

(** ** [trunc_and_limit_dim] *)

Lemma slice_to_nonneg {T} (l : list T) (n : Z) :
  0 ≤ n → slice_to l n = take (Z.to_nat n) l.
Proof.
  intros Hn. unfold slice_to, slice.
  assert (slice_bound (length l) 0 = 0%nat) as ->
    by (unfold slice_bound; rewrite bool_decide_eq_false_2 by lia; lia).
  rewrite Nat.sub_0_r, drop_0. unfold slice_bound.
  rewrite bool_decide_eq_false_2 by lia.
  destruct (decide (n ≤ Z.of_nat (length l))) as [Hle | Hgt].
  - f_equal. lia.
  - rewrite !take_ge by lia. done.
Qed.

Lemma slice_bound_le (n : nat) (i : Z) : (slice_bound n i ≤ n)%nat.
Proof. unfold slice_bound. case_bool_decide; lia. Qed.

Section trunc_facts.
Context {A : Type}.
Implicit Types (a : array2 A) (x : list (array2 A)) (lengths : list Z).

(** With bounds that are not negative the slice keeps the first rows and
    the first entries of each. *)
Lemma array_slice2_nonneg a (max_length d_frame : Z) :
  0 ≤ max_length → 0 ≤ d_frame →
  array_slice2 a max_length d_frame
  = Array2 (ncols a `min` Z.to_nat d_frame)
      (take (Z.to_nat d_frame) <$> take (Z.to_nat max_length) (rows a)).
Proof.
  intros Hm Hd. unfold array_slice2. f_equal.
  - unfold slice_bound. rewrite !bool_decide_eq_false_2 by lia. lia.
  - rewrite slice_to_nonneg by done. apply list_fmap_ext.
    intros i r _. by apply slice_to_nonneg.
Qed.

Lemma array_slice2_wf a (max_length d_frame : Z) :
  array2_wf a → array2_wf (array_slice2 a max_length d_frame).
Proof.
  unfold array2_wf, array_slice2. simpl. intros Hwf.
  apply Forall_fmap, Forall_forall. intros r Hr. simpl.
  apply slice_subseteq in Hr. rewrite Forall_forall in Hwf.
  unfold slice_to, slice. rewrite length_take, length_drop, (Hwf r Hr).
  pose proof (slice_bound_le (ncols a) d_frame). lia.
Qed.

(** The turns for a stretch of sequences that all have a stored length. *)
Lemma trunc_loop_prefix (d_frame max_length : Z) xmid :
  ∀ xdone ldone lmid xtail ltail todo,
  length ldone = length xdone → length lmid = length xmid →
  trunc_loop d_frame max_length
    (seq (length xdone) (length xmid) ++ todo)
    (xdone ++ xmid ++ xtail) (ldone ++ lmid ++ ltail)
  = trunc_loop d_frame max_length todo
      (xdone ++ ((λ a, array_slice2 a max_length d_frame) <$> xmid) ++ xtail)
      (ldone ++ ((λ l, Z.min l max_length) <$> lmid) ++ ltail).
Proof.
  induction xmid as [|a xmid IH];
    intros xdone ldone lmid xtail ltail todo Hl Hm.
  - destruct lmid; [done | discriminate].
  - destruct lmid as [|l lmid]; [discriminate |].
    injection Hm as Hm. cbn [length seq app trunc_loop].
    unfold trunc_step.
    rewrite list_lookup_middle by done.
    rewrite (getitem_lookup _ _ l) by (by apply list_lookup_middle).
    cbn [ts_raised ts_x ts_lengths].
    rewrite insert_middle. rewrite <- Hl at 2. rewrite insert_middle.
    specialize (IH (xdone ++ [array_slice2 a max_length d_frame])
                  (ldone ++ [Z.min l max_length]) lmid xtail ltail todo).
    rewrite !length_app in IH. simpl in IH.
    rewrite <- !app_assoc in IH. simpl in IH.
    replace (length xdone + 1)%nat with (S (length xdone)) in IH by lia.
    rewrite IH by lia. by rewrite !fmap_cons.
Qed.

(** Enough stored lengths: every sequence is cut and every length of a
    sequence updated. *)
Lemma trunc_and_limit_dim_ok x lengths (d_frame max_length : Z) :
  (length x ≤ length lengths)%nat →
  trunc_and_limit_dim x lengths d_frame max_length
  = TruncState
      ((λ a, array_slice2 a max_length d_frame) <$> x)
      (((λ l, Z.min l max_length) <$> take (length x) lengths)
       ++ drop (length x) lengths)
      None.
Proof.
  intros Hlen. unfold trunc_and_limit_dim.
  pose proof (trunc_loop_prefix d_frame max_length x [] []
                (take (length x) lengths) [] (drop (length x) lengths) [])
    as H.
  simpl in H. rewrite !app_nil_r, take_drop in H.
  rewrite H; [done | done |]. rewrite length_take. lia.
Qed.

Lemma array_slice2_len a (max_length d_frame : Z) :
  len (array_slice2 a max_length d_frame)
  = if bool_decide (0 ≤ max_length) then Z.min max_length (len a)
    else Z.max 0 (len a + max_length).
Proof.
  unfold len, array_slice2. simpl. rewrite length_fmap.
  apply slice_to_length.
Qed.

Lemma array_slice2_twice a (m1 d1 m2 d2 : Z) :
  0 ≤ m1 → 0 ≤ d1 → 0 ≤ m2 → 0 ≤ d2 →
  array_slice2 (array_slice2 a m1 d1) m2 d2
  = array_slice2 a (Z.min m1 m2) (Z.min d1 d2).
Proof.
  intros Hm1 Hd1 Hm2 Hd2.
  rewrite (array_slice2_nonneg a m1 d1) by done.
  rewrite !array_slice2_nonneg by (simpl; lia). simpl. f_equal; [lia |].
  rewrite <- fmap_take, take_take, <- list_fmap_compose.
  replace (Z.to_nat m2 `min` Z.to_nat m1)%nat
    with (Z.to_nat (Z.min m1 m2)) by lia.
  apply list_fmap_ext. intros i r _. simpl. rewrite take_take. f_equal. lia.
Qed.

End trunc_facts.

(** ** [apply_model]: keying the embeddings *)

Lemma getitem_exn {T} (l : list T) (i : Z) e :
  getitem l i = Raise e → e = IndexError.
Proof.
  unfold getitem. case_bool_decide; [|by intros [= <-]].
  destruct (l !! _); [done | by intros [= <-]].
Qed.

Lemma mapM_result_Ok {T U} (f : T → result U) (l : list T) (k : list U) :
  Forall2 (λ x y, f x = Ok y) l k → mapM f l = Ok k.
Proof.
  induction 1 as [|x y l k Hxy _ IH]; [done |].
  by rewrite mapM_result_cons, Hxy, bind_ok, IH, bind_ok.
Qed.

Lemma mapM_result_Raise {T U} (f : T → result U) (l : list T) (e : exn) :
  (∀ x e', f x = Raise e' → e' = e) →
  Exists (λ x, ∃ e', f x = Raise e') l → mapM f l = Raise e.
Proof.
  intros Hexn. induction l as [|x l IH]; intros Hex.
  - by apply Exists_nil in Hex.
  - rewrite mapM_result_cons. destruct (f x) as [y | e'] eqn:Ex.
    + rewrite bind_ok. apply Exists_cons in Hex as [[e' He'] | Hex];
        [congruence |].
      by rewrite (IH Hex).
    + by rewrite (Hexn x e' Ex).
Qed.

Lemma mapM_result_exn {T U} (f : T → result U) (l : list T) (e0 e : exn) :
  (∀ x e', f x = Raise e' → e' = e0) → mapM f l = Raise e → e = e0.
Proof.
  intros Hexn. induction l as [|x l IH]; [done |].
  rewrite mapM_result_cons. destruct (f x) as [y | e'] eqn:Ex.
  - rewrite bind_ok. destruct (mapM f l) as [k | e''].
    + by rewrite bind_ok.
    + rewrite bind_raise. intros [= ->]. by apply IH.
  - rewrite bind_raise. intros [= ->]. by apply (Hexn x).
Qed.

Lemma mapM_result_length {T U} (f : T → result U) (l : list T) (k : list U) :
  mapM f l = Ok k → length k = length l.
Proof.
  revert k. induction l as [|x l IH]; intros k Hk.
  - by injection Hk as <-.
  - rewrite mapM_result_cons in Hk.
    apply bind_ok_inv in Hk as (y & _ & Hk).
    apply bind_ok_inv in Hk as (k' & Hk' & Hk).
    injection Hk as <-. simpl. by rewrite (IH k').
Qed.

Section embed_facts.
Context {V : Type}.
Implicit Types (np_z : list V) (m : gmap string V).

(** Distinct keys: each gets the row at its position, other entries are
    untouched, and the dictionary grows by one entry per key. *)
Lemma fill_embed_dict_ok utt_keys np_z : ∀ i m,
  NoDup utt_keys → (i + length utt_keys ≤ length np_z)%nat →
  (∀ k, k ∈ utt_keys → m !! k = None) →
  ∃ m',
    fill_embed_dict i utt_keys np_z m = Ok m'
    ∧ (∀ j k, utt_keys !! j = Some k → m' !! k = np_z !! (i + j)%nat)
    ∧ (∀ k, k ∉ utt_keys → m' !! k = m !! k)
    ∧ size m' = (size m + length utt_keys)%nat.
Proof.
  induction utt_keys as [|k0 ks IH]; intros i m Hnd Hlen Hfresh.
  - exists m. simpl. split_and!; [done | done | done | lia].
  - apply NoDup_cons in Hnd as [Hk0 Hnd]. simpl in Hlen.
    destruct (lookup_lt_is_Some_2 np_z i) as [z Hz]; [lia |].
    destruct (IH (S i) (<[k0 := z]> m) Hnd) as (m' & Hrun & Hin & Hout & Hsz).
    { lia. }
    { intros k Hk. rewrite lookup_insert_ne by (by intros ->).
      apply Hfresh. by right. }
    exists m'. split_and!.
    + cbn [fill_embed_dict]. by rewrite (getitem_lookup _ _ _ Hz), bind_ok.
    + intros [|j] k Hj; simpl in Hj.
      * injection Hj as <-. rewrite Hout by done.
        by rewrite lookup_insert_eq, Nat.add_0_r.
      * rewrite (Hin j k Hj). f_equal. lia.
    + intros k Hk. apply not_elem_of_cons in Hk as [Hne Hk].
      rewrite Hout by done. by rewrite lookup_insert_ne.
    + rewrite Hsz, map_size_insert_None by (apply Hfresh; by left).
      simpl. lia.
Qed.

(** More keys than rows: [np_z[i]] raises. *)
Lemma fill_embed_dict_short utt_keys np_z : ∀ i m,
  (i ≤ length np_z < i + length utt_keys)%nat →
  fill_embed_dict i utt_keys np_z m = Raise IndexError.
Proof.
  induction utt_keys as [|k0 ks IH]; intros i m Hlen; simpl in Hlen.
  - lia.
  - cbn [fill_embed_dict]. rewrite getitem_nat.
    destruct (np_z !! i) as [z|] eqn:Hz; [|done].
    rewrite bind_ok. apply IH. apply lookup_lt_Some in Hz. lia.
Qed.

Lemma selected_keys_ok (keys : list string) (idx : list nat) :
  Forall (λ i, (i < length keys)%nat) idx →
  ∃ ks, selected_keys keys (Z.of_nat <$> idx) = Ok ks
        ∧ taken_at keys idx ks.
Proof.
  intros Hidx. unfold selected_keys.
  assert (∃ ks, taken_at keys idx ks) as [ks Hks].
  { induction Hidx as [|i idx Hi _ [ks IH]]; [exists []; constructor |].
    destruct (lookup_lt_is_Some_2 keys i Hi) as [k Hk].
    exists (k :: ks). by constructor. }
  exists ks. split; [|done]. apply mapM_result_Ok.
  apply Forall2_fmap_l. eapply Forall2_impl; [exact Hks |].
  intros i k Hi. simpl. by apply getitem_lookup.
Qed.
End embed_facts.

(** ** [pad_sequences]: broadcasting of single columns *)

Section pad_widen.
Context {A B : Type} (astype : A → B) (zero : B) (np_max_size : Z).
Implicit Types (s src : array2 A).

Lemma widen_row_length w (r : list A) :
  length r = w ∨ length r = 1%nat → length (widen_row w r) = w.
Proof.
  intros Hr. unfold widen_row. case_bool_decide; [done |].
  destruct Hr as [? | Hr]; [done |].
  destruct r as [|v [|v' r]]; simpl in *; [lia | apply length_replicate | lia].
Qed.

Lemma broadcast_row_widen w (r : list A) :
  length r = w ∨ length r = 1%nat →
  broadcast_row w r = Ok (widen_row w r).
Proof.
  intros Hr. unfold broadcast_row, widen_row. case_bool_decide; [done |].
  destruct Hr as [? | Hr]; [done |].
  destruct r as [|v [|v' r]]; simpl in *; [lia | done | lia].
Qed.

Lemma mapM_broadcast_widen w (rs : list (list A)) :
  Forall (λ r, length r = w ∨ length r = 1%nat) rs →
  mapM (broadcast_row w) rs = Ok (widen_row w <$> rs).
Proof.
  induction 1 as [|r rs Hr _ IH]; [done |].
  by rewrite mapM_result_cons, broadcast_row_widen, bind_ok, IH, bind_ok.
Qed.

Lemma widen_wf w s :
  array2_wf s → ncols s = w ∨ ncols s = 1%nat → array2_wf (widen w s).
Proof.
  unfold array2_wf, widen. simpl. intros Hwf Hw.
  apply Forall_fmap. eapply Forall_impl; [exact Hwf |].
  intros r Hr. simpl in *. apply widen_row_length. by rewrite Hr.
Qed.

(** Broadcasting leaves a sequence of the tensor's width as it is. *)
Lemma widen_same w s : array2_wf s → ncols s = w → widen w s = s.
Proof.
  intros Hwf Hw. destruct s as [c rs]. unfold widen, array2_wf in *.
  simpl in *. subst c. f_equal.
  rewrite <- (list_fmap_id rs) at 2. apply list_fmap_ext.
  intros i r Hr. unfold widen_row. rewrite bool_decide_eq_true_2; [done |].
  rewrite Forall_forall in Hwf. apply Hwf, list_elem_of_lookup. eauto.
Qed.

(** Broadcasting a sequence is storing its widened form. *)
Lemma broadcast_to_widen h w src :
  array2_wf src → ncols src = w ∨ ncols src = 1%nat →
  broadcast_to h w src = broadcast_to h w (widen w src).
Proof.
  intros Hwf Hw.
  assert (Forall (λ r : list A, length r = w ∨ length r = 1%nat) (rows src))
    as Hrows.
  { eapply Forall_impl; [exact Hwf |]. intros r Hr. simpl in Hr.
    by rewrite Hr. }
  unfold broadcast_to. cbn [ncols rows widen]. rewrite length_fmap.
  rewrite (bool_decide_eq_true_2 (ncols src = w ∨ ncols src = 1%nat))
    by done.
  rewrite (bool_decide_eq_true_2 (w = w ∨ w = 1%nat)) by (by left).
  case_bool_decide.
  - rewrite mapM_broadcast_widen by done.
    symmetry. apply mapM_broadcast_same, Forall_fmap.
    eapply Forall_impl; [exact Hrows |]. intros r Hr. simpl.
    by apply widen_row_length.
  - destruct (rows src) as [|r [|r' rs]]; [done | | done].
    apply Forall_cons in Hrows as [Hr _]. simpl.
    rewrite broadcast_row_widen by done.
    by rewrite broadcast_row_same by by apply widen_row_length.
Qed.

Lemma slice_fmap {T U} (f : T → U) (l : list T) a b :
  slice (f <$> l) a b = f <$> slice l a b.
Proof. unfold slice. by rewrite length_fmap, fmap_take, fmap_drop. Qed.

Lemma array_slice_widen w s lo hi :
  array_slice (widen w s) lo hi = widen w (array_slice s lo hi).
Proof. unfold array_slice, widen. simpl. by rewrite slice_fmap. Qed.

Lemma len_widen w s : len (widen w s) = len s.
Proof. unfold len, widen. simpl. by rewrite length_fmap. Qed.

Lemma assign_rows_widen w item lo hi src :
  array2_wf src → ncols src = w ∨ ncols src = 1%nat →
  assign_rows astype w item lo hi src = assign_rows astype w item lo hi (widen w src).
Proof.
  intros Hwf Hw. unfold assign_rows. by rewrite broadcast_to_widen.
Qed.

Lemma pad_step_widen n_padded c d i s st :
  array2_wf s → ncols s = d ∨ ncols s = 1%nat →
  pad_step astype n_padded c d i s st = pad_step astype n_padded c d i (widen d s) st.
Proof.
  intros Hwf Hw. unfold pad_step. rewrite !len_widen.
  unfold set_item_rows, set_item_all.
  destruct (padded_x st !! i) as [item|]; [|done].
  rewrite !array_slice_widen.
  rewrite (assign_rows_widen d item _ _ s) by done.
  rewrite (assign_rows_widen d item _ _ (array_slice s _ _))
    by (by apply array_slice_wf || done).
  rewrite (assign_rows_widen d item _ _
             (array_slice s 0 (Z.min (len s) n_padded)))
    by (by apply array_slice_wf || done).
  done.
Qed.

Lemma pad_loop_widen n_padded c d x : ∀ i st,
  Forall array2_wf x → Forall (λ s, ncols s = d ∨ ncols s = 1%nat) x →
  pad_loop astype n_padded c d i x st
  = pad_loop astype n_padded c d i (widen d <$> x) st.
Proof.
  induction x as [|s x IH]; intros i st Hwf Hw; [done |].
  apply Forall_cons in Hwf as [Hs Hwf]. apply Forall_cons in Hw as [Hws Hw].
  rewrite fmap_cons. cbn [pad_loop]. rewrite <- pad_step_widen by done.
  destruct (pad_step astype n_padded c d i s st) as [st' | e]; [|done].
  rewrite !bind_ok. by apply IH.
Qed.

(** Padding a batch whose sequences have the width of the first one or a
    single column is padding the widened batch. *)
Lemma pad_sequences_widen x n_padded c rm x0 :
  x !! 0%nat = Some x0 →
  Forall array2_wf x →
  Forall (λ s, ncols s = ncols x0 ∨ ncols s = 1%nat) x →
  pad_sequences astype zero np_max_size x n_padded c rm
  = pad_sequences astype zero np_max_size (widen (ncols x0) <$> x) n_padded c rm.
Proof.
  intros H0 Hwf Hw. unfold pad_sequences.
  rewrite (getitem_first _ _ H0), bind_ok.
  rewrite (getitem_first (widen (ncols x0) <$> x) (widen (ncols x0) x0))
    by (by rewrite list_lookup_fmap, H0).
  rewrite bind_ok, length_fmap. cbn [ncols widen].
  destruct (np_zeros3 zero np_max_size (length x) n_padded (ncols x0))
    as [t | e];
    [|done].
  rewrite !bind_ok.
  destruct (if rm then _ else _) as [m | e]; [|done].
  rewrite !bind_ok. by apply pad_loop_widen.
Qed.
End pad_widen.

(** ** Inputs the stage [n_min_tokens_per_type] leaves alone *)

Lemma min_tokens_per_type_stage_fixed {X} (n : Z) (d : lists5 X) :
  aligned d →
  (∀ l, l ∈ labels d → n ≤ Z.of_nat (occurrences l (labels d))) →
  min_tokens_per_type_stage n d = Ok d.
Proof.
  intros Ha Hall.
  destruct (min_tokens_per_type_stage_full n d Ha)
    as (out & idx & Hrun & _). rewrite Hrun. f_equal.
  unfold min_tokens_per_type_stage in Hrun.
  apply keep_types_labels in Hrun as [Hr _]; [|done].
  rewrite filter_all in Hr; [by apply rows_at_self_eq |].
  apply Forall_forall. intros i Hi.
  apply elem_of_seq in Hi as [_ Hi]. simpl in Hi.
  destruct Ha as (Hlen & _).
  destruct (lookup_lt_is_Some_2 (labels d) i) as [l Hl']; [lia |].
  exists l. split; [done |]. apply min_tokens_per_type_types.
  assert (l ∈ labels d) as Hin by (apply list_elem_of_lookup; eauto).
  split; [done |]. by apply Hall.
Qed.

(** * The claims about [load_data_from_npz] *)

(** C6. For an archive and a threshold [m], when every entry longer than [m]
    has a key with at least two segments and some entry is longer than [m],
    [load_data_from_npz] returns; the returned keys are strictly increasing
    in lexicographic order and are exactly the keys of the entries whose row
    count exceeds [m]; the five lists have one length, and at every position
    the data item is the archive entry of the key, the length its row count,
    the label the first and the speaker the second underscore-delimited
    segment of the key. *)
Theorem load_min_length_sorted {A} (npz : gmap string (array2 A)) (m : Z) :
  (∀ k a, npz !! k = Some a → m < len a → well_keyed k) →
  (∃ k a, npz !! k = Some a ∧ m < len a) →
  ∃ out,
    load_data_from_npz npz (Some m) = Ok out
    ∧ StronglySorted string_lt (keys out)
    ∧ (∀ k, k ∈ keys out ↔ ∃ a, npz !! k = Some a ∧ m < len a)
    ∧ length (data out) = length (keys out)
    ∧ length (labels out) = length (keys out)
    ∧ length (lengths out) = length (keys out)
    ∧ length (speakers out) = length (keys out)
    ∧ ∀ i k, keys out !! i = Some k →
        ∃ a w s,
          npz !! k = Some a
          ∧ data out !! i = Some a
          ∧ lengths out !! i = Some (Z.of_nat (length (rows a)))
          ∧ split underscore k !! 0%nat = Some w ∧ labels out !! i = Some w
          ∧ split underscore k !! 1%nat = Some s ∧ speakers out !! i = Some s.
Proof.
  intros Hwk (k0 & a0 & Hk0 & Hlen0).
  destruct (load_data_from_npz_ok npz (Some m)) as (acc & Hrun & Hd).
  { intros k Hk. apply retained_Some in Hk as (a & Ha & Hm). eauto. }
  { exists k0. apply retained_Some. eauto. }
  destruct (retained_keys_spec npz (Some m)) as [Hsorted Hin].
  pose proof (describes_lengths npz _ _ Hd) as (Lx & Ll & Ls & Ln & Lk).
  destruct Hd as (Hkeys & Hx & Hl & Hs & Hn).
  eexists. split; [exact Hrun |]. simpl. rewrite Hkeys.
  split_and!; try done.
  - intros k. by rewrite Hin, retained_Some.
  - intros i k Hi.
    destruct (Forall2_lookup_l _ _ _ _ _ Hx Hi) as (a & Hai & Ha).
    destruct (Forall2_lookup_l _ _ _ _ _ Hl Hi) as (w & Hwi & Hw).
    destruct (Forall2_lookup_l _ _ _ _ _ Hs Hi) as (s & Hsi & Hsp).
    destruct (Forall2_lookup_l _ _ _ _ _ Hn Hi) as (n & Hni & a' & Ha' & ->).
    exists a, w, s. split_and!; try done.
    rewrite Hni. by replace a' with a by congruence.
Qed.

(** C7. Whenever some retained key does not split into at least two
    underscore-delimited segments, in particular when it contains no
    underscore, [load_data_from_npz] raises (the [IndexError] of
    [utt_key_split[1]], inside the loop) and returns nothing. *)
Theorem load_malformed_key_raises {A} (npz : gmap string (array2 A))
    (min_length : option Z) (k : string) :
  retained npz min_length k →
  ¬ well_keyed k ∨ underscore ∉ list_ascii_of_string k →
  load_loop npz min_length (sorted (map_to_list npz).*1)
    (LoadAcc [] [] [] [] []) = Raise IndexError
  ∧ load_data_from_npz npz min_length = Raise IndexError.
Proof.
  intros Hr Hbad.
  assert (¬ well_keyed k) as Hk
    by (rewrite well_keyed_underscore; destruct Hbad as [H | H];
        [by rewrite <- well_keyed_underscore | done]).
  assert (load_loop npz min_length (sorted (map_to_list npz).*1)
            (LoadAcc [] [] [] [] []) = Raise IndexError) as Hloop.
  { destruct (sorted_keys_spec npz) as [_ Hall].
    apply (load_loop_malformed npz min_length _ _ k); [| | done | done].
    - intros k'. apply Hall.
    - apply Hall. destruct Hr as (a & -> & _). eauto. }
  split; [done |]. unfold load_data_from_npz. by rewrite Hloop.
Qed.

(** C10. When no entry of the archive is retained (the archive has no keys,
    or [min_length] drops every entry) [load_data_from_npz] raises, on
    [x[0]], instead of returning five empty lists; hence whenever it returns,
    the returned lists are not empty and hold a retained entry. *)
Theorem load_nothing_retained_raises {A} (npz : gmap string (array2 A))
    (min_length : option Z) :
  ((∀ k, ¬ retained npz min_length k) →
   load_data_from_npz npz min_length = Raise IndexError)
  ∧ (∀ out, load_data_from_npz npz min_length = Ok out →
       data out ≠ [] ∧ ∃ k, k ∈ keys out ∧ retained npz min_length k).
Proof.
  destruct (retained_keys_spec npz min_length) as [_ Hin].
  destruct (sorted_keys_spec npz) as [_ Hall].
  split.
  - intros Hnone. unfold load_data_from_npz.
    destruct (load_loop npz min_length _ _) as [acc | e] eqn:Hrun.
    + rewrite bind_ok. apply load_loop_Ok_describes in Hrun.
      apply describes_lengths in Hrun as (Hx & _).
      destruct (filter (retained npz min_length) (sorted (map_to_list npz).*1))
        as [|k ks] eqn:E.
      * destruct (acc_x acc); [done | discriminate].
      * destruct (Hnone k). apply Hin. by left.
    + rewrite bind_raise. f_equal.
      by destruct (load_loop_raises_IndexError npz min_length e Hrun).
  - intros out Hout.
    apply load_data_from_npz_Ok_inv in Hout as (acc & Hrun & Hne & ->).
    simpl. split; [done |]. apply load_loop_Ok_describes in Hrun.
    apply describes_lengths in Hrun as Hlen. destruct Hlen as (Hx & _).
    destruct Hrun as (-> & _).
    destruct (filter (retained npz min_length) (sorted (map_to_list npz).*1))
      as [|k ks] eqn:E.
    + destruct (acc_x acc); [done | discriminate].
    + exists k. split; [by left |]. apply Hin. by left.
Qed.

(** The claims about loading, on the sample archive. *)

Lemma demo_npz_long_keys k (a : array2 Z) :
  demo_npz !! k = Some a → 2 < len a → well_keyed k.
Proof.
  unfold demo_npz. intros H Hlen.
  repeat (apply lookup_insert_Some in H as [[<- <-] | [_ H]];
          [first [by vm_compute in Hlen | unfold well_keyed; simpl; lia] |]).
  by rewrite lookup_empty in H.
Defined.

Lemma load_min_length_sorted_witness :
  (∀ k a, demo_npz !! k = Some a → 2 < len a → well_keyed k)
  ∧ (∃ k a, demo_npz !! k = Some a ∧ 2 < len a)
  ∧ ∃ out,
      load_data_from_npz demo_npz (Some 2) = Ok out
      ∧ StronglySorted string_lt (keys out)
      ∧ ∀ k, k ∈ keys out ↔ ∃ a, demo_npz !! k = Some a ∧ 2 < len a.
Proof.
  assert (∃ k a, demo_npz !! k = Some a ∧ 2 < len a) as Hsome.
  { exists "dog_s2_x", demo_long. split; [reflexivity |].
    unfold len; simpl; lia. }
  split; [exact demo_npz_long_keys |]. split; [exact Hsome |].
  destruct (load_min_length_sorted demo_npz 2 demo_npz_long_keys Hsome)
    as (out & Hrun & Hsorted & Hkeys & _).
  exists out. split; [exact Hrun |]. split; [exact Hsorted | exact Hkeys].
Defined.

Lemma load_malformed_key_raises_witness :
  retained demo_npz (Some 0) "bad"
  ∧ (¬ well_keyed "bad" ∨ underscore ∉ list_ascii_of_string "bad")
  ∧ load_data_from_npz demo_npz (Some 0) = Raise IndexError.
Proof.
  assert (retained demo_npz (Some 0) "bad") as Hr.
  { exists demo_narrow. split; reflexivity. }
  assert (¬ well_keyed "bad") as Hbad.
  { unfold well_keyed. simpl. lia. }
  split; [exact Hr |]. split; [left; exact Hbad |].
  exact (proj2 (load_malformed_key_raises demo_npz (Some 0) "bad" Hr
                  (or_introl Hbad))).
Defined.

Lemma load_nothing_retained_raises_witness :
  (∀ k, ¬ retained demo_npz (Some 5) k)
  ∧ load_data_from_npz demo_npz (Some 5) = Raise IndexError.
Proof.
  assert (∀ k, ¬ retained demo_npz (Some 5) k) as Hnone.
  { intros k (a & H & Hs). unfold demo_npz in H.
    repeat (apply lookup_insert_Some in H as [[<- <-] | [_ H]];
            [by vm_compute in Hs |]).
    by rewrite lookup_empty in H. }
  split; [exact Hnone |].
  exact (proj1 (load_nothing_retained_raises demo_npz (Some 5)) Hnone).
Defined.

(** * The claims about [filter_data] *)

(** C3. On five lists of one length [filter_data] returns, and
    - with [n_max_types = k], [k] a number of types, the labels of the
      result take at most [k] distinct values, all among the labels that
      [most_common(k)] selects from the input: at most [k] labels of the
      input, none of the other labels occurring more often than a selected
      one;
    - with [n_max_tokens_per_type = m], every label of the result occurs at
      most [m] times in it;
    - and both hold of the one result when both constraints are given,
      whatever the other two constraints are. *)
Theorem filter_data_type_and_token_bounds {X rng} (seed : Z → rng)
    (shuffle : rng → list nat → list nat * rng) (g0 : rng)
    (d : lists5 X) (c : constraints) :
  (∀ g l, (shuffle g l).1 ≡ₚ l) →
  aligned d →
  ∃ out,
    filter_data seed shuffle g0 d c = Ok out
    ∧ (∀ k, n_max_types c = Some k → 0 ≤ k →
         Z.of_nat (distinct (labels out)) ≤ k
         ∧ (∀ l, l ∈ labels out → l ∈ top_labels (labels d) k)
         ∧ Z.of_nat (length (top_labels (labels d) k)) ≤ k
         ∧ (∀ l, l ∈ top_labels (labels d) k → l ∈ labels d)
         ∧ (∀ l l', l ∈ top_labels (labels d) k → l' ∈ labels d →
              l' ∉ top_labels (labels d) k →
              (occurrences l' (labels d) ≤ occurrences l (labels d))%nat))
    ∧ (∀ m, n_max_tokens_per_type c = Some m →
         ∀ l, l ∈ labels out → Z.of_nat (occurrences l (labels out)) ≤ m).
Proof.
  intros Hperm Ha. unfold filter_data.
  destruct (filter_stages_ok shuffle Hperm (seed 1) d c Ha)
    as (out & idx & Hrun & _ & Htypes & Hcap).
  exists out. split_and!; [done | | done].
  intros k Hk Hk0. destruct (top_labels_spec (labels d) k Hk0) as (Hn & Hin & Htop).
  split_and!; [| by apply Htypes | done | done | done].
  pose proof (distinct_le_of_subseteq (labels out) (top_labels (labels d) k)
                (Htypes k Hk)). lia.
Qed.

(** C4. [filter_data] is deterministic: its result does not depend on the
    state the generator is in when it is called, because [random.seed(1)]
    comes first; the seed is set once, the stage [n_max_tokens_per_type]
    shuffling from the state the stage [n_max_tokens] has left. *)
Theorem filter_data_deterministic {X rng} (seed : Z → rng)
    (shuffle : rng → list nat → list nat * rng) (g g' : rng)
    (d : lists5 X) (c : constraints) :
  filter_data seed shuffle g d c = filter_data seed shuffle g' d c
  ∧ ∀ n m,
      filter_data seed shuffle g d (Constraints None None (Some n) (Some m))
      = '(d2, g2) ← max_tokens_stage shuffle n d (seed 1);
        '(d4, _) ← max_tokens_per_type_stage shuffle m d2 g2;
        Ok d4.
Proof.
  split; [reflexivity |]. intros n m. unfold filter_data, filter_stages.
  simpl. destruct (max_tokens_stage shuffle n d (seed 1)) as [[d2 g2]|e];
    reflexivity.
Qed.

(** C5. With the four constraints absent [filter_data] returns its input:
    the same five lists. *)
Theorem filter_data_no_constraints {X rng} (seed : Z → rng)
    (shuffle : rng → list nat → list nat * rng) (g0 : rng) (d : lists5 X) :
  filter_data seed shuffle g0 d (Constraints None None None None) = Ok d.
Proof. reflexivity. Qed.

(** C9. The five lists stay parallel. [load_data_from_npz] either raises or
    returns five lists of one length; and on five lists of one length, with
    any constraints, [filter_data] returns five lists of one length together
    with which there is a list [idx] of input positions such that entry [j]
    of each of the five output lists is entry [idx !! j] of the corresponding
    input list. *)
Theorem parallel_lists_invariant {A X rng} (seed : Z → rng)
    (shuffle : rng → list nat → list nat * rng) (g0 : rng)
    (npz : gmap string (array2 A)) (min_length : option Z)
    (d : lists5 X) (c : constraints) :
  (∀ g l, (shuffle g l).1 ≡ₚ l) →
  aligned d →
  (load_data_from_npz npz min_length = Raise IndexError
   ∨ ∃ out, load_data_from_npz npz min_length = Ok out ∧ aligned out)
  ∧ ∃ out idx,
      filter_data seed shuffle g0 d c = Ok out
      ∧ aligned out
      ∧ length idx = length (data out)
      ∧ ∀ j i, idx !! j = Some i →
          is_Some (data d !! i)
          ∧ data out !! j = data d !! i
          ∧ labels out !! j = labels d !! i
          ∧ lengths out !! j = lengths d !! i
          ∧ keys out !! j = keys d !! i
          ∧ speakers out !! j = speakers d !! i.
Proof.
  intros Hperm Ha. split.
  - unfold load_data_from_npz.
    destruct (load_loop_cases npz min_length) as [(acc & -> & Hd) | ->];
      [|by left].
    rewrite bind_ok. destruct (acc_x acc) as [|a0 x'] eqn:Ex; [by left |].
    right. rewrite (getitem_first _ a0) by done. rewrite bind_ok.
    eexists. split; [done |].
    apply describes_lengths in Hd as (Lx & Ll & Ls & Ln & Lk).
    rewrite Ex in Lx. unfold aligned; simpl in *. split_and!; congruence.
  - unfold filter_data.
    destruct (filter_stages_ok shuffle Hperm (seed 1) d c Ha)
      as (out & idx & Hrun & Hr & _).
    destruct (rows_at_aligned _ _ _ Hr) as [Hal Hlen].
    exists out, idx. split_and!; [done | done | done |].
    intros j i Hj. by apply (rows_at_lookup d out idx).
Qed.

(** The claims about filtering, on the sample tokens. *)

Lemma demo_shuffle_perm g l : (demo_shuffle g l).1 ≡ₚ l.
Proof. apply reverse_Permutation. Defined.

Lemma demo_data_aligned : aligned demo_data.
Proof. repeat split. Defined.

Lemma filter_data_type_and_token_bounds_witness :
  (∀ g l, (demo_shuffle g l).1 ≡ₚ l)
  ∧ aligned demo_data
  ∧ ∃ out,
      filter_data demo_seed demo_shuffle 7%nat demo_data
        (Constraints None (Some 2) None (Some 2)) = Ok out
      ∧ Z.of_nat (distinct (labels out)) ≤ 2
      ∧ ∀ l, l ∈ labels out → Z.of_nat (occurrences l (labels out)) ≤ 2.
Proof.
  split; [exact demo_shuffle_perm |]. split; [exact demo_data_aligned |].
  destruct (filter_data_type_and_token_bounds demo_seed demo_shuffle 7%nat
              demo_data (Constraints None (Some 2) None (Some 2))
              demo_shuffle_perm demo_data_aligned)
    as (out & Hrun & Htypes & Hcap).
  exists out. split; [exact Hrun |]. split.
  - apply (Htypes 2 eq_refl). lia.
  - exact (Hcap 2 eq_refl).
Defined.

Lemma parallel_lists_invariant_witness :
  (∀ g l, (demo_shuffle g l).1 ≡ₚ l)
  ∧ aligned demo_data
  ∧ (∃ out, load_data_from_npz demo_npz (Some 2) = Ok out ∧ aligned out)
  ∧ ∃ out,
      filter_data demo_seed demo_shuffle 7%nat demo_data
        (Constraints (Some 2) None (Some 5) None) = Ok out
      ∧ aligned out.
Proof.
  split; [exact demo_shuffle_perm |]. split; [exact demo_data_aligned |].
  destruct (parallel_lists_invariant demo_seed demo_shuffle 7%nat demo_npz
              (Some 2) demo_data (Constraints (Some 2) None (Some 5) None)
              demo_shuffle_perm demo_data_aligned)
    as [Hload (out & idx & Hrun & Hal & _)].
  split.
  - destruct Hload as [Hraise | Hok]; [|exact Hok].
    vm_compute in Hraise. discriminate Hraise.
  - exists out. split; [exact Hrun | exact Hal].
Defined.
(** * The claims about [pad_sequences] *)

(** C1, as the code has it. Centred padding of a batch of two-dimensional
    sequences that share the width [d] of the first one, for a tensor NumPy
    can create: the call returns, and for every sequence [s] of the batch
    with [L = len s ≤ n_padded], with [offset] the midpoint
    [(n_padded - L) / 2] rounded half to even, the item of [s] holds in rows
    [offset .. offset + L - 1] the rows of [s] with every entry converted to
    [NP_DTYPE], between rows of zeros; wherever the conversion can be
    undone on the entries of [s], undoing it on these rows gives [s] back;
    the reported length is [L], and the mask row, when requested, is 1 on
    [offset .. offset + L - 1] and 0 elsewhere, so that it sums to [L]. *)
Theorem pad_centered_short {A B} (astype : A → B) (zero : B)
    (np_max_size : Z) (x : list (array2 A)) (n_padded : Z)
    (return_mask : bool) (x0 s : array2 A) (i : nat) :
  Forall array2_wf x →
  x !! 0%nat = Some x0 →
  Forall (λ s', ncols s' = ncols x0) x →
  np_size [Z.of_nat (length x); n_padded; Z.of_nat (ncols x0)]
  ≤ np_max_size →
  x !! i = Some s →
  len s ≤ n_padded →
  let L := len s in
  let offset := padding_of n_padded L in
  let d := ncols x0 in
  ∃ st item,
    pad_sequences astype zero np_max_size x n_padded true return_mask = Ok st
    ∧ -1 ≤ 2 * offset - (n_padded - L) ≤ 1
    ∧ (Z.odd (n_padded - L) = true → Z.even offset = true)
    ∧ 0 ≤ offset ∧ offset + L ≤ n_padded
    ∧ padded_x st !! i = Some item
    ∧ item
      = replicate (Z.to_nat offset) (replicate d zero)
        ++ astype_rows astype (rows s)
        ++ replicate (Z.to_nat (n_padded - offset - L)) (replicate d zero)
    ∧ take (Z.to_nat L) (drop (Z.to_nat offset) item)
      = astype_rows astype (rows s)
    ∧ (∀ back : B → A,
         Forall (Forall (λ v, back (astype v) = v)) (rows s) →
         astype_rows back (take (Z.to_nat L) (drop (Z.to_nat offset) item))
         = rows s)
    ∧ out_lengths st !! i = Some L
    ∧ if return_mask then
        ∃ m,
          mask_x st = Some m
          ∧ m !! i
            = Some (replicate (Z.to_nat offset) 0
                    ++ replicate (Z.to_nat L) 1
                    ++ replicate (Z.to_nat (n_padded - offset - L)) 0)
          ∧ ∀ row, m !! i = Some row → sum_list row = L
      else mask_x st = None.
Proof.
  intros Hwf H0 Hd Hfit Hi Hle L offset d.
  pose proof (Nat2Z.is_nonneg (length (rows s))) as HL. fold (len s) in HL.
  destruct (padding_of_half_even n_padded L) as [Hhalf Heven].
  destruct (padding_of_fits n_padded L) as [Hp0 HpT]; [unfold L; lia |].
  fold offset in Hhalf, Heven, Hp0, HpT.
  set (item := replicate (Z.to_nat offset) (replicate d zero)
               ++ astype_rows astype (rows s)
               ++ replicate (Z.to_nat (n_padded - offset - L))
                    (replicate d zero)).
  assert (take (Z.to_nat L) (drop (Z.to_nat offset) item)
          = astype_rows astype (rows s)) as Hblock.
  { unfold item.
    rewrite drop_app_length' by (by rewrite length_replicate).
    rewrite take_app_length'; [done |].
    rewrite astype_rows_length. unfold L, len. lia. }
  eexists. exists item.
  split; [by apply (pad_sequences_centered astype zero _ x _ _ x0); try lia |].
  cbn [padded_x mask_x out_lengths]. split_and!; try lia.
  - done.
  - rewrite list_lookup_fmap, Hi. simpl. unfold centered_item.
    rewrite len_astype_array. by rewrite bool_decide_eq_true_2.
  - done.
  - done.
  - intros back Hback. rewrite Hblock. by apply astype_rows_undone.
  - rewrite list_lookup_fmap, Hi. simpl. f_equal. unfold L. lia.
  - destruct return_mask; [|done].
    eexists. split; [done |].
    rewrite list_lookup_fmap, Hi. simpl. unfold centered_mask.
    rewrite bool_decide_eq_true_2 by done. split; [done |].
    intros row [= <-].
    rewrite !sum_list_app, !sum_list_replicate. unfold L in *. lia.
Qed.

(** C2, as the code has it. Centred padding of such a batch with a sequence
    [s] longer than the target, [L = len s > n_padded ≥ 0]: with [offset] as
    before, the item of [s] is the window of exactly [n_padded] rows of [s]
    that starts at row [- offset], every entry converted to [NP_DTYPE];
    wherever the conversion can be undone on the entries of [s], undoing it
    on the item gives that window of [s] itself; the window lies inside the
    sequence and is centred, the rows left out before and after it differing
    by at most one in number; the reported length is [n_padded] and the mask
    row, when requested, is all ones. *)
Theorem pad_centered_crop {A B} (astype : A → B) (zero : B)
    (np_max_size : Z) (x : list (array2 A)) (n_padded : Z)
    (return_mask : bool) (x0 s : array2 A) (i : nat) :
  Forall array2_wf x →
  x !! 0%nat = Some x0 →
  Forall (λ s', ncols s' = ncols x0) x →
  np_size [Z.of_nat (length x); n_padded; Z.of_nat (ncols x0)]
  ≤ np_max_size →
  x !! i = Some s →
  0 ≤ n_padded < len s →
  let L := len s in
  let offset := padding_of n_padded L in
  let window := take (Z.to_nat n_padded) (drop (Z.to_nat (- offset)) (rows s))
  in
  ∃ st item,
    pad_sequences astype zero np_max_size x n_padded true return_mask = Ok st
    ∧ -1 ≤ 2 * offset - (n_padded - L) ≤ 1
    ∧ (Z.odd (n_padded - L) = true → Z.even offset = true)
    ∧ 0 ≤ - offset ∧ - offset + n_padded ≤ L
    ∧ -1 ≤ (- offset) - (L - (- offset + n_padded)) ≤ 1
    ∧ padded_x st !! i = Some item
    ∧ item = astype_rows astype window
    ∧ (∀ back : B → A,
         Forall (Forall (λ v, back (astype v) = v)) (rows s) →
         astype_rows back item = window)
    ∧ length item = Z.to_nat n_padded
    ∧ out_lengths st !! i = Some n_padded
    ∧ if return_mask then
        ∃ m, mask_x st = Some m
             ∧ m !! i = Some (replicate (Z.to_nat n_padded) 1)
      else mask_x st = None.
Proof.
  intros Hwf H0 Hd Hfit Hi Hlt L offset window.
  destruct (padding_of_half_even n_padded L) as [Hhalf Heven].
  destruct (padding_of_window n_padded L) as [Hp0 HpT]; [done |].
  fold offset in Hhalf, Heven, Hp0, HpT.
  eexists. exists (centered_item zero n_padded (ncols x0)
                     (astype_array astype s)).
  split; [by apply (pad_sequences_centered astype zero _ x _ _ x0); try lia |].
  assert (centered_item zero n_padded (ncols x0) (astype_array astype s)
          = astype_rows astype window) as Hitem.
  { unfold centered_item. rewrite len_astype_array.
    rewrite bool_decide_eq_false_2 by lia. cbn [rows astype_array].
    unfold window. by rewrite astype_rows_take, astype_rows_drop. }
  cbn [padded_x mask_x out_lengths]. split_and!; try done; try lia.
  - by rewrite list_lookup_fmap, Hi.
  - intros back Hback. rewrite Hitem. apply astype_rows_undone.
    unfold window. by apply Forall_take, Forall_drop.
  - rewrite Hitem, astype_rows_length. unfold window.
    rewrite length_take, length_drop. unfold L, len in *. lia.
  - rewrite list_lookup_fmap, Hi. simpl. f_equal. lia.
  - destruct return_mask; [|done].
    eexists. split; [done |].
    rewrite list_lookup_fmap, Hi. simpl. unfold centered_mask.
    by rewrite bool_decide_eq_false_2 by lia.
Qed.

(** C8, as the code has it. [pad_sequences] raises (NumPy's [ValueError]
    for shapes that cannot be broadcast) and returns nothing whenever some
    sequence of the batch has a width that is neither the width of the first
    sequence nor 1, in either padding mode and with or without a mask. *)
Theorem pad_sequences_width_mismatch_raises {A B} (astype : A → B)
    (zero : B) (np_max_size : Z) (x : list (array2 A)) (n_padded : Z)
    (center_padded return_mask : bool) (x0 s : array2 A) :
  x !! 0%nat = Some x0 →
  s ∈ x →
  ncols s ≠ ncols x0 →
  ncols s ≠ 1%nat →
  pad_sequences astype zero np_max_size x n_padded center_padded return_mask
  = Raise ValueError.
Proof.
  intros H0 Hs Hd H1.
  destruct (pad_sequences_start astype zero np_max_size x n_padded
              center_padded return_mask x0 H0)
    as [Hrun | (HT & Hfit & ->)]; [done |].
  apply (pad_loop_mismatch astype (length x) _ _ _ s); simpl;
    [by rewrite length_replicate | | lia | done ..].
  destruct return_mask; [|done].
  intros m [= <-]. by rewrite length_replicate.
Qed.

(** The claims about padding, on the sample batch with target length 4. *)

Lemma demo_batch_wf : Forall array2_wf demo_batch.
Proof. repeat constructor. Defined.

Lemma demo_batch_width : Forall (λ s, ncols s = ncols demo_short) demo_batch.
Proof. repeat constructor. Defined.

Lemma demo_batch_fits (n_padded : Z) :
  0 ≤ n_padded ≤ 1000 →
  np_size [Z.of_nat (length demo_batch); n_padded;
           Z.of_nat (ncols demo_short)] ≤ demo_max_size.
Proof.
  intros H. unfold np_size. simpl. change demo_max_size with
    2305843009213693951. case_bool_decide; lia.
Defined.

Lemma pad_centered_short_witness :
  Forall array2_wf demo_batch
  ∧ demo_batch !! 0%nat = Some demo_short
  ∧ Forall (λ s, ncols s = ncols demo_short) demo_batch
  ∧ np_size [Z.of_nat (length demo_batch); 4; Z.of_nat (ncols demo_short)]
    ≤ demo_max_size
  ∧ demo_batch !! 0%nat = Some demo_short
  ∧ len demo_short ≤ 4
  ∧ ∃ st,
      pad_sequences float32_of_Z 0 demo_max_size demo_batch 4 true true
      = Ok st
      ∧ padded_x st !! 0%nat = Some [[0; 0]; [1; 2]; [3; 4]; [0; 0]]
      ∧ out_lengths st !! 0%nat = Some 2.
Proof.
  assert (len demo_short ≤ 4) as Hle by (unfold len; simpl; lia).
  assert (0 ≤ 4 ≤ 1000) as H4 by lia.
  split; [exact demo_batch_wf |]. split; [reflexivity |].
  split; [exact demo_batch_width |]. split; [exact (demo_batch_fits 4 H4) |].
  split; [reflexivity |]. split; [exact Hle |].
  destruct (pad_centered_short float32_of_Z 0 demo_max_size demo_batch 4
              true demo_short demo_short 0 demo_batch_wf eq_refl
              demo_batch_width (demo_batch_fits 4 H4) eq_refl Hle)
    as (st & item & Hrun & _ & _ & _ & _ & Hitem & Heq & _ & _ & Hlen & _).
  exists st. split; [exact Hrun |]. split; [|exact Hlen].
  rewrite Hitem, Heq. reflexivity.
Defined.

(** C1, as stated, fails: the tensor has dtype [NP_DTYPE], so an entry that
    [NP_DTYPE] does not hold is stored rounded. With [float32], the block of
    a sequence whose entry is [2^24 + 1] holds [2^24], not the original. *)
Lemma pad_centered_block_rounded :
  len demo_precise ≤ 1
  ∧ padding_of 1 (len demo_precise) = 0
  ∧ pad_sequences float32_of_Z 0 demo_max_size [demo_precise] 1 true false
    = Ok (PadState [[[16777216]]] None [1])
  ∧ take (Z.to_nat (len demo_precise)) (drop 0 [[16777216]])
    ≠ rows demo_precise.
Proof.
  split; [unfold len; simpl; lia |]. split; [vm_compute; reflexivity |].
  split; [vm_compute; reflexivity |]. simpl. discriminate.
Qed.

Lemma pad_centered_crop_witness :
  Forall array2_wf demo_batch
  ∧ demo_batch !! 0%nat = Some demo_short
  ∧ Forall (λ s, ncols s = ncols demo_short) demo_batch
  ∧ np_size [Z.of_nat (length demo_batch); 2; Z.of_nat (ncols demo_short)]
    ≤ demo_max_size
  ∧ demo_batch !! 1%nat = Some demo_long
  ∧ 0 ≤ 2 < len demo_long
  ∧ ∃ st,
      pad_sequences float32_of_Z 0 demo_max_size demo_batch 2 true true
      = Ok st
      ∧ padded_x st !! 1%nat = Some [[3; 3]; [4; 4]]
      ∧ out_lengths st !! 1%nat = Some 2.
Proof.
  assert (0 ≤ 2 < len demo_long) as Hlt by (unfold len; simpl; lia).
  assert (0 ≤ 2 ≤ 1000) as H2 by lia.
  split; [exact demo_batch_wf |]. split; [reflexivity |].
  split; [exact demo_batch_width |]. split; [exact (demo_batch_fits 2 H2) |].
  split; [reflexivity |]. split; [exact Hlt |].
  destruct (pad_centered_crop float32_of_Z 0 demo_max_size demo_batch 2
              true demo_short demo_long 1 demo_batch_wf eq_refl
              demo_batch_width (demo_batch_fits 2 H2) eq_refl Hlt)
    as (st & item & Hrun & _ & _ & _ & _ & _ & Hitem & Heq & _ & _ & Hlen
        & _).
  exists st. split; [exact Hrun |]. split; [|exact Hlen].
  rewrite Hitem, Heq. reflexivity.
Defined.

(** C2, as stated, fails for the same reason: with [float32], the window cut
    out of a sequence of three rows for a target of one row is its middle
    row, stored as [2^24] where the sequence has [2^24 + 1]. *)
Lemma pad_centered_window_rounded :
  0 ≤ 1 < len demo_precise_long
  ∧ - padding_of 1 (len demo_precise_long) = 1
  ∧ pad_sequences float32_of_Z 0 demo_max_size [demo_precise_long] 1 true
      false
    = Ok (PadState [[[16777216]]] None [1])
  ∧ [[16777216]] ≠ take 1 (drop 1 (rows demo_precise_long)).
Proof.
  split; [unfold len; simpl; lia |]. split; [vm_compute; reflexivity |].
  split; [vm_compute; reflexivity |]. simpl. discriminate.
Qed.

(** C8, as stated, fails: a sequence with one feature column in a batch of
    width 2 is not refused; NumPy broadcasts its column over both features,
    in either padding mode. *)
Lemma pad_sequences_single_column_broadcast :
  ncols demo_narrow ≠ ncols demo_short
  ∧ pad_sequences float32_of_Z 0 demo_max_size [demo_short; demo_narrow] 2
      true false
    = Ok (PadState [[[1; 2]; [3; 4]]; [[7; 7]; [0; 0]]] None [2; 1])
  ∧ pad_sequences float32_of_Z 0 demo_max_size [demo_short; demo_narrow] 2
      false false
    = Ok (PadState [[[1; 2]; [3; 4]]; [[7; 7]; [0; 0]]] None [2; 1]).
Proof.
  split; [simpl; lia |]. split; vm_compute; reflexivity.
Qed.

Lemma pad_sequences_width_mismatch_raises_witness :
  [demo_short; demo_wide] !! 0%nat = Some demo_short
  ∧ demo_wide ∈ [demo_short; demo_wide]
  ∧ ncols demo_wide ≠ ncols demo_short
  ∧ ncols demo_wide ≠ 1%nat
  ∧ pad_sequences float32_of_Z 0 demo_max_size [demo_short; demo_wide] 4
      true true
    = Raise ValueError.
Proof.
  assert (demo_wide ∈ [demo_short; demo_wide]) as Hin
    by (right; left).
  assert (ncols demo_wide ≠ ncols demo_short) as Hd by (simpl; lia).
  assert (ncols demo_wide ≠ 1%nat) as H1 by (simpl; lia).
  split; [reflexivity |]. split; [exact Hin |]. split; [exact Hd |].
  split; [exact H1 |].
  exact (pad_sequences_width_mismatch_raises float32_of_Z 0 demo_max_size
           [demo_short; demo_wide] 4 true true demo_short demo_wide eq_refl
           Hin Hd H1).
Defined.

(** * Further properties of [load_data_from_npz] *)

(** X1. Without [min_length] nothing is dropped: for a non-empty archive
    all of whose keys have two segments, [load_data_from_npz] returns one
    entry per key of the archive, the keys in strictly increasing order. *)
Theorem load_without_min_length {A} (npz : gmap string (array2 A)) :
  (∀ k, is_Some (npz !! k) → well_keyed k) →
  npz ≠ ∅ →
  ∃ out,
    load_data_from_npz npz None = Ok out
    ∧ StronglySorted string_lt (keys out)
    ∧ (∀ k, k ∈ keys out ↔ is_Some (npz !! k))
    ∧ length (keys out) = size npz
    ∧ length (data out) = size npz
    ∧ ∀ i k, keys out !! i = Some k → data out !! i = npz !! k.
Proof.
  intros Hwk Hne.
  destruct (load_data_from_npz_ok npz None) as (acc & Hrun & Hd).
  { intros k Hk. by apply Hwk, retained_None. }
  { destruct (map_choose npz Hne) as (k & a & Hk).
    exists k. apply retained_None. eauto. }
  destruct (sorted_keys_spec npz) as [Hsorted Hin].
  rewrite filter_all in Hd.
  2:{ apply Forall_forall. intros k Hk. by apply retained_None, Hin. }
  pose proof (describes_lengths npz _ _ Hd) as (Lx & _ & _ & _ & Lk).
  destruct Hd as (Hkeys & Hx & _).
  eexists. split; [exact Hrun |]. simpl. rewrite Hkeys.
  split_and!; [done | done | apply sorted_keys_length | |].
  - by rewrite Lx, sorted_keys_length.
  - intros i k Hi.
    destruct (Forall2_lookup_l _ _ _ _ _ Hx Hi) as (a & -> & ->). done.
Qed.

Lemma load_without_min_length_witness :
  (∀ k, is_Some (({["ant_s3" := demo_mid]} : gmap string (array2 Z)) !! k) →
        well_keyed k)
  ∧ ({["ant_s3" := demo_mid]} : gmap string (array2 Z)) ≠ ∅
  ∧ ∃ out,
      load_data_from_npz ({["ant_s3" := demo_mid]} : gmap string (array2 Z))
        None = Ok out
      ∧ length (keys out) = 1%nat.
Proof.
  assert (∀ k,
    is_Some (({["ant_s3" := demo_mid]} : gmap string (array2 Z)) !! k) →
    well_keyed k) as Hwk.
  { intros k [a Ha]. apply lookup_singleton_Some in Ha as [<- _].
    unfold well_keyed. simpl. lia. }
  assert (({["ant_s3" := demo_mid]} : gmap string (array2 Z)) ≠ ∅) as Hne
    by apply insert_non_empty.
  split; [exact Hwk |]. split; [exact Hne |].
  destruct (load_without_min_length _ Hwk Hne)
    as (out & Hrun & _ & _ & Hlen & _).
  exists out. split; [exact Hrun | exact Hlen].
Defined.

(** X2. Whenever [load_data_from_npz] returns, every returned key starts
    with its label, an underscore and its speaker, followed by nothing or by
    a further underscore; neither the label nor the speaker contains an
    underscore. *)
Theorem load_key_structure {A} (npz : gmap string (array2 A))
    (min_length : option Z) (out : lists5 (array2 A)) (i : nat) (k : string) :
  load_data_from_npz npz min_length = Ok out →
  keys out !! i = Some k →
  ∃ label speaker rest,
    labels out !! i = Some label
    ∧ speakers out !! i = Some speaker
    ∧ k = label +:+ (String underscore (speaker +:+ rest))
    ∧ (rest = EmptyString ∨ ∃ r, rest = String underscore r)
    ∧ (underscore ∉ list_ascii_of_string label)
    ∧ (underscore ∉ list_ascii_of_string speaker).
Proof.
  intros Hout Hi.
  apply load_data_from_npz_returns in Hout as (acc & -> & Hd).
  destruct Hd as (Hkeys & _ & Hl & Hs & _). simpl in Hi |- *.
  rewrite Hkeys in Hi.
  destruct (Forall2_lookup_l _ _ _ _ _ Hl Hi) as (w & Hwi & Hw).
  destruct (Forall2_lookup_l _ _ _ _ _ Hs Hi) as (sp & Hsi & Hsp).
  destruct (split_two_segments underscore k w sp Hw Hsp)
    as (rest & Hk & Hrest & Hcw & Hcs).
  exists w, sp, rest. by split_and!.
Qed.

Lemma load_key_structure_witness :
  ∃ out,
    load_data_from_npz demo_npz (Some 2) = Ok out
    ∧ keys out !! 1%nat = Some "dog_s2_x"
    ∧ ∃ label speaker rest,
        labels out !! 1%nat = Some label
        ∧ "dog_s2_x" = label +:+ (String underscore (speaker +:+ rest)).
Proof.
  destruct (load_data_from_npz demo_npz (Some 2)) as [out | e] eqn:Hrun;
    [|vm_compute in Hrun; discriminate Hrun].
  assert (keys out !! 1%nat = Some "dog_s2_x") as Hk.
  { vm_compute in Hrun. injection Hrun as <-. reflexivity. }
  exists out. split; [reflexivity |]. split; [exact Hk |].
  destruct (load_key_structure demo_npz (Some 2) out 1 "dog_s2_x" Hrun Hk)
    as (label & speaker & rest & Hl & _ & Heq & _).
  exists label, speaker, rest. split; [exact Hl | exact Heq].
Defined.

(** X3. Raising [min_length] only removes entries: when the calls with
    thresholds [m ≤ m'] both return, the keys, sequences and lengths
    returned for [m'] are those returned for [m] with the entries of at most
    [m'] rows left out, in the same order. *)
Theorem load_min_length_monotone {A} (npz : gmap string (array2 A))
    (m m' : Z) (out out' : lists5 (array2 A)) :
  m ≤ m' →
  load_data_from_npz npz (Some m) = Ok out →
  load_data_from_npz npz (Some m') = Ok out' →
  keys out' = filter (retained npz (Some m')) (keys out)
  ∧ data out' = filter (λ a, m' < len a) (data out)
  ∧ lengths out' = filter (λ n, m' < n) (lengths out).
Proof.
  intros Hm Hout Hout'.
  apply load_data_from_npz_returns in Hout as (acc & -> & Hd).
  apply load_data_from_npz_returns in Hout' as (acc' & -> & Hd').
  destruct Hd as (Hk & Hx & _ & _ & Hn).
  destruct Hd' as (Hk' & Hx' & _ & _ & Hn'). simpl.
  assert (filter (retained npz (Some m')) (acc_keys acc) = acc_keys acc')
    as Hkeys.
  { rewrite Hk, Hk'. apply list_filter_filter_l.
    intros k. rewrite !retained_Some. intros (a & Ha & Hlen).
    exists a. split; [done | lia]. }
  split_and!; [done | |].
  - apply (Forall2_functional (λ k a, npz !! k = Some a) (acc_keys acc'));
      [congruence | by rewrite Hk' |].
    rewrite <- Hkeys, Hk. apply Forall2_filter_related; [|done].
    intros k a Ha. rewrite retained_Some. split.
    + intros (a' & Ha' & Hlen). by replace a with a' by congruence.
    + eauto.
  - apply (Forall2_functional (λ k n, ∃ a, npz !! k = Some a ∧ n = len a)
             (acc_keys acc')).
    + intros k n n' (a & Ha & ->) (a' & Ha' & ->). congruence.
    + by rewrite Hk'.
    + rewrite <- Hkeys, Hk. apply Forall2_filter_related; [|done].
      intros k n (a & Ha & ->). rewrite retained_Some. split.
      * intros (a' & Ha' & Hlen). by replace a with a' by congruence.
      * eauto.
Qed.

Lemma load_min_length_monotone_witness :
  1 ≤ 2
  ∧ ∃ out out',
      load_data_from_npz demo_npz (Some 1) = Ok out
      ∧ load_data_from_npz demo_npz (Some 2) = Ok out'
      ∧ lengths out' = filter (λ n, 2 < n) (lengths out).
Proof.
  assert (1 ≤ 2) as Hm by lia. split; [exact Hm |].
  destruct (load_data_from_npz demo_npz (Some 1)) as [out | e] eqn:Hrun;
    [|vm_compute in Hrun; discriminate Hrun].
  destruct (load_data_from_npz demo_npz (Some 2)) as [out' | e] eqn:Hrun';
    [|vm_compute in Hrun'; discriminate Hrun'].
  exists out, out'. split; [reflexivity |]. split; [reflexivity |].
  exact (proj2 (proj2 (load_min_length_monotone demo_npz 1 2 out out' Hm
                         Hrun Hrun'))).
Defined.

(** * Further properties of [filter_data] *)

(** X4. [filter_data] never returns an input row twice: on five lists of
    one length the rows of the result come from pairwise different input
    positions, so the result is no longer than the input, and keys that are
    unique in the input are unique in the result. *)
Theorem filter_data_rows_distinct {X rng} (seed : Z → rng)
    (shuffle : rng → list nat → list nat * rng) (g0 : rng)
    (d : lists5 X) (c : constraints) :
  (∀ g l, (shuffle g l).1 ≡ₚ l) →
  aligned d →
  ∃ out idx,
    filter_data seed shuffle g0 d c = Ok out
    ∧ rows_at d idx out
    ∧ NoDup idx
    ∧ (length (data out) ≤ length (data d))%nat
    ∧ (NoDup (keys d) → NoDup (keys out)).
Proof.
  intros Hperm Ha. unfold filter_data.
  destruct (filter_stages_facts shuffle Hperm (seed 1) d c Ha)
    as (out & idx & Hrun & Hr & Hnd & _).
  exists out, idx. split_and!; [done | done | done | |].
  - destruct (rows_at_aligned _ _ _ Hr) as [_ ->].
    apply NoDup_bounded_length; [done |].
    destruct Hr as (Hd & _). by apply taken_at_in_range in Hd.
  - intros Hk. destruct Hr as (_ & _ & _ & Hkeys & _).
    by apply (taken_at_NoDup (keys d) idx).
Qed.

Lemma filter_data_rows_distinct_witness :
  (∀ g l, (demo_shuffle g l).1 ≡ₚ l)
  ∧ aligned demo_data
  ∧ ∃ out,
      filter_data demo_seed demo_shuffle 7%nat demo_data
        (Constraints (Some 2) (Some 2) (Some 4) (Some 1)) = Ok out
      ∧ (length (data out) ≤ length (data demo_data))%nat.
Proof.
  split; [exact demo_shuffle_perm |]. split; [exact demo_data_aligned |].
  destruct (filter_data_rows_distinct demo_seed demo_shuffle 7%nat demo_data
              (Constraints (Some 2) (Some 2) (Some 4) (Some 1))
              demo_shuffle_perm demo_data_aligned)
    as (out & idx & Hrun & _ & _ & Hlen & _).
  exists out. split; [exact Hrun | exact Hlen].
Defined.

(** X5. Without the two shuffling stages ([n_max_tokens] and
    [n_max_tokens_per_type] absent) the original order is kept: each of the
    five returned lists is a subsequence of the corresponding input list. *)
Theorem filter_data_order_preserved {X rng} (seed : Z → rng)
    (shuffle : rng → list nat → list nat * rng) (g0 : rng)
    (d : lists5 X) (c : constraints) :
  aligned d →
  n_max_tokens c = None →
  n_max_tokens_per_type c = None →
  ∃ out,
    filter_data seed shuffle g0 d c = Ok out
    ∧ data out `sublist_of` data d
    ∧ labels out `sublist_of` labels d
    ∧ lengths out `sublist_of` lengths d
    ∧ keys out `sublist_of` keys d
    ∧ speakers out `sublist_of` speakers d.
Proof.
  intros Ha H2 H4. unfold filter_data.
  assert (filter_stages shuffle (seed 1) d c
          = filter_stages (λ g l, (l, g)) (seed 1) d c) as ->.
  { unfold filter_stages. rewrite H2, H4. reflexivity. }
  destruct (filter_stages_facts (λ (g : rng) l, (l, g))
              (λ _ _, reflexivity _) (seed 1) d c Ha)
    as (out & idx & Hrun & Hr & _ & Hs & _).
  specialize (Hs H2 H4). destruct Hr as (Rd & Rl & Rn & Rk & Rs).
  exists out. split_and!; [done | ..]; by eapply taken_at_sorted_sublist.
Qed.

Lemma filter_data_order_preserved_witness :
  aligned demo_data
  ∧ ∃ out,
      filter_data demo_seed demo_shuffle 7%nat demo_data
        (Constraints (Some 2) (Some 2) None None) = Ok out
      ∧ keys out `sublist_of` keys demo_data.
Proof.
  split; [exact demo_data_aligned |].
  destruct (filter_data_order_preserved demo_seed demo_shuffle 7%nat
              demo_data (Constraints (Some 2) (Some 2) None None)
              demo_data_aligned eq_refl eq_refl)
    as (out & Hrun & _ & _ & _ & Hk & _).
  exists out. split; [exact Hrun | exact Hk].
Defined.

(** X6. With [n_max_tokens = n], [n ≥ 0], the result has at most [n]
    tokens, whatever the other constraints are. *)
Theorem filter_data_max_tokens_cap {X rng} (seed : Z → rng)
    (shuffle : rng → list nat → list nat * rng) (g0 : rng)
    (d : lists5 X) (c : constraints) (n : Z) :
  (∀ g l, (shuffle g l).1 ≡ₚ l) →
  aligned d →
  n_max_tokens c = Some n →
  0 ≤ n →
  ∃ out,
    filter_data seed shuffle g0 d c = Ok out
    ∧ Z.of_nat (length (data out)) ≤ n
    ∧ Z.of_nat (length (labels out)) ≤ n.
Proof.
  intros Hperm Ha Hn Hn0. unfold filter_data.
  destruct (filter_stages_facts shuffle Hperm (seed 1) d c Ha)
    as (out & idx & Hrun & Hr & _ & _ & Hcap & _).
  exists out. specialize (Hcap n Hn Hn0).
  destruct (rows_at_aligned _ _ _ Hr) as [(Hl & _) _].
  split_and!; [done | done | lia].
Qed.

Lemma filter_data_max_tokens_cap_witness :
  (∀ g l, (demo_shuffle g l).1 ≡ₚ l)
  ∧ aligned demo_data
  ∧ 0 ≤ 4
  ∧ ∃ out,
      filter_data demo_seed demo_shuffle 7%nat demo_data
        (Constraints (Some 2) None (Some 4) None) = Ok out
      ∧ Z.of_nat (length (data out)) ≤ 4.
Proof.
  assert (0 ≤ 4) as H4 by lia.
  split; [exact demo_shuffle_perm |]. split; [exact demo_data_aligned |].
  split; [exact H4 |].
  destruct (filter_data_max_tokens_cap demo_seed demo_shuffle 7%nat demo_data
              (Constraints (Some 2) None (Some 4) None) 4
              demo_shuffle_perm demo_data_aligned eq_refl H4)
    as (out & Hrun & Hlen & _).
  exists out. split; [exact Hrun | exact Hlen].
Defined.

(** X7. With [n_max_tokens = n] as the only constraint the result holds
    the rows at the positions [indices[:n]] of the list shuffled from the
    state [random.seed(1)] installs: the first [n] of them (all [N] if there
    are fewer) for [n ≥ 0], and all but the last [-n] for a negative [n]. *)
Theorem filter_data_max_tokens_only {X rng} (seed : Z → rng)
    (shuffle : rng → list nat → list nat * rng) (g0 : rng)
    (d : lists5 X) (n : Z) :
  (∀ g l, (shuffle g l).1 ≡ₚ l) →
  aligned d →
  ∃ out,
    filter_data seed shuffle g0 d (Constraints None None (Some n) None)
    = Ok out
    ∧ rows_at d (slice_to (shuffle (seed 1) (positions d)).1 n) out
    ∧ Z.of_nat (length (data out))
      = if bool_decide (0 ≤ n) then Z.min n (Z.of_nat (length (data d)))
        else Z.max 0 (Z.of_nat (length (data d)) + n).
Proof.
  intros Hperm Ha. unfold filter_data, filter_stages.
  cbn [n_max_types n_max_tokens n_min_tokens_per_type n_max_tokens_per_type].
  rewrite bind_ok.
  destruct (max_tokens_stage_full shuffle Hperm n d (seed 1) Ha)
    as (out & -> & Hr & _ & Hlen).
  exists out. by rewrite !bind_ok.
Qed.

Lemma filter_data_max_tokens_only_witness :
  (∀ g l, (demo_shuffle g l).1 ≡ₚ l)
  ∧ aligned demo_data
  ∧ ∃ out,
      filter_data demo_seed demo_shuffle 7%nat demo_data
        (Constraints None None (Some (-2)) None) = Ok out
      ∧ Z.of_nat (length (data out)) = 4.
Proof.
  split; [exact demo_shuffle_perm |]. split; [exact demo_data_aligned |].
  destruct (filter_data_max_tokens_only demo_seed demo_shuffle 7%nat
              demo_data (-2) demo_shuffle_perm demo_data_aligned)
    as (out & Hrun & _ & Hlen).
  exists out. split; [exact Hrun | exact Hlen].
Defined.

(** X8. With [n_min_tokens_per_type = n] and no [n_max_tokens_per_type],
    every label of the result occurs at least [n] times in the result,
    whatever [n_max_types] and [n_max_tokens] are. *)
Theorem filter_data_min_tokens_guarantee {X rng} (seed : Z → rng)
    (shuffle : rng → list nat → list nat * rng) (g0 : rng)
    (d : lists5 X) (c : constraints) (n : Z) :
  (∀ g l, (shuffle g l).1 ≡ₚ l) →
  aligned d →
  n_min_tokens_per_type c = Some n →
  n_max_tokens_per_type c = None →
  ∃ out,
    filter_data seed shuffle g0 d c = Ok out
    ∧ ∀ l, l ∈ labels out → n ≤ Z.of_nat (occurrences l (labels out)).
Proof.
  intros Hperm Ha Hn H4. unfold filter_data.
  destruct (filter_stages_facts shuffle Hperm (seed 1) d c Ha)
    as (out & idx & Hrun & _ & _ & _ & _ & Hmin).
  exists out. split; [done |]. by apply Hmin.
Qed.

Lemma filter_data_min_tokens_guarantee_witness :
  (∀ g l, (demo_shuffle g l).1 ≡ₚ l)
  ∧ aligned demo_data
  ∧ ∃ out,
      filter_data demo_seed demo_shuffle 7%nat demo_data
        (Constraints (Some 2) None (Some 5) None) = Ok out
      ∧ ∀ l, l ∈ labels out → 2 ≤ Z.of_nat (occurrences l (labels out)).
Proof.
  split; [exact demo_shuffle_perm |]. split; [exact demo_data_aligned |].
  exact (filter_data_min_tokens_guarantee demo_seed demo_shuffle 7%nat
           demo_data (Constraints (Some 2) None (Some 5) None) 2
           demo_shuffle_perm demo_data_aligned eq_refl eq_refl).
Defined.

(** X9. With [n_min_tokens_per_type = n] as the only constraint the result
    keeps, in their order, exactly the tokens whose label occurs at least
    [n] times in the input; for [n ≤ 1] that is the whole input. *)
Theorem filter_data_min_tokens_only {X rng} (seed : Z → rng)
    (shuffle : rng → list nat → list nat * rng) (g0 : rng)
    (d : lists5 X) (n : Z) :
  aligned d →
  ∃ out,
    filter_data seed shuffle g0 d (Constraints (Some n) None None None)
    = Ok out
    ∧ labels out
      = filter (λ l, n ≤ Z.of_nat (occurrences l (labels d))) (labels d)
    ∧ (n ≤ 1 → out = d).
Proof.
  intros Ha. unfold filter_data, filter_stages.
  cbn [n_max_types n_max_tokens n_min_tokens_per_type n_max_tokens_per_type].
  rewrite !bind_ok.
  destruct (min_tokens_per_type_stage_full n d Ha)
    as (out & idx & Hrun & _ & _ & _ & Hl & _).
  rewrite Hrun, !bind_ok. exists out. split_and!; [done | done |].
  intros Hn. unfold min_tokens_per_type_stage in Hrun.
  apply keep_types_labels in Hrun as [Hr _]; [|done].
  rewrite filter_all in Hr; [by apply rows_at_self_eq |].
  apply Forall_forall. intros i Hi.
  apply elem_of_seq in Hi as [_ Hi]. simpl in Hi.
  destruct Ha as (Hlen & _).
  destruct (lookup_lt_is_Some_2 (labels d) i) as [l Hl']; [lia |].
  exists l. split; [done |]. apply min_tokens_per_type_types.
  assert (l ∈ labels d) as Hin by (apply list_elem_of_lookup; eauto).
  split; [done |]. apply occurrences_pos in Hin. lia.
Qed.

Lemma filter_data_min_tokens_only_witness :
  aligned demo_data
  ∧ ∃ out,
      filter_data demo_seed demo_shuffle 7%nat demo_data
        (Constraints (Some 3) None None None) = Ok out
      ∧ labels out
        = filter (λ l, 3 ≤ Z.of_nat (occurrences l (labels demo_data)))
            (labels demo_data).
Proof.
  split; [exact demo_data_aligned |].
  destruct (filter_data_min_tokens_only demo_seed demo_shuffle 7%nat
              demo_data 3 demo_data_aligned) as (out & Hrun & Hl & _).
  exists out. split; [exact Hrun | exact Hl].
Defined.

(** X10. With [n_max_tokens_per_type = m] as the only constraint every
    label keeps exactly as many tokens as the cap allows: [min(m, count)]
    of its [count] tokens, and none when [m ≤ 0]. *)
Theorem filter_data_max_tokens_per_type_only {X rng} (seed : Z → rng)
    (shuffle : rng → list nat → list nat * rng) (g0 : rng)
    (d : lists5 X) (m : Z) :
  (∀ g l, (shuffle g l).1 ≡ₚ l) →
  aligned d →
  ∃ out,
    filter_data seed shuffle g0 d (Constraints None None None (Some m))
    = Ok out
    ∧ ∀ l, Z.of_nat (occurrences l (labels out))
           = Z.min (Z.max 0 m) (Z.of_nat (occurrences l (labels d))).
Proof.
  intros Hperm Ha. unfold filter_data, filter_stages.
  cbn [n_max_types n_max_tokens n_min_tokens_per_type n_max_tokens_per_type].
  rewrite !bind_ok.
  destruct (max_tokens_per_type_stage_full shuffle Hperm m d (seed 1) Ha)
    as (out & idx & -> & _ & _ & _ & Hocc).
  exists out. by rewrite !bind_ok.
Qed.

Lemma filter_data_max_tokens_per_type_only_witness :
  (∀ g l, (demo_shuffle g l).1 ≡ₚ l)
  ∧ aligned demo_data
  ∧ ∃ out,
      filter_data demo_seed demo_shuffle 7%nat demo_data
        (Constraints None None None (Some 2)) = Ok out
      ∧ Z.of_nat (occurrences "a" (labels out)) = 2.
Proof.
  split; [exact demo_shuffle_perm |]. split; [exact demo_data_aligned |].
  destruct (filter_data_max_tokens_per_type_only demo_seed demo_shuffle 7%nat
              demo_data 2 demo_shuffle_perm demo_data_aligned)
    as (out & Hrun & Hocc).
  exists out. split; [exact Hrun | exact (Hocc "a")].
Defined.

(** X11. With [n_max_types = k] as the only constraint the result keeps, in
    their order, all tokens of the labels [most_common(k)] selects and no
    others, and has exactly [min(k, number of labels of the input)]
    distinct labels (none for [k ≤ 0]). *)
Theorem filter_data_max_types_only {X rng} (seed : Z → rng)
    (shuffle : rng → list nat → list nat * rng) (g0 : rng)
    (d : lists5 X) (k : Z) :
  aligned d →
  ∃ out,
    filter_data seed shuffle g0 d (Constraints None (Some k) None None)
    = Ok out
    ∧ labels out = filter (λ l, l ∈ top_labels (labels d) k) (labels d)
    ∧ distinct (labels out) = (Z.to_nat k `min` distinct (labels d))%nat.
Proof.
  intros Ha. unfold filter_data, filter_stages.
  cbn [n_max_types n_max_tokens n_min_tokens_per_type n_max_tokens_per_type].
  destruct (keep_types_stage_full (top_labels (labels d) k) d Ha)
    as (out & idx & Hrun & _ & _ & _ & Hl & _).
  unfold max_types_stage. fold (top_labels (labels d) k).
  rewrite Hrun, !bind_ok. exists out. split_and!; [done | done |].
  rewrite <- top_labels_length. unfold distinct.
  apply Permutation_length, NoDup_Permutation.
  - apply NoDup_remove_dups.
  - apply top_labels_NoDup.
  - intros l. rewrite elem_of_remove_dups, Hl, list_elem_of_filter.
    split; [tauto |]. intros Hin. split; [done |].
    by eapply top_labels_subseteq.
Qed.

Lemma filter_data_max_types_only_witness :
  aligned demo_data
  ∧ ∃ out,
      filter_data demo_seed demo_shuffle 7%nat demo_data
        (Constraints None (Some 2) None None) = Ok out
      ∧ distinct (labels out)
        = (Z.to_nat 2 `min` distinct (labels demo_data))%nat.
Proof.
  split; [exact demo_data_aligned |].
  destruct (filter_data_max_types_only demo_seed demo_shuffle 7%nat
              demo_data 2 demo_data_aligned) as (out & Hrun & _ & Hd).
  exists out. split; [exact Hrun | exact Hd].
Defined.

(** X12. Lists that are not parallel are not repaired: when [labels] is
    shorter than [data] and [n_max_types] is given, [filter_data] raises
    [IndexError]. *)
Theorem filter_data_short_labels_raise {X rng} (seed : Z → rng)
    (shuffle : rng → list nat → list nat * rng) (g0 : rng)
    (d : lists5 X) (c : constraints) (k : Z) :
  (length (labels d) < length (data d))%nat →
  n_max_types c = Some k →
  filter_data seed shuffle g0 d c = Raise IndexError.
Proof.
  intros Hlen Hk. unfold filter_data, filter_stages. rewrite Hk.
  unfold max_types_stage.
  rewrite (keep_types_unlabelled _ d (positions d) empty5
             (length (labels d))); [done | |].
  - apply elem_of_seq. lia.
  - by apply lookup_ge_None_2.
Qed.

Lemma filter_data_short_labels_raise_witness :
  (length (labels demo_ragged) < length (data demo_ragged))%nat
  ∧ filter_data demo_seed demo_shuffle 7%nat demo_ragged
      (Constraints None (Some 1) None None) = Raise IndexError.
Proof.
  assert (length (labels demo_ragged) < length (data demo_ragged))%nat
    as Hlen by (simpl; lia).
  split; [exact Hlen |].
  exact (filter_data_short_labels_raise demo_seed demo_shuffle 7%nat
           demo_ragged (Constraints None (Some 1) None None) 1 Hlen eq_refl).
Defined.

(** X26. Filtering by [n_min_tokens_per_type] alone is idempotent: the
    result of the call holds parallel lists again, and the same call on
    that result returns it unchanged. More generally a call with this
    constraint alone returns its input as it is whenever every label of
    the input already occurs at least [n] times. *)
Theorem filter_data_min_tokens_idempotent {X rng} (seed : Z → rng)
    (shuffle : rng → list nat → list nat * rng) (g0 g1 : rng)
    (d : lists5 X) (n : Z) :
  aligned d →
  let c := Constraints (Some n) None None None in
  (∃ out,
     filter_data seed shuffle g0 d c = Ok out
     ∧ aligned out
     ∧ filter_data seed shuffle g1 out c = Ok out)
  ∧ ((∀ l, l ∈ labels d → n ≤ Z.of_nat (occurrences l (labels d))) →
     filter_data seed shuffle g0 d c = Ok d).
Proof.
  intros Ha c.
  assert (∀ g (d' : lists5 X),
            filter_data seed shuffle g d' c
            = min_tokens_per_type_stage n d') as Hrun.
  { intros g d'. unfold filter_data, filter_stages, c.
    cbn [n_max_types n_max_tokens n_min_tokens_per_type
         n_max_tokens_per_type].
    rewrite !bind_ok.
    by destruct (min_tokens_per_type_stage n d'). }
  split.
  - destruct (min_tokens_per_type_stage_full n d Ha)
      as (out & idx & Hout & Hr & _ & _ & _ & _ & Hmin).
    apply rows_at_aligned in Hr as [Ha' _].
    exists out. rewrite !Hrun. split_and!; [done | done |].
    by apply min_tokens_per_type_stage_fixed.
  - intros Hall. rewrite Hrun. by apply min_tokens_per_type_stage_fixed.
Qed.

Lemma filter_data_min_tokens_idempotent_witness :
  aligned demo_data
  ∧ ∃ out,
      filter_data demo_seed demo_shuffle 7%nat demo_data
        (Constraints (Some 2) None None None) = Ok out
      ∧ aligned out
      ∧ filter_data demo_seed demo_shuffle 8%nat out
          (Constraints (Some 2) None None None) = Ok out.
Proof.
  split; [exact demo_data_aligned |].
  exact (proj1 (filter_data_min_tokens_idempotent demo_seed demo_shuffle
                  7%nat 8%nat demo_data 2 demo_data_aligned)).
Defined.

(** * Further properties of [pad_sequences] *)

(** X13. Left-aligned padding ([center_padded = False]) of a batch that
    shares the width [d] of its first sequence, for a tensor NumPy can
    create: the call returns; the item of a sequence [s] holds the first
    [min(len s, n_padded)] rows of [s], every entry converted to
    [NP_DTYPE], from row 0 on, followed by rows of zeros; that minimum is
    the reported length, and the mask row, when requested, is 1 on these
    rows and 0 on the rest. Wherever the conversion can be undone on the
    entries of [s], undoing it on the reported number of rows of the item
    gives the first rows of [s] back, and the whole sequence when it was
    not longer than [n_padded]. *)
Theorem pad_left_aligned {A B} (astype : A → B) (zero : B)
    (np_max_size : Z) (x : list (array2 A)) (n_padded : Z)
    (return_mask : bool) (x0 s : array2 A) (i : nat) :
  Forall array2_wf x →
  x !! 0%nat = Some x0 →
  Forall (λ s', ncols s' = ncols x0) x →
  np_size [Z.of_nat (length x); n_padded; Z.of_nat (ncols x0)]
  ≤ np_max_size →
  x !! i = Some s →
  0 ≤ n_padded →
  let n := Z.min (len s) n_padded in
  ∃ st item,
    pad_sequences astype zero np_max_size x n_padded false return_mask
    = Ok st
    ∧ padded_x st !! i = Some item
    ∧ item = astype_rows astype (take (Z.to_nat n) (rows s))
             ++ replicate (Z.to_nat (n_padded - n))
                  (replicate (ncols x0) zero)
    ∧ out_lengths st !! i = Some n
    ∧ take (Z.to_nat n) item = astype_rows astype (take (Z.to_nat n) (rows s))
    ∧ (∀ back : B → A,
         Forall (Forall (λ v, back (astype v) = v)) (rows s) →
         astype_rows back (take (Z.to_nat n) item)
         = take (Z.to_nat n) (rows s)
         ∧ (len s ≤ n_padded →
            astype_rows back (take (Z.to_nat n) item) = rows s))
    ∧ if return_mask then
        ∃ m, mask_x st = Some m
             ∧ m !! i = Some (replicate (Z.to_nat n) 1
                              ++ replicate (Z.to_nat (n_padded - n)) 0)
      else mask_x st = None.
Proof.
  intros Hwf H0 Hd Hfit Hi HT n.
  pose proof (Nat2Z.is_nonneg (length (rows s))) as HL. fold (len s) in HL.
  set (item := left_item zero n_padded (ncols x0) (astype_array astype s)).
  assert (item = astype_rows astype (take (Z.to_nat n) (rows s))
                 ++ replicate (Z.to_nat (n_padded - n))
                      (replicate (ncols x0) zero)) as Hitem.
  { unfold item, left_item. rewrite len_astype_array. fold n.
    cbn [rows astype_array]. by rewrite astype_rows_take. }
  assert (take (Z.to_nat n) item
          = astype_rows astype (take (Z.to_nat n) (rows s))) as Htake.
  { rewrite Hitem. rewrite take_app_length'; [done |].
    rewrite astype_rows_length, length_take. unfold n, len in *. lia. }
  eexists. exists item.
  split; [by apply (pad_sequences_shared_width astype zero _ x _ _ _ x0) |].
  cbn [padded_x mask_x out_lengths padded_item]. split_and!.
  - by rewrite list_lookup_fmap, Hi.
  - done.
  - by rewrite list_lookup_fmap, Hi.
  - done.
  - intros back Hback.
    assert (astype_rows back (take (Z.to_nat n) item)
            = take (Z.to_nat n) (rows s)) as Hback'.
    { rewrite Htake. apply astype_rows_undone. by apply Forall_take. }
    split; [done |]. intros Hle. rewrite Hback'. apply take_ge.
    unfold n, len in *. lia.
  - destruct return_mask; [|done]. eexists. split; [done |].
    by rewrite list_lookup_fmap, Hi.
Qed.

Lemma pad_left_aligned_witness :
  Forall array2_wf demo_batch
  ∧ demo_batch !! 0%nat = Some demo_short
  ∧ Forall (λ s, ncols s = ncols demo_short) demo_batch
  ∧ np_size [Z.of_nat (length demo_batch); 4; Z.of_nat (ncols demo_short)]
    ≤ demo_max_size
  ∧ demo_batch !! 1%nat = Some demo_long
  ∧ 0 ≤ 4
  ∧ ∃ st,
      pad_sequences float32_of_Z 0 demo_max_size demo_batch 4 false true
      = Ok st
      ∧ padded_x st !! 1%nat = Some [[1; 1]; [2; 2]; [3; 3]; [4; 4]]
      ∧ out_lengths st !! 1%nat = Some 4.
Proof.
  assert (0 ≤ 4) as HT by lia.
  assert (0 ≤ 4 ≤ 1000) as H4 by lia.
  split; [exact demo_batch_wf |]. split; [reflexivity |].
  split; [exact demo_batch_width |]. split; [exact (demo_batch_fits 4 H4) |].
  split; [reflexivity |]. split; [exact HT |].
  destruct (pad_left_aligned float32_of_Z 0 demo_max_size demo_batch 4 true
              demo_short demo_long 1 demo_batch_wf eq_refl demo_batch_width
              (demo_batch_fits 4 H4) eq_refl HT)
    as (st & item & Hrun & Hitem & Heq & Hlen & _).
  exists st. split; [exact Hrun |]. split; [|exact Hlen].
  rewrite Hitem, Heq. reflexivity.
Defined.

(** X14. The shape of what [pad_sequences] returns, in either mode, for a
    batch that shares the width [d] of its first sequence and a target
    [n_padded ≥ 0] whose tensor NumPy can create: one item per sequence,
    each of [n_padded] rows of [d] entries; one length per sequence,
    [min(len s, n_padded)]; and, when requested, one mask row per sequence,
    of [n_padded] entries 0 or 1 that sum to the reported length of that
    sequence. *)
Theorem pad_sequences_shape {A B} (astype : A → B) (zero : B)
    (np_max_size : Z) (x : list (array2 A)) (n_padded : Z)
    (center_padded return_mask : bool) (x0 : array2 A) :
  Forall array2_wf x →
  x !! 0%nat = Some x0 →
  Forall (λ s, ncols s = ncols x0) x →
  0 ≤ n_padded →
  np_size [Z.of_nat (length x); n_padded; Z.of_nat (ncols x0)]
  ≤ np_max_size →
  ∃ st,
    pad_sequences astype zero np_max_size x n_padded center_padded
      return_mask = Ok st
    ∧ length (padded_x st) = length x
    ∧ Forall (λ item, length item = Z.to_nat n_padded
                      ∧ Forall (λ row, length row = ncols x0) item)
        (padded_x st)
    ∧ out_lengths st = (λ s, Z.min (len s) n_padded) <$> x
    ∧ Forall (λ n, 0 ≤ n ≤ n_padded) (out_lengths st)
    ∧ if return_mask then
        ∃ m, mask_x st = Some m
             ∧ Forall2 (λ row n, length row = Z.to_nat n_padded
                                 ∧ Forall (λ v, v = 0 ∨ v = 1) row
                                 ∧ sum_list row = n)
                 m (out_lengths st)
      else mask_x st = None.
Proof.
  intros Hwf H0 Hd HT Hfit. eexists.
  split; [by apply (pad_sequences_shared_width astype zero _ x _ _ _ x0) |].
  cbn [padded_x mask_x out_lengths]. split_and!.
  - apply length_fmap.
  - apply Forall_fmap, Forall_forall. intros s Hs. simpl.
    rewrite Forall_forall in Hwf, Hd.
    apply padded_item_shape; [by apply astype_array_wf, Hwf | | done].
    simpl. by apply Hd.
  - done.
  - apply Forall_fmap, Forall_forall. intros s _. simpl.
    pose proof (Nat2Z.is_nonneg (length (rows s))) as HL.
    unfold len. lia.
  - destruct return_mask; [|done]. eexists. split; [done |].
    apply Forall2_fmap, Forall_Forall2_diag, Forall_forall.
    intros s _. by apply padded_mask_shape.
Qed.

Lemma pad_sequences_shape_witness :
  Forall array2_wf demo_batch
  ∧ demo_batch !! 0%nat = Some demo_short
  ∧ Forall (λ s, ncols s = ncols demo_short) demo_batch
  ∧ 0 ≤ 4
  ∧ np_size [Z.of_nat (length demo_batch); 4; Z.of_nat (ncols demo_short)]
    ≤ demo_max_size
  ∧ ∃ st,
      pad_sequences float32_of_Z 0 demo_max_size demo_batch 4 true true
      = Ok st
      ∧ length (padded_x st) = length demo_batch
      ∧ out_lengths st = [2; 4; 3].
Proof.
  assert (0 ≤ 4) as HT by lia.
  assert (0 ≤ 4 ≤ 1000) as H4 by lia.
  split; [exact demo_batch_wf |]. split; [reflexivity |].
  split; [exact demo_batch_width |]. split; [exact HT |].
  split; [exact (demo_batch_fits 4 H4) |].
  destruct (pad_sequences_shape float32_of_Z 0 demo_max_size demo_batch 4
              true true demo_short demo_batch_wf eq_refl demo_batch_width HT
              (demo_batch_fits 4 H4))
    as (st & Hrun & Hlen & _ & Hlens & _).
  exists st. split; [exact Hrun |]. split; [exact Hlen | exact Hlens].
Defined.

(** X15. When [pad_sequences] returns, for a batch of two-dimensional
    arrays in either mode: an empty batch raises [IndexError]; otherwise the
    call returns when [n_padded] is not negative, the tensor of
    [len(x) * n_padded * d] entries is within the size NumPy accepts and
    every sequence has the width [d] of the first one or a single column,
    and it raises [ValueError] when [n_padded] is negative, when the tensor
    is beyond that size, or when some sequence has another width. Running
    out of memory below that size is not covered. *)
Theorem pad_sequences_returns_iff {A B} (astype : A → B) (zero : B)
    (np_max_size : Z) (x : list (array2 A)) (n_padded : Z)
    (center_padded return_mask : bool) :
  Forall array2_wf x →
  (x = [] →
   pad_sequences astype zero np_max_size x n_padded center_padded
     return_mask = Raise IndexError)
  ∧ ∀ x0, x !! 0%nat = Some x0 →
      let size :=
        np_size [Z.of_nat (length x); n_padded; Z.of_nat (ncols x0)] in
      (0 ≤ n_padded →
       size ≤ np_max_size →
       Forall (λ s, ncols s = ncols x0 ∨ ncols s = 1%nat) x →
       ∃ st,
         pad_sequences astype zero np_max_size x n_padded center_padded
           return_mask = Ok st)
      ∧ (n_padded < 0
         ∨ np_max_size < size
         ∨ Exists (λ s, ncols s ≠ ncols x0 ∧ ncols s ≠ 1%nat) x →
         pad_sequences astype zero np_max_size x n_padded center_padded
           return_mask = Raise ValueError).
Proof.
  intros Hwf. split; [by intros -> |].
  intros x0 H0 size. split.
  - intros HT Hfit Hw.
    by apply (pad_sequences_compatible_widths_ok astype zero _ x _ _ _ x0).
  - intros Hbad.
    destruct (pad_sequences_start astype zero np_max_size x n_padded
                center_padded return_mask x0 H0)
      as [Hrun | (HT & Hfit & Hrun)]; [done |].
    destruct Hbad as [Hneg | [Hbig | Hbad]]; [lia | unfold size in Hbig; lia |].
    apply Exists_exists in Hbad as (s & Hs & Hd & H1).
    by apply (pad_sequences_bad_width astype zero _ x _ _ _ x0 s).
Qed.

Lemma pad_sequences_returns_iff_witness :
  Forall array2_wf [demo_short; demo_narrow]
  ∧ (∃ st, pad_sequences float32_of_Z 0 demo_max_size
             [demo_short; demo_narrow] 3 false true = Ok st)
  ∧ pad_sequences float32_of_Z 0 demo_max_size [demo_short; demo_narrow]
      (2 ^ 64) false true = Raise ValueError.
Proof.
  assert (Forall array2_wf [demo_short; demo_narrow]) as Hwf
    by repeat constructor.
  split; [exact Hwf |].
  destruct (proj2 (pad_sequences_returns_iff float32_of_Z 0 demo_max_size
                     [demo_short; demo_narrow] 3 false true Hwf)
              demo_short eq_refl) as [Hok _].
  destruct (proj2 (pad_sequences_returns_iff float32_of_Z 0 demo_max_size
                     [demo_short; demo_narrow] (2 ^ 64) false true Hwf)
              demo_short eq_refl) as [_ Hbad].
  split.
  - apply Hok.
    + lia.
    + vm_compute. discriminate.
    + apply Forall_cons. split; [left; reflexivity |].
      apply Forall_cons. split; [right; reflexivity | apply Forall_nil_2].
  - apply Hbad. right. left. vm_compute. reflexivity.
Defined.

(** X25. A sequence of a single column in a batch of width [d] is not
    refused by [pad_sequences]: in either mode it is stored with the one
    value of each of its rows, converted to [NP_DTYPE], repeated over all
    [d] features, padded or cropped like a sequence of width [d] with these
    rows; its reported length is [min(len s, n_padded)] as for any other
    sequence. *)
Theorem pad_sequences_single_column_repeated {A B} (astype : A → B)
    (zero : B) (np_max_size : Z) (x : list (array2 A)) (n_padded : Z)
    (center_padded return_mask : bool) (x0 s : array2 A) (i : nat) :
  Forall array2_wf x →
  x !! 0%nat = Some x0 →
  Forall (λ s', ncols s' = ncols x0 ∨ ncols s' = 1%nat) x →
  x !! i = Some s →
  ncols s = 1%nat → ncols x0 ≠ 1%nat →
  0 ≤ n_padded →
  np_size [Z.of_nat (length x); n_padded; Z.of_nat (ncols x0)]
  ≤ np_max_size →
  let stored := astype_array astype (widen (ncols x0) s) in
  ∃ st,
    pad_sequences astype zero np_max_size x n_padded center_padded
      return_mask = Ok st
    ∧ padded_x st !! i
      = Some (padded_item zero center_padded n_padded (ncols x0) stored)
    ∧ length (rows stored) = length (rows s)
    ∧ (∀ j r, rows s !! j = Some r →
         ∃ v, r = [v]
              ∧ rows stored !! j = Some (replicate (ncols x0) (astype v)))
    ∧ out_lengths st !! i = Some (Z.min (len s) n_padded).
Proof.
  intros Hwf H0 Hw Hi H1 Hd HT Hfit stored. eexists. split.
  - rewrite (pad_sequences_widen astype zero _ x _ _ _ x0) by done.
    apply (pad_sequences_shared_width astype zero _ _ _ _ _
             (widen (ncols x0) x0)).
    + by rewrite list_lookup_fmap, H0.
    + apply Forall_fmap, Forall_forall. intros s' Hs'. simpl.
      rewrite Forall_forall in Hwf, Hw. apply widen_wf; auto.
    + apply Forall_fmap, Forall_forall. by intros s' _.
    + done.
    + by rewrite length_fmap.
  - cbn [padded_x mask_x out_lengths]. unfold stored.
    cbn [ncols rows widen astype_array]. split_and!.
    + by rewrite !list_lookup_fmap, Hi.
    + by rewrite astype_rows_length, length_fmap.
    + intros j r Hr.
      assert (length r = 1%nat) as Hlen.
      { rewrite Forall_forall in Hwf.
        assert (array2_wf s) as Hs
          by (apply Hwf, list_elem_of_lookup; eauto).
        unfold array2_wf in Hs. rewrite Forall_forall in Hs.
        rewrite <- H1. apply Hs, list_elem_of_lookup. eauto. }
      destruct r as [|v [|v' r]]; simpl in Hlen; try lia.
      exists v. split; [done |]. unfold astype_rows.
      rewrite !list_lookup_fmap, Hr. simpl. unfold widen_row.
      rewrite bool_decide_eq_false_2 by (simpl; congruence).
      by rewrite fmap_replicate.
    + rewrite !list_lookup_fmap, Hi. simpl. by rewrite len_widen.
Qed.

Lemma pad_sequences_single_column_repeated_witness :
  Forall array2_wf [demo_short; demo_narrow]
  ∧ [demo_short; demo_narrow] !! 0%nat = Some demo_short
  ∧ Forall (λ s', ncols s' = ncols demo_short ∨ ncols s' = 1%nat)
      [demo_short; demo_narrow]
  ∧ [demo_short; demo_narrow] !! 1%nat = Some demo_narrow
  ∧ ncols demo_narrow = 1%nat ∧ ncols demo_short ≠ 1%nat
  ∧ 0 ≤ 3
  ∧ np_size [Z.of_nat (length [demo_short; demo_narrow]); 3;
             Z.of_nat (ncols demo_short)] ≤ demo_max_size
  ∧ ∃ st,
      pad_sequences float32_of_Z 0 demo_max_size [demo_short; demo_narrow]
        3 false true = Ok st
      ∧ padded_x st !! 1%nat = Some [[7; 7]; [0; 0]; [0; 0]]
      ∧ out_lengths st !! 1%nat = Some 1.
Proof.
  assert (Forall array2_wf [demo_short; demo_narrow]) as Hwf
    by repeat constructor.
  assert (Forall (λ s', ncols s' = ncols demo_short ∨ ncols s' = 1%nat)
            [demo_short; demo_narrow]) as Hw.
  { apply Forall_cons. split; [left; reflexivity |].
    apply Forall_cons. split; [right; reflexivity | apply Forall_nil_2]. }
  assert (ncols demo_short ≠ 1%nat) as Hd by (simpl; lia).
  assert (0 ≤ 3) as HT by lia.
  assert (np_size [Z.of_nat (length [demo_short; demo_narrow]); 3;
                   Z.of_nat (ncols demo_short)] ≤ demo_max_size) as Hfit
    by (vm_compute; discriminate).
  split; [exact Hwf |]. split; [reflexivity |]. split; [exact Hw |].
  split; [reflexivity |]. split; [reflexivity |]. split; [exact Hd |].
  split; [exact HT |]. split; [exact Hfit |].
  destruct (pad_sequences_single_column_repeated float32_of_Z 0
              demo_max_size [demo_short; demo_narrow] 3 false true
              demo_short demo_narrow 1 Hwf eq_refl Hw eq_refl eq_refl Hd HT
              Hfit)
    as (st & Hrun & Hitem & _ & _ & Hlen).
  exists st. split; [exact Hrun |]. split; [exact Hitem | exact Hlen].
Defined.

(** * Properties of [trunc_and_limit_dim] *)

(** X16. On a list of sequences and a list of as many lengths, with
    [max_length] and [d_frame] not negative, [trunc_and_limit_dim] raises
    nothing and replaces every sequence by its first [max_length] rows, of
    each row the first [d_frame] entries, and every length [l] by
    [min(l, max_length)]; a well-formed array of [r] rows and [w] columns
    becomes a well-formed array of [min(r, max_length)] rows and
    [min(w, d_frame)] columns. *)
Theorem trunc_and_limit_dim_result {A} (x : list (array2 A))
    (lengths : list Z) (d_frame max_length : Z) :
  length lengths = length x →
  0 ≤ max_length →
  0 ≤ d_frame →
  let st := trunc_and_limit_dim x lengths d_frame max_length in
  ts_raised st = None
  ∧ ts_lengths st = (λ l, Z.min l max_length) <$> lengths
  ∧ length (ts_x st) = length x
  ∧ ∀ i a, x !! i = Some a →
      ∃ a', ts_x st !! i = Some a'
            ∧ rows a'
              = take (Z.to_nat d_frame) <$> take (Z.to_nat max_length) (rows a)
            ∧ ncols a' = (ncols a `min` Z.to_nat d_frame)%nat
            ∧ len a' = Z.min (len a) max_length
            ∧ (array2_wf a → array2_wf a').
Proof.
  intros Hlen Hm Hd st. unfold st.
  rewrite trunc_and_limit_dim_ok by lia. cbn [ts_raised ts_lengths ts_x].
  rewrite <- Hlen, firstn_all, drop_all, app_nil_r.
  split_and!; [done | done | by rewrite length_fmap |].
  intros i a Ha. exists (array_slice2 a max_length d_frame).
  rewrite list_lookup_fmap, Ha. split; [done |].
  rewrite array_slice2_len, bool_decide_eq_true_2 by done.
  rewrite array_slice2_nonneg by done. simpl.
  split_and!; [done | done | lia |].
  intros Hwf. rewrite <- array_slice2_nonneg by done.
  by apply array_slice2_wf.
Qed.

Lemma trunc_and_limit_dim_result_witness :
  length [2; 5; 3] = length demo_batch
  ∧ 0 ≤ 4 ∧ 0 ≤ 1
  ∧ ts_raised (trunc_and_limit_dim demo_batch [2; 5; 3] 1 4) = None
  ∧ ts_lengths (trunc_and_limit_dim demo_batch [2; 5; 3] 1 4) = [2; 4; 3].
Proof.
  assert (0 ≤ 4) as Hm by lia. assert (0 ≤ 1) as Hd by lia.
  split; [reflexivity |]. split; [exact Hm |]. split; [exact Hd |].
  destruct (trunc_and_limit_dim_result demo_batch [2; 5; 3] 1 4 eq_refl
              Hm Hd) as (Hr & Hl & _).
  split; [exact Hr | exact Hl].
Defined.

(** X17. The stored lengths stay the row counts: when every stored length
    is the row count of its sequence, as after loading, and [max_length] is
    not negative, the same holds after [trunc_and_limit_dim], and no
    sequence is longer than [max_length]. *)
Theorem trunc_and_limit_dim_keeps_lengths {A} (x : list (array2 A))
    (d_frame max_length : Z) :
  0 ≤ max_length →
  let st := trunc_and_limit_dim x (len <$> x) d_frame max_length in
  ts_raised st = None
  ∧ ts_lengths st = len <$> ts_x st
  ∧ Forall (λ a, len a ≤ max_length) (ts_x st).
Proof.
  intros Hm st. unfold st.
  rewrite trunc_and_limit_dim_ok by (by rewrite length_fmap).
  cbn [ts_raised ts_lengths ts_x].
  rewrite <- (length_fmap len x), firstn_all, drop_all, app_nil_r.
  split_and!; [done | |].
  - rewrite <- !list_fmap_compose. apply list_fmap_ext. intros i a _. simpl.
    rewrite array_slice2_len, bool_decide_eq_true_2 by done. lia.
  - apply Forall_fmap, Forall_forall. intros a _. simpl.
    rewrite array_slice2_len, bool_decide_eq_true_2 by done. lia.
Qed.

Lemma trunc_and_limit_dim_keeps_lengths_witness :
  0 ≤ 4
  ∧ ts_lengths (trunc_and_limit_dim demo_batch (len <$> demo_batch) 2 4)
    = len <$> ts_x (trunc_and_limit_dim demo_batch (len <$> demo_batch) 2 4).
Proof.
  assert (0 ≤ 4) as Hm by lia. split; [exact Hm |].
  exact (proj1 (proj2 (trunc_and_limit_dim_keeps_lengths demo_batch 2 4 Hm))).
Defined.

(** X18. With a negative [max_length] the stored lengths stop being row
    counts: every sequence loses its last [-max_length] rows, all of them if
    it has fewer, while a stored length that was not negative becomes
    [max_length] itself. *)
Theorem trunc_and_limit_dim_negative {A} (x : list (array2 A))
    (d_frame max_length : Z) (i : nat) (a : array2 A) :
  max_length < 0 →
  x !! i = Some a →
  let st := trunc_and_limit_dim x (len <$> x) d_frame max_length in
  ts_raised st = None
  ∧ ts_lengths st !! i = Some max_length
  ∧ ∃ a', ts_x st !! i = Some a'
          ∧ len a' = Z.max 0 (len a + max_length)
          ∧ len a' ≠ max_length.
Proof.
  intros Hm Ha st. unfold st.
  rewrite trunc_and_limit_dim_ok by (by rewrite length_fmap).
  cbn [ts_raised ts_lengths ts_x].
  rewrite <- (length_fmap len x), firstn_all, drop_all, app_nil_r.
  pose proof (Nat2Z.is_nonneg (length (rows a))) as HL. fold (len a) in HL.
  split_and!; [done | |].
  - rewrite !list_lookup_fmap, Ha. simpl. f_equal. lia.
  - exists (array_slice2 a max_length d_frame).
    rewrite list_lookup_fmap, Ha. split; [done |].
    rewrite array_slice2_len, bool_decide_eq_false_2 by lia. lia.
Qed.

Lemma trunc_and_limit_dim_negative_witness :
  -1 < 0
  ∧ demo_batch !! 1%nat = Some demo_long
  ∧ ts_lengths (trunc_and_limit_dim demo_batch (len <$> demo_batch) 2 (-1))
      !! 1%nat = Some (-1).
Proof.
  assert (-1 < 0) as Hm by lia. split; [exact Hm |]. split; [reflexivity |].
  exact (proj1 (proj2 (trunc_and_limit_dim_negative demo_batch 2 (-1) 1
                         demo_long Hm eq_refl))).
Defined.

(** X19. Truncating twice is truncating once to the smaller bounds; in
    particular a second call with the same bounds changes nothing. *)
Theorem trunc_and_limit_dim_twice {A} (x : list (array2 A))
    (lengths : list Z) (d1 m1 d2 m2 : Z) :
  length lengths = length x →
  0 ≤ m1 → 0 ≤ d1 → 0 ≤ m2 → 0 ≤ d2 →
  let st1 := trunc_and_limit_dim x lengths d1 m1 in
  trunc_and_limit_dim (ts_x st1) (ts_lengths st1) d2 m2
  = trunc_and_limit_dim x lengths (Z.min d1 d2) (Z.min m1 m2)
  ∧ trunc_and_limit_dim (ts_x st1) (ts_lengths st1) d1 m1 = st1.
Proof.
  intros Hlen Hm1 Hd1 Hm2 Hd2 st1.
  assert (∀ d m d' m', 0 ≤ m → 0 ≤ d → 0 ≤ m' → 0 ≤ d' →
    trunc_and_limit_dim (ts_x (trunc_and_limit_dim x lengths d m))
      (ts_lengths (trunc_and_limit_dim x lengths d m)) d' m'
    = trunc_and_limit_dim x lengths (Z.min d d') (Z.min m m')) as Htwice.
  { intros d m d' m' Hm Hd Hm' Hd'.
    rewrite (trunc_and_limit_dim_ok x lengths d m) by lia.
    cbn [ts_x ts_lengths].
    rewrite <- Hlen, firstn_all, drop_all, app_nil_r.
    rewrite !trunc_and_limit_dim_ok by (rewrite ?length_fmap; lia).
    rewrite !length_fmap, <- Hlen.
    rewrite <- (length_fmap (λ l, Z.min l m) lengths) at 1 2.
    rewrite !firstn_all, !drop_all, !app_nil_r.
    rewrite <- !list_fmap_compose. f_equal.
    - apply list_fmap_ext. intros i a _. simpl.
      by apply array_slice2_twice.
    - apply list_fmap_ext. intros i l _. simpl. lia. }
  split; [by apply Htwice |].
  unfold st1. rewrite Htwice by done. by rewrite !Z.min_id.
Qed.

Lemma trunc_and_limit_dim_twice_witness :
  length [2; 5; 3] = length demo_batch
  ∧ 0 ≤ 4 ∧ 0 ≤ 2 ∧ 0 ≤ 3 ∧ 0 ≤ 1
  ∧ trunc_and_limit_dim
      (ts_x (trunc_and_limit_dim demo_batch [2; 5; 3] 2 4))
      (ts_lengths (trunc_and_limit_dim demo_batch [2; 5; 3] 2 4)) 1 3
    = trunc_and_limit_dim demo_batch [2; 5; 3] (Z.min 2 1) (Z.min 4 3).
Proof.
  assert (0 ≤ 4) as H4 by lia. assert (0 ≤ 2) as H2 by lia.
  assert (0 ≤ 3) as H3 by lia. assert (0 ≤ 1) as H1 by lia.
  split; [reflexivity |]. split; [exact H4 |]. split; [exact H2 |].
  split; [exact H3 |]. split; [exact H1 |].
  exact (proj1 (trunc_and_limit_dim_twice demo_batch [2; 5; 3] 2 4 1 3
                  eq_refl H4 H2 H3 H1)).
Defined.

(** X20. With fewer stored lengths than sequences the call fails half way:
    it raises [IndexError] at the first sequence that has no stored length,
    after having cut that sequence and all before it and updated every
    stored length; the sequences after it are left as they were. *)
Theorem trunc_and_limit_dim_short_lengths {A} (x : list (array2 A))
    (lengths : list Z) (d_frame max_length : Z) :
  (length lengths < length x)%nat →
  trunc_and_limit_dim x lengths d_frame max_length
  = TruncState
      (((λ a, array_slice2 a max_length d_frame)
          <$> take (S (length lengths)) x)
       ++ drop (S (length lengths)) x)
      ((λ l, Z.min l max_length) <$> lengths)
      (Some IndexError).
Proof.
  intros Hlen. unfold trunc_and_limit_dim.
  destruct (lookup_lt_is_Some_2 x (length lengths) Hlen) as [a Ha].
  pose proof (take_drop_middle x (length lengths) a Ha) as Hx.
  assert (length (take (length lengths) x) = length lengths) as Hk
    by (rewrite length_take; lia).
  replace (length x)
    with (length lengths + S (length x - S (length lengths)))%nat by lia.
  rewrite seq_app. cbn [seq]. rewrite Nat.add_0_l.
  pose proof (trunc_loop_prefix d_frame max_length
                (take (length lengths) x) [] [] lengths
                (a :: drop (S (length lengths)) x) []
                (length lengths
                 :: seq (S (length lengths))
                      (length x - S (length lengths)))) as H.
  simpl in H. rewrite Hk, Hx, app_nil_r in H. rewrite H by done.
  cbn [trunc_loop]. unfold trunc_step.
  rewrite list_lookup_middle by (by rewrite length_fmap).
  rewrite app_nil_r, getitem_short by (by rewrite length_fmap).
  cbn [ts_raised]. f_equal.
  rewrite insert_app_r_alt by (rewrite length_fmap; lia).
  rewrite length_fmap, Hk, Nat.sub_diag. simpl.
  rewrite (take_S_r x (length lengths) a Ha), fmap_app. simpl.
  by rewrite <- app_assoc.
Qed.

Lemma trunc_and_limit_dim_short_lengths_witness :
  (length [2] < length demo_batch)%nat
  ∧ ts_raised (trunc_and_limit_dim demo_batch [2] 2 1) = Some IndexError
  ∧ ts_x (trunc_and_limit_dim demo_batch [2] 2 1) !! 2%nat = Some demo_mid.
Proof.
  assert (length [2] < length demo_batch)%nat as Hlen by (simpl; lia).
  split; [exact Hlen |].
  rewrite (trunc_and_limit_dim_short_lengths demo_batch [2] 2 1 Hlen).
  split; reflexivity.
Defined.

(** X21. Truncation prepares padding: after
    [trunc_and_limit_dim(x, lengths, d_frame, max_length)] on a non-empty
    batch of well-formed sequences that all have [d_frame] features at
    least, with [lengths] their row counts, [pad_sequences] to [max_length]
    returns in either mode when NumPy can create the tensor of
    [len(x) * max_length * d_frame] entries, and the lengths it reports are
    the stored lengths. *)
Theorem pad_after_trunc {A B} (astype : A → B) (zero : B) (np_max_size : Z)
    (x : list (array2 A)) (d_frame max_length : Z)
    (center_padded return_mask : bool) :
  x ≠ [] →
  Forall array2_wf x →
  0 ≤ d_frame →
  Forall (λ a, d_frame ≤ Z.of_nat (ncols a)) x →
  0 ≤ max_length →
  np_size [Z.of_nat (length x); max_length; d_frame] ≤ np_max_size →
  let st := trunc_and_limit_dim x (len <$> x) d_frame max_length in
  ∃ p,
    pad_sequences astype zero np_max_size (ts_x st) max_length center_padded
      return_mask = Ok p
    ∧ out_lengths p = ts_lengths st
    ∧ length (padded_x p) = length x.
Proof.
  intros Hne Hwf Hd Hw Hm Hfit st.
  assert (st = TruncState ((λ a, array_slice2 a max_length d_frame) <$> x)
                 ((λ l, Z.min l max_length) <$> (len <$> x)) None) as Hst.
  { unfold st. rewrite trunc_and_limit_dim_ok by (by rewrite length_fmap).
    by rewrite <- (length_fmap len x), firstn_all, drop_all, app_nil_r. }
  rewrite Hst. cbn [ts_x ts_lengths]. clear st Hst.
  destruct x as [|a0 x']; [done |].
  set (x0 := array_slice2 a0 max_length d_frame).
  assert (((λ a, array_slice2 a max_length d_frame) <$> a0 :: x') !! 0%nat
          = Some x0) as H0 by done.
  set (x := a0 :: x') in *.
  assert (∀ a, a ∈ x →
            ncols (array_slice2 a max_length d_frame) = Z.to_nat d_frame)
    as Hcols.
  { intros a Ha. rewrite array_slice2_nonneg by done. simpl.
    rewrite Forall_forall in Hw. specialize (Hw a Ha). lia. }
  eexists.
  split;
    [apply (pad_sequences_shared_width astype zero _ _ _ _ _ x0 H0) |].
  - apply Forall_fmap, Forall_forall. intros a Ha. simpl.
    rewrite Forall_forall in Hwf. by apply array_slice2_wf, Hwf.
  - apply Forall_fmap, Forall_forall. intros a Ha. simpl.
    trans (Z.to_nat d_frame); [by apply Hcols |].
    symmetry. apply Hcols. by left.
  - done.
  - rewrite length_fmap. unfold x0. rewrite Hcols by (by left).
    by rewrite Z2Nat.id.
  - cbn [out_lengths padded_x]. split.
    + rewrite <- !list_fmap_compose. apply list_fmap_ext.
      intros i a Ha. simpl.
      rewrite array_slice2_len, bool_decide_eq_true_2 by done. lia.
    + by rewrite !length_fmap.
Qed.

Lemma pad_after_trunc_witness :
  demo_batch ≠ []
  ∧ Forall array2_wf demo_batch
  ∧ 0 ≤ 2
  ∧ Forall (λ a, 2 ≤ Z.of_nat (ncols a)) demo_batch
  ∧ 0 ≤ 4
  ∧ np_size [Z.of_nat (length demo_batch); 4; 2] ≤ demo_max_size
  ∧ ∃ p,
      pad_sequences float32_of_Z 0 demo_max_size
        (ts_x (trunc_and_limit_dim demo_batch (len <$> demo_batch) 2 4))
        4 true true = Ok p
      ∧ out_lengths p
        = ts_lengths (trunc_and_limit_dim demo_batch (len <$> demo_batch) 2 4).
Proof.
  assert (demo_batch ≠ []) as Hne by discriminate.
  assert (0 ≤ 2) as Hd by lia. assert (0 ≤ 4) as Hm by lia.
  assert (Forall (λ a, 2 ≤ Z.of_nat (ncols a)) demo_batch) as Hw
    by (repeat constructor; simpl; lia).
  assert (np_size [Z.of_nat (length demo_batch); 4; 2] ≤ demo_max_size)
    as Hfit by (vm_compute; discriminate).
  split; [exact Hne |]. split; [exact demo_batch_wf |]. split; [exact Hd |].
  split; [exact Hw |]. split; [exact Hm |]. split; [exact Hfit |].
  destruct (pad_after_trunc float32_of_Z 0 demo_max_size demo_batch 2 4
              true true Hne demo_batch_wf Hd Hw Hm Hfit)
    as (p & Hrun & Hl & _).
  exists p. split; [exact Hrun | exact Hl].
Defined.

(** * Properties of the last loop of [apply_model] *)

(** X22. Every embedding is stored under the key of its utterance: when the
    keys are pairwise different, the iterator's [indices] are pairwise
    different positions of [keys] and [np_z] has a row for each of them, the
    dictionary built holds, for every position [j], row [j] of [np_z] under
    the key [keys[indices[j]]], and nothing else: one entry per index. *)
Theorem embed_dict_rekeys {V} (keys : list string) (idx : list nat)
    (np_z : list V) :
  NoDup keys →
  NoDup idx →
  Forall (λ i, (i < length keys)%nat) idx →
  (length idx ≤ length np_z)%nat →
  ∃ m,
    embed_dict_of keys (Z.of_nat <$> idx) np_z = Ok m
    ∧ (∀ j i k, idx !! j = Some i → keys !! i = Some k →
         m !! k = np_z !! j)
    ∧ (∀ k, is_Some (m !! k) ↔ ∃ i, i ∈ idx ∧ keys !! i = Some k)
    ∧ size m = length idx.
Proof.
  intros Hkeys Hidx Hrange Hlen.
  destruct (selected_keys_ok keys idx Hrange) as (ks & Hsel & Hks).
  pose proof (taken_at_NoDup keys idx ks Hkeys Hidx Hks) as Hnd.
  pose proof (taken_at_length _ _ _ Hks) as Hl.
  destruct (fill_embed_dict_ok ks np_z 0 ∅ Hnd)
    as (m & Hrun & Hin & Hout & Hsz); [simpl; lia | done |].
  exists m. unfold embed_dict_of. rewrite Hsel, bind_ok.
  split_and!; [done | | |].
  - intros j i k Hj Hi.
    destruct (Forall2_lookup_l _ _ _ _ _ Hks Hj) as (k' & Hk' & Hik').
    assert (k' = k) as -> by congruence. by rewrite (Hin j k Hk').
  - intros k. split.
    + intros Hk. destruct (decide (k ∈ ks)) as [Hks' | Hks'].
      * by apply (taken_at_elem_of keys idx ks).
      * rewrite Hout, lookup_empty in Hk by done. by destruct Hk.
    + intros (i & Hi & Hk). apply list_elem_of_lookup in Hi as [j Hj].
      destruct (Forall2_lookup_l _ _ _ _ _ Hks Hj) as (k' & Hk' & Hik').
      assert (k' = k) as -> by congruence.
      rewrite (Hin j k Hk'). simpl. apply lookup_lt_is_Some_2.
      apply lookup_lt_Some in Hj. lia.
  - rewrite Hsz, map_size_empty. simpl. lia.
Qed.

Lemma embed_dict_rekeys_witness :
  NoDup ["ant_s3"; "cat_s1"; "dog_s2_x"]
  ∧ NoDup [2; 0; 1]%nat
  ∧ Forall (λ i, (i < length ["ant_s3"; "cat_s1"; "dog_s2_x"])%nat)
      [2; 0; 1]%nat
  ∧ (length [2; 0; 1]%nat ≤ length [30; 10; 20])%nat
  ∧ ∃ m,
      embed_dict_of ["ant_s3"; "cat_s1"; "dog_s2_x"]
        (Z.of_nat <$> [2; 0; 1]%nat) [30; 10; 20] = Ok m
      ∧ m !! "dog_s2_x" = Some 30
      ∧ size m = 3%nat.
Proof.
  assert (NoDup ["ant_s3"; "cat_s1"; "dog_s2_x"]) as Hk
    by (apply (bool_decide_unpack (NoDup ["ant_s3"; "cat_s1"; "dog_s2_x"]));
        vm_compute; exact I).
  assert (NoDup [2; 0; 1]%nat) as Hi
    by (apply (bool_decide_unpack (NoDup [2; 0; 1]%nat)); vm_compute;
        exact I).
  assert (Forall (λ i, (i < length ["ant_s3"; "cat_s1"; "dog_s2_x"])%nat)
            [2; 0; 1]%nat) as Hr by (repeat constructor).
  assert (length [2; 0; 1]%nat ≤ length [30; 10; 20])%nat as Hl
    by (simpl; lia).
  split; [exact Hk |]. split; [exact Hi |]. split; [exact Hr |].
  split; [exact Hl |].
  destruct (embed_dict_rekeys ["ant_s3"; "cat_s1"; "dog_s2_x"] [2; 0; 1]%nat
              [30; 10; 20] Hk Hi Hr Hl) as (m & Hrun & Hlook & _ & Hsz).
  exists m. split; [exact Hrun |]. split; [|exact Hsz].
  exact (Hlook 0%nat 2%nat "dog_s2_x" eq_refl eq_refl).
Defined.

(** X23. Loading and keying fit together: for the lists
    [load_data_from_npz] returns, the indices [0, 1, ..., n-1] of an
    iterator that does not shuffle and one row of [np_z] per loaded
    utterance, the dictionary has one entry per loaded utterance and maps
    the key at every position to the row of [np_z] at that position. *)
Theorem embed_dict_after_load {A V} (npz : gmap string (array2 A))
    (min_length : option Z) (out : lists5 (array2 A)) (np_z : list V) :
  load_data_from_npz npz min_length = Ok out →
  length np_z = length (keys out) →
  ∃ m,
    embed_dict_of (keys out) (Z.of_nat <$> seq 0 (length (keys out))) np_z
    = Ok m
    ∧ (∀ i k, keys out !! i = Some k → m !! k = np_z !! i)
    ∧ (∀ k, is_Some (m !! k) ↔ k ∈ keys out)
    ∧ size m = length (data out).
Proof.
  intros Hout Hlen.
  apply load_data_from_npz_returns in Hout as (acc & -> & Hd).
  pose proof (describes_lengths npz _ _ Hd) as (Lx & _ & _ & _ & Lk).
  destruct (retained_keys_spec npz min_length) as [Hsorted _].
  destruct Hd as (Hkeys & _). simpl in *.
  assert (NoDup (acc_keys acc)) as Hnd.
  { rewrite Hkeys. clear -Hsorted.
    induction Hsorted as [|k ks _ IH Hk]; constructor; [|done].
    intros Hin. rewrite Forall_forall in Hk. specialize (Hk k Hin).
    unfold string_lt, String.ltb in Hk.
    by rewrite string_compare_refl in Hk. }
  destruct (selected_keys_ok (acc_keys acc)
              (seq 0 (length (acc_keys acc)))) as (ks & Hsel & Hks).
  { apply Forall_seq. intros; lia. }
  assert (ks = acc_keys acc) as ->.
  { apply (Forall2_functional (λ i v, acc_keys acc !! i = Some v)
             (seq 0 (length (acc_keys acc))));
      [congruence | done | apply taken_at_all]. }
  destruct (fill_embed_dict_ok (acc_keys acc) np_z 0 ∅ Hnd)
    as (m & Hrun & Hin & Hout & Hsz); [simpl; lia | done |].
  exists m. unfold embed_dict_of. rewrite Hsel, bind_ok.
  split_and!; [done | | |].
  - intros i k Hk. by rewrite (Hin i k Hk).
  - intros k. split.
    + intros Hk. destruct (decide (k ∈ acc_keys acc)) as [|Hno]; [done |].
      rewrite Hout, lookup_empty in Hk by done. by destruct Hk.
    + intros Hk. apply list_elem_of_lookup in Hk as [i Hi].
      rewrite (Hin i k Hi). simpl. apply lookup_lt_is_Some_2.
      apply lookup_lt_Some in Hi. lia.
  - rewrite Hsz, map_size_empty. simpl. lia.
Qed.

Lemma embed_dict_after_load_witness :
  ∃ out,
    load_data_from_npz demo_npz (Some 2) = Ok out
    ∧ length [10; 20] = length (keys out)
    ∧ ∃ m,
        embed_dict_of (keys out) (Z.of_nat <$> seq 0 (length (keys out)))
          [10; 20] = Ok m
        ∧ size m = length (data out).
Proof.
  destruct (load_data_from_npz demo_npz (Some 2)) as [out | e] eqn:Hrun;
    [|vm_compute in Hrun; discriminate Hrun].
  assert (length [10; 20] = length (keys out)) as Hlen.
  { vm_compute in Hrun. injection Hrun as <-. reflexivity. }
  exists out. split; [reflexivity |]. split; [exact Hlen |].
  destruct (embed_dict_after_load demo_npz (Some 2) out [10; 20] Hrun Hlen)
    as (m & Hm & _ & _ & Hsz).
  exists m. split; [exact Hm | exact Hsz].
Defined.

(** X24. The loop does not guess: an index outside [keys] (beyond its end,
    or further before it than its length) or fewer rows in [np_z] than
    indices make it raise [IndexError] instead of returning a dictionary. *)
Theorem embed_dict_raises {V} (keys : list string) (indices : list Z)
    (np_z : list V) :
  Exists (λ i, ¬ (- Z.of_nat (length keys) ≤ i < Z.of_nat (length keys)))
    indices
  ∨ (length np_z < length indices)%nat →
  embed_dict_of keys indices np_z = Raise IndexError.
Proof.
  intros Hbad. unfold embed_dict_of.
  destruct (selected_keys keys indices) as [ks | e] eqn:Hsel.
  - rewrite bind_ok.
    assert (length ks = length indices) as Hlen
      by apply (mapM_result_length _ _ _ Hsel).
    destruct Hbad as [Hbad | Hshort].
    + exfalso. unfold selected_keys in Hsel.
      rewrite (mapM_result_Raise (getitem keys) indices IndexError) in Hsel;
        [done | apply getitem_exn |].
      eapply Exists_impl; [exact Hbad |]. intros i Hi. simpl in Hi.
      exists IndexError. unfold getitem. cbv zeta.
      rewrite (bool_decide_eq_false_2 (0 ≤ _ < _)); [done |].
      case_bool_decide; lia.
    + apply fill_embed_dict_short. lia.
  - rewrite bind_raise. f_equal.
    apply (mapM_result_exn (getitem keys) indices IndexError e);
      [apply getitem_exn | done].
Qed.

Lemma embed_dict_raises_witness :
  (Exists (λ i, ¬ (- Z.of_nat (length ["a_s"; "b_s"]) ≤ i
                   < Z.of_nat (length ["a_s"; "b_s"]))) [0; 1]
   ∨ (length [10] < length [0; 1])%nat)
  ∧ embed_dict_of ["a_s"; "b_s"] [0; 1] [10] = Raise IndexError.
Proof.
  assert (Exists (λ i, ¬ (- Z.of_nat (length ["a_s"; "b_s"]) ≤ i
                          < Z.of_nat (length ["a_s"; "b_s"]))) [0; 1]
          ∨ (length [10] < length [0; 1])%nat) as H
    by (right; simpl; lia).
  split; [exact H |].
  exact (embed_dict_raises ["a_s"; "b_s"] [0; 1] [10] H).
Defined.

(** * [apply_model]: loading, then padding *)

Lemma demo_npz_retained_wide k (a : array2 Z) :
  demo_npz !! k = Some a → too_short (Some 2) a = false →
  array2_wf a ∧ ncols a = 2%nat.
Proof.
  unfold demo_npz. intros H Hs.
  repeat (apply lookup_insert_Some in H as [[<- <-] | [_ H]];
          [first [by vm_compute in Hs
                 | split; [repeat constructor | reflexivity]] |]).
  by rewrite lookup_empty in H.
Defined.

(** X27. Loading and padding fit together: when [load_data_from_npz]
    returns and the arrays it retains are two-dimensional of one width [d],
    [pad_sequences(x_data, n_padded, True)] on the loaded data returns for
    every [n_padded ≥ 0] whose tensor NumPy can create; it has one item per
    loaded key, the item at the position of a key is the centred form of
    the array stored under that key in the archive, its entries converted
    to [NP_DTYPE], and the lengths it reports are the loaded lengths capped
    at [n_padded]. *)
Theorem pad_after_load {A B} (astype : A → B) (zero : B) (np_max_size : Z)
    (npz : gmap string (array2 A)) (min_length : option Z)
    (out : lists5 (array2 A)) (n_padded : Z) (d : nat) :
  load_data_from_npz npz min_length = Ok out →
  (∀ k a, npz !! k = Some a → too_short min_length a = false →
          array2_wf a ∧ ncols a = d) →
  0 ≤ n_padded →
  np_size [Z.of_nat (length (data out)); n_padded; Z.of_nat d]
  ≤ np_max_size →
  ∃ p,
    pad_sequences astype zero np_max_size (data out) n_padded true false
    = Ok p
    ∧ length (padded_x p) = length (keys out)
    ∧ out_lengths p = (λ l, Z.min l n_padded) <$> lengths out
    ∧ ∀ i k a, keys out !! i = Some k → npz !! k = Some a →
        padded_x p !! i
        = Some (centered_item zero n_padded d (astype_array astype a)).
Proof.
  intros Hout Hshape HT Hfit.
  apply load_data_from_npz_Ok_inv in Hout as (acc & Hrun & Hne & ->).
  apply load_loop_Ok_describes in Hrun as Hd.
  pose proof (describes_lengths npz _ _ Hd) as (Lx & _ & _ & _ & Lk).
  destruct Hd as (Hkeys & Hx & _ & _ & Hn). cbn [data keys lengths] in *.
  assert (Forall (λ a, array2_wf a ∧ ncols a = d) (acc_x acc)) as Hall.
  { apply Forall_forall. intros a Ha.
    apply list_elem_of_lookup in Ha as [i Hi].
    destruct (Forall2_lookup_r _ _ _ _ _ Hx Hi) as (k & Hk & Hka).
    apply list_elem_of_lookup_2, list_elem_of_filter in Hk
      as [(a' & Ha' & Hs) _].
    assert (a' = a) as -> by congruence. by apply (Hshape k). }
  assert (acc_lengths acc = len <$> acc_x acc) as Hlens.
  { eapply Forall2_functional; [| exact Hn |].
    - intros k n n' (a & Ha & ->) (a' & Ha' & ->). congruence.
    - apply Forall2_fmap_r. eapply Forall2_impl; [exact Hx |].
      intros k a Hk. simpl. by exists a. }
  destruct (lookup_lt_is_Some_2 (acc_x acc) 0) as [x0 H0].
  { destruct (acc_x acc); [done | simpl; lia]. }
  assert (ncols x0 = d) as Hd0.
  { rewrite Forall_forall in Hall.
    apply (Hall x0), list_elem_of_lookup; eauto. }
  eexists. split.
  - apply (pad_sequences_centered astype zero _ _ _ _ x0 H0);
      [| | done | by rewrite Hd0].
    + eapply Forall_impl; [exact Hall |]. by intros a [? _].
    + eapply Forall_impl; [exact Hall |]. intros a [_ ?]. congruence.
  - cbn [padded_x out_lengths]. split_and!.
    + rewrite length_fmap. congruence.
    + by rewrite Hlens, <- list_fmap_compose.
    + intros i k a Hk Ha. rewrite Hkeys in Hk.
      destruct (Forall2_lookup_l _ _ _ _ _ Hx Hk) as (a' & Hi & Ha').
      assert (a' = a) as -> by congruence.
      by rewrite list_lookup_fmap, Hi, Hd0.
Qed.

Lemma pad_after_load_witness :
  ∃ out,
    load_data_from_npz demo_npz (Some 2) = Ok out
    ∧ (∀ k a, demo_npz !! k = Some a → too_short (Some 2) a = false →
              array2_wf a ∧ ncols a = 2%nat)
    ∧ 0 ≤ 4
    ∧ np_size [Z.of_nat (length (data out)); 4; Z.of_nat 2] ≤ demo_max_size
    ∧ ∃ p,
        pad_sequences float32_of_Z 0 demo_max_size (data out) 4 true false
        = Ok p
        ∧ length (padded_x p) = length (keys out)
        ∧ out_lengths p = (λ l, Z.min l 4) <$> lengths out.
Proof.
  destruct (load_data_from_npz demo_npz (Some 2)) as [out | e] eqn:Hrun;
    [|vm_compute in Hrun; discriminate Hrun].
  assert (0 ≤ 4) as HT by lia.
  assert (np_size [Z.of_nat (length (data out)); 4; Z.of_nat 2]
          ≤ demo_max_size) as Hfit.
  { vm_compute in Hrun. injection Hrun as <-. vm_compute. discriminate. }
  exists out. split; [reflexivity |].
  split; [exact demo_npz_retained_wide |]. split; [exact HT |].
  split; [exact Hfit |].
  destruct (pad_after_load float32_of_Z 0 demo_max_size demo_npz (Some 2)
              out 4 2 Hrun demo_npz_retained_wide HT Hfit)
    as (p & Hp & Hlen & Hl & _).
  exists p. split; [exact Hp |]. split; [exact Hlen | exact Hl].
Defined.
